(** * Lineup optimisation and luck index of doritostats/analytic_utils.py

    A shallow embedding of the analytic functions of
    [src/doritostats/analytic_utils.py] and the proofs of their
    specification.

    Conventions of the embedding.
    - A finite Python float or numpy float64 is identified with the
      rational number it denotes ([Q]).  Binary64 arithmetic rounds:
      [float64 q] is the binary64 number nearest to [q], ties to the
      even significand.  The reductions [np.sum], [np.mean] and
      [np.std], the sum of [get_best_trio] and [round(x, 2)] round after
      every operation, in the order the machine adds.  Two
      idealisations remain: the exponent range is not bounded (no
      overflow to infinity and no underflow; league scores are far from
      both ends) and zero carries no sign.
    - The scalar arithmetic of the luck index (the schedule luck on
      Python numbers, the z-scores and the final division on numpy
      scalars) is carried out on the exact values.  The results of numpy
      divisions, which never raise, live in [npfloat], the rationals
      extended with the two infinities and not-a-number.
    - Python exceptions are values of [exn]; a function that can raise
      returns a [result].
    - Python objects compare by identity.  A player object is identified
      with its record (the ESPN player id included); a team object is
      identified by its team id.
    - A [dict] is an association list in insertion order, because the
      order of the keys decides ties of the stable sort of the slots. *)

From Stdlib Require Import List ZArith QArith Qround Qminmax Qabs Qpower Qcanon String Bool.
From Stdlib Require Import DecimalString.
From Stdlib Require Import Permutation Sorted Lia Lqa.
Import ListNotations.

Open Scope Z_scope.

(* ================================================================== *)
(** ** Python and numpy primitives *)
(* ================================================================== *)

Module Py.

Inductive exn : Type :=
| IndexError
| ValueError
| KeyError
| ZeroDivisionError.

Inductive result (A : Type) : Type :=
| Ok (a : A)
| Raise (e : exn).

Arguments Ok {A} a.
Arguments Raise {A} e.

Definition bind {A B : Type} (m : result A) (k : A -> result B) : result B :=
  match m with
  | Ok a => k a
  | Raise e => Raise e
  end.

(** [[f x for x in l]] for a fallible [f]: the first exception wins. *)
Fixpoint mapM {A B : Type} (f : A -> result B) (l : list A) : result (list B) :=
  match l with
  | [] => Ok []
  | x :: l' =>
      bind (f x) (fun y => bind (mapM f l') (fun ys => Ok (y :: ys)))
  end.

(** [l[i]], negative indices counting from the end. *)
Definition getitem {A : Type} (l : list A) (i : Z) : result A :=
  let n := Z.of_nat (List.length l) in
  let j := if i <? 0 then i + n else i in
  if (j <? 0) || (n <=? j) then Raise IndexError
  else match nth_error l (Z.to_nat j) with
       | Some x => Ok x
       | None => Raise IndexError
       end.

(** [l[:n]]; a negative [n] drops the last [-n] elements. *)
Definition slice_to {A : Type} (l : list A) (n : Z) : list A :=
  if n <? 0 then firstn (Z.to_nat (Z.of_nat (List.length l) + n)) l
  else firstn (Z.to_nat n) l.

(** [range(lo, hi)]. *)
Definition range (lo hi : Z) : list Z :=
  map (fun i => lo + Z.of_nat i) (seq 0 (Z.to_nat (hi - lo))).

(** [l.remove(x)]: drops the first element equal to [x]. *)
Fixpoint remove {A : Type} (eq_dec : forall a b : A, {a = b} + {a <> b})
    (x : A) (l : list A) : result (list A) :=
  match l with
  | [] => Raise ValueError
  | y :: l' =>
      if eq_dec y x then Ok l'
      else bind (remove eq_dec x l') (fun r => Ok (y :: r))
  end.

(** [l.index(x)]: position of the first element equal to [x]. *)
Fixpoint list_index {A : Type} (eqb : A -> A -> bool) (x : A) (l : list A)
    : result Z :=
  match l with
  | [] => Raise ValueError
  | y :: l' =>
      if eqb y x then Ok 0
      else bind (list_index eqb x l') (fun i => Ok (i + 1))
  end.

(** [sorted]: a stable sort.  [insert_by before x l] puts [x], which
    preceded every element of [l] in the input, behind the elements
    that must come strictly before it and in front of all others. *)
Fixpoint insert_by {A : Type} (before : A -> A -> bool) (x : A) (l : list A)
    : list A :=
  match l with
  | [] => [x]
  | y :: l' => if before y x then y :: insert_by before x l' else x :: l
  end.

Definition sort_by {A : Type} (before : A -> A -> bool) (l : list A) : list A :=
  fold_right (insert_by before) [] l.

(** [sorted(l, key=key, reverse=reverse)] for keys compared by [ltb]. *)
Definition sorted {A K : Type} (ltb : K -> K -> bool) (key : A -> K)
    (reverse : bool) (l : list A) : list A :=
  sort_by (fun y x => if reverse then ltb (key x) (key y)
                      else ltb (key y) (key x)) l.

(** Dictionaries in insertion order. *)
Section Dict.
Context {K V : Type} (eqb : K -> K -> bool).

Fixpoint dict_get (d : list (K * V)) (k : K) : result V :=
  match d with
  | [] => Raise KeyError
  | (k', v) :: d' => if eqb k' k then Ok v else dict_get d' k
  end.

Fixpoint dict_set (d : list (K * V)) (k : K) (v : V) : list (K * V) :=
  match d with
  | [] => [(k, v)]
  | (k', v') :: d' =>
      if eqb k' k then (k', v) :: d' else (k', v') :: dict_set d' k v
  end.

Definition dict_keys (d : list (K * V)) : list K := map fst d.
End Dict.

(** Comparisons of rationals as booleans. *)
Definition Qltb (a b : Q) : bool :=
  match Qcompare a b with Lt => true | _ => false end.

(** [max(a, b)] of Python: the first maximal argument. *)
Definition pymax (a b : Q) : Q := if Qltb a b then b else a.

(** The integer nearest to [x], halves to the even one. *)
Definition round_half_even (x : Q) : Z :=
  let n := Qfloor x in
  match Qcompare (x - inject_Z n)%Q (1 # 2)%Q with
  | Lt => n
  | Gt => n + 1
  | Eq => if Z.even n then n else n + 1
  end.

(** Binary64.  [ilog2 a] is the exponent of [a > 0]: the integer [e]
    with [2^e <= a < 2^(e+1)]. *)
Definition ilog2 (a : Q) : Z :=
  let l := Z.log2 (Qnum a) - Z.log2 (Zpos (Qden a)) in
  if Qle_bool (2 ^ l) a then l else l - 1.

(** The spacing of the binary64 numbers of the magnitude of [q]: a
    significand has 53 bits. *)
Definition ulp (q : Q) : Q := (2 ^ (ilog2 (Qabs q) - 52))%Q.

(** The binary64 number nearest to [q], ties to the even significand. *)
Definition float64 (q : Q) : Q :=
  if Qeq_bool q 0 then 0%Q
  else Qred (inject_Z (round_half_even (q / ulp q)) * ulp q).

(** [a + b] on floats. *)
Definition float_add (a b : Q) : Q := float64 (a + b).

(** [round(x, 2)] on a float: the decimal with two places nearest to
    [x], halves to the even one, and of that decimal the nearest
    float. *)
Definition round2 (x : Q) : Q :=
  float64 (inject_Z (round_half_even (x * 100)) / 100).

(** [a / b] on Python numbers: raises on a zero divisor. *)
Definition truediv (a b : Q) : result Q :=
  if Qeq_bool b 0 then Raise ZeroDivisionError else Ok (a / b)%Q.

(** numpy float64 scalars: a finite value, an infinity or
    not-a-number.  The scalar operations below act on the exact
    values. *)
Inductive npfloat : Type :=
| Fin (q : Q)
| PInf
| NInf
| NaN.

Definition fneg (x : npfloat) : npfloat :=
  match x with
  | Fin q => Fin (- q)%Q
  | PInf => NInf
  | NInf => PInf
  | NaN => NaN
  end.

Definition fadd (x y : npfloat) : npfloat :=
  match x, y with
  | NaN, _ | _, NaN => NaN
  | PInf, NInf | NInf, PInf => NaN
  | PInf, _ | _, PInf => PInf
  | NInf, _ | _, NInf => NInf
  | Fin a, Fin b => Fin (a + b)%Q
  end.

Definition fsub (x y : npfloat) : npfloat := fadd x (fneg y).

(** The infinity of the sign of a non-zero [q]. *)
Definition inf_of_sign (q : Q) : npfloat :=
  if Qltb q 0 then NInf else PInf.

Definition fmul (x y : npfloat) : npfloat :=
  match x, y with
  | NaN, _ | _, NaN => NaN
  | Fin a, Fin b => Fin (a * b)%Q
  | Fin a, PInf | PInf, Fin a =>
      if Qeq_bool a 0 then NaN else inf_of_sign a
  | Fin a, NInf | NInf, Fin a =>
      if Qeq_bool a 0 then NaN else fneg (inf_of_sign a)
  | PInf, PInf | NInf, NInf => PInf
  | PInf, NInf | NInf, PInf => NInf
  end.

(** numpy division: a zero divisor gives an infinity or not-a-number
    (and a warning), never an exception. *)
Definition fdiv (x y : npfloat) : npfloat :=
  match x, y with
  | NaN, _ | _, NaN => NaN
  | Fin a, Fin b =>
      if Qeq_bool b 0
      then (if Qeq_bool a 0 then NaN else inf_of_sign a)
      else Fin (a / b)%Q
  | Fin _, (PInf | NInf) => Fin 0
  | (PInf | NInf), (PInf | NInf) => NaN
  | PInf, Fin b => inf_of_sign b
  | NInf, Fin b => fneg (inf_of_sign b)
  end.

(** [x != 0]. *)
Definition fne0 (x : npfloat) : bool :=
  match x with
  | Fin q => negb (Qeq_bool q 0)
  | _ => true
  end.

(** The summation of numpy ([pairwise_sum] of its inner loops), over
    an addition [add]: fewer than 8 numbers are added one after the
    other; up to 128 numbers are added into 8 running sums, element
    [i] into sum [i mod 8], the sums are added in pairs and the
    numbers after the last full block of 8 follow one by one; a longer
    array is cut in two, the first part a multiple of 8 long. *)
Section Pairwise.
Context {A : Type} (zero : A) (add : A -> A -> A).

(** [res += a[i]] for the elements of [a]. *)
Definition sum_from (res : A) (a : list A) : A := fold_left add a res.

(** [r[k] += a[k]] for the 8 running sums. *)
Fixpoint add_each (r a : list A) : list A :=
  match r, a with
  | x :: r', y :: a' => add x y :: add_each r' a'
  | _, _ => r
  end.

(** The loop over [blocks] blocks of 8 numbers; returns the running
    sums and the numbers left. *)
Fixpoint block_loop (blocks : nat) (r a : list A) : list A * list A :=
  match blocks with
  | O => (r, a)
  | S b => block_loop b (add_each r (firstn 8 a)) (skipn 8 a)
  end.

Definition unrolled_sum (a : list A) : A :=
  let '(r, rest) :=
    block_loop (List.length a / 8 - 1) (firstn 8 a) (skipn 8 a) in
  match r with
  | [r0; r1; r2; r3; r4; r5; r6; r7] =>
      sum_from (add (add (add r0 r1) (add r2 r3))
                    (add (add r4 r5) (add r6 r7))) rest
  | _ => zero
  end.

(** [fuel] bounds the depth of the cuts; the length of the array is
    enough. *)
Fixpoint pairwise_sum (fuel : nat) (a : list A) : A :=
  let n := List.length a in
  if (n <? 8)%nat then sum_from zero a
  else if (n <=? 128)%nat then unrolled_sum a
  else match fuel with
       | O => zero
       | S fuel' =>
           let n2 := (n / 2 - (n / 2) mod 8)%nat in
           add (pairwise_sum fuel' (firstn n2 a))
               (pairwise_sum fuel' (skipn n2 a))
       end.

End Pairwise.

(** [np.sum] of a list of floats: the pairwise sum is added to the
    zero the reduction starts from. *)
Definition np_sum (l : list Q) : Q :=
  float_add 0 (pairwise_sum 0%Q float_add (List.length l) l).

Definition qlen (l : list Q) : Q := inject_Z (Z.of_nat (List.length l)).

(** [np.mean]: the sum over the count, not-a-number on the empty
    array. *)
Definition np_mean (l : list Q) : npfloat :=
  match l with
  | [] => NaN
  | _ => Fin (float64 (np_sum l / qlen l))
  end.

(** [np.std], the population standard deviation: numpy subtracts the
    mean from every number, squares the differences, takes their mean
    and its square root [sqrt]. *)
Definition np_var (l : list Q) : Q :=
  let arrmean := float64 (np_sum l / qlen l) in
  let x := map (fun a => float64 (a - arrmean)) l in
  let x := map (fun d => float64 (d * d)) x in
  float64 (np_sum x / qlen l).

Definition np_std (sqrt : Q -> Q) (l : list Q) : npfloat :=
  match l with
  | [] => NaN
  | _ => Fin (sqrt (np_var l))
  end.

End Py.

Import Py.

Notation "x <- m ;; k" := (bind m (fun x => k))
  (at level 61, m at next level, right associativity).

(* ================================================================== *)
(** ** Lineup optimiser *)
(* ================================================================== *)

Record Player : Type := mkPlayer {
  playerId : Z;
  points : Q;
  eligibleSlots : list string;
  slot_position : string
}.

Definition Q_eq_dec (a b : Q) : {a = b} + {a <> b}.
Proof. decide equality; [apply Pos.eq_dec | apply Z.eq_dec]. Defined.

Definition Player_eq_dec (a b : Player) : {a = b} + {a <> b}.
Proof.
  decide equality;
    [ apply string_dec | apply (list_eq_dec string_dec)
    | apply Q_eq_dec | apply Z.eq_dec ].
Defined.

(** A team object, with the opponent objects of its schedule unfolded
    as far as the functions follow them. *)
#[local] Unset Elimination Schemes.
Inductive Team : Type :=
| mkTeam (team_id : Z) (scores : list Q) (schedule : list Team).
#[local] Set Elimination Schemes.

Definition team_id (t : Team) : Z := let (i, _, _) := t in i.
Definition scores (t : Team) : list Q := let (_, s, _) := t in s.
Definition schedule (t : Team) : list Team := let (_, _, o) := t in o.

(** What the functions read of a [League]: its teams and
    [roster_settings["starting_roster_slots"]]. *)
Record League : Type := mkLeague {
  teams : list Team;
  starting_roster_slots : list (string * Z)
}.

(** [slot in player.eligibleSlots] *)
Definition eligible (slot : string) (player : Player) : bool :=
  existsb (String.eqb slot) (eligibleSlots player).

Definition get_top_players (lineup : list Player) (slot : string) (n : Z)
    : list Player :=
  let eligible_players := filter (eligible slot) lineup in
  slice_to (sorted Qltb points true eligible_players) n.

(** [for player in best_players: saved_roster.remove(player)] *)
Fixpoint remove_players (best_players saved_roster : list Player)
    : result (list Player) :=
  match best_players with
  | [] => Ok saved_roster
  | player :: rest =>
      r <- remove Player_eq_dec player saved_roster ;;
      remove_players rest r
  end.

(** The loop of [get_best_lineup] over the sorted slots, threading
    [saved_roster] and [best_lineup]. *)
Fixpoint best_lineup_loop (slots_dict : list (string * Z)) (slots : list string)
    (saved_roster best_lineup : list Player) : result (list Player) :=
  match slots with
  | [] => Ok best_lineup
  | slot :: slots' =>
      num_players <- dict_get String.eqb slots_dict slot ;;
      let best_players := get_top_players saved_roster slot num_players in
      let best_lineup := best_lineup ++ best_players in
      saved_roster <- remove_players best_players saved_roster ;;
      best_lineup_loop slots_dict slots' saved_roster best_lineup
  end.

Definition sorted_slots (league : League) : list string :=
  sorted Nat.ltb String.length false
    (dict_keys (starting_roster_slots league)).

Definition best_lineup_players (league : League) (lineup : list Player)
    : result (list Player) :=
  best_lineup_loop (starting_roster_slots league) (sorted_slots league)
    lineup [].

Definition get_best_lineup (league : League) (lineup : list Player)
    : result Q :=
  best_lineup <- best_lineup_players league lineup ;;
  Ok (np_sum (map points best_lineup)).

Definition get_best_trio (league : League) (lineup : list Player) : result Q :=
  qb <- getitem (get_top_players lineup "QB" 1) 0 ;;
  rb <- getitem (get_top_players lineup "RB" 1) 0 ;;
  wr <- getitem (get_top_players lineup "WR" 1) 0 ;;
  te <- getitem (get_top_players lineup "TE" 1) 0 ;;
  Ok (round2 (float_add (float_add (points qb) (points rb))
                        (pymax (points wr) (points te)))).

(** [player.slot_position not in ("BE", "IR")] *)
Definition is_starter (player : Player) : bool :=
  negb (existsb (String.eqb (slot_position player)) ["BE"; "IR"]%string).

Definition get_lineup_efficiency (league : League) (lineup : list Player)
    : result npfloat :=
  max_score <- get_best_lineup league lineup ;;
  let real_score := np_sum (map points (filter is_starter lineup)) in
  Ok (fdiv (Fin real_score) (Fin max_score)).

(* ================================================================== *)
(** ** Luck index *)
(* ================================================================== *)

Definition get_weekly_finish (league : League) (team : Team) (week : Z)
    : result Z :=
  league_scores <- mapM (fun tm => getitem (scores tm) (week - 1))
                        (teams league) ;;
  let league_scores := sorted Qltb (fun x => x) true league_scores in
  score <- getitem (scores team) (week - 1) ;;
  i <- list_index Qeq_bool score league_scores ;;
  Ok (i + 1).

(** The first block of [get_weekly_luck_index]: the schedule luck from
    the two weekly ranks. *)
Definition schedule_luck (w_sched num_teams rank opp_rank : Z) : result Q :=
  if rank <? opp_rank then
    truediv (inject_Z (w_sched * (rank - 1))) (inject_Z (num_teams - 1))
  else if opp_rank <? rank then
    truediv (inject_Z (- w_sched * (num_teams - rank)))
            (inject_Z (num_teams - 1))
  else
    half <- truediv (inject_Z num_teams) 2 ;;
    if Qltb (inject_Z rank) half then
      a <- truediv (inject_Z (- w_sched)) 2 ;;
      truediv (a * inject_Z (num_teams - rank - 1))%Q
              (inject_Z (num_teams - 1))
    else
      a <- truediv (inject_Z w_sched) 2 ;;
      truediv (a * inject_Z (rank - 1))%Q (inject_Z (num_teams - 1)).

(** [z / 2 * w] for [z = (score - avg) / std]. *)
Definition z_norm (score : Q) (avg std : npfloat) (w : Z) : npfloat :=
  let z := fdiv (fsub (Fin score) avg) std in
  fmul (fdiv z (Fin 2)) (Fin (inject_Z w)).

Section WithSqrt.

(** [np.sqrt], which [np.std] applies to the variance. *)
Variable np_sqrt : Q -> Q.

Definition get_weekly_luck_index (league : League) (team : Team) (week : Z)
    : result npfloat :=
  opp <- getitem (schedule team) (week - 1) ;;
  let num_teams := Z.of_nat (List.length (teams league)) in
  let w_sched := 7 in
  let w_team := 2 in
  let w_opp := 1 in
  rank <- get_weekly_finish league team week ;;
  opp_rank <- get_weekly_finish league opp week ;;
  luck_index <- schedule_luck w_sched num_teams rank opp_rank ;;
  let luck_index := Fin luck_index in
  team_score <- getitem (scores team) (week - 1) ;;
  let team_avg := np_mean (slice_to (scores team) week) in
  let team_std := np_std np_sqrt (slice_to (scores team) week) in
  let luck_index :=
    if fne0 team_std
    then fadd luck_index (z_norm team_score team_avg team_std w_team)
    else luck_index in
  opp_score <- getitem (scores opp) (week - 1) ;;
  let opp_avg := np_mean (slice_to (scores opp) week) in
  let opp_std := np_std np_sqrt (slice_to (scores opp) week) in
  let luck_index :=
    if fne0 team_std
    then fsub luck_index (z_norm opp_score opp_avg opp_std w_opp)
    else luck_index in
  Ok (fdiv luck_index
           (Fin (inject_Z (fold_right Z.add 0 [w_sched; w_team; w_opp])))).

(** [luck_indices[team] += get_weekly_luck_index(league, team, week)]
    for every team, once. *)
Fixpoint season_team_loop (league : League) (week : Z) (tms : list Team)
    (luck_indices : list (Z * npfloat)) : result (list (Z * npfloat)) :=
  match tms with
  | [] => Ok luck_indices
  | team :: tms' =>
      old <- dict_get Z.eqb luck_indices (team_id team) ;;
      luck <- get_weekly_luck_index league team week ;;
      season_team_loop league week tms'
        (dict_set Z.eqb luck_indices (team_id team) (fadd old luck))
  end.

(** [for wk in range(1, week + 1)]: the body does not read [wk]. *)
Fixpoint season_week_loop (league : League) (week : Z) (wks : list Z)
    (luck_indices : list (Z * npfloat)) : result (list (Z * npfloat)) :=
  match wks with
  | [] => Ok luck_indices
  | wk :: wks' =>
      d <- season_team_loop league week (teams league) luck_indices ;;
      season_week_loop league week wks' d
  end.

Definition get_season_luck_indices (league : League) (week : Z)
    : result (list (Z * npfloat)) :=
  let luck_indices :=
    fold_left (fun d team => dict_set Z.eqb d (team_id team) (Fin 0))
              (teams league) [] in
  season_week_loop league week (range 1 (week + 1)) luck_indices.

End WithSqrt.

(* ================================================================== *)
(** ** Specification vocabulary and example data *)
(* ================================================================== *)

(** A float: a significand of at most 53 bits at some exponent. *)
Definition is_float (f : Q) : Prop :=
  exists m e : Z, Z.abs m < 2 ^ 53 /\ (f == inject_Z m * 2 ^ e)%Q.

(** [f] is [q] rounded to nearest, ties to even: a float, no float is
    nearer to [q], and where another float is as near, the significand
    of [f] is even. *)
Definition nearest_float (q f : Q) : Prop :=
  is_float f /\
  (forall g, is_float g -> (Qabs (q - f) <= Qabs (q - g))%Q) /\
  (forall g, is_float g -> ~ (g == f)%Q ->
             (Qabs (q - g) == Qabs (q - f))%Q ->
             exists m e : Z,
               2 ^ 52 <= Z.abs m < 2 ^ 53 /\
               (f == inject_Z m * 2 ^ e)%Q /\ Z.even m = true).

(** Half a unit in the last place of 1: the most a rounding changes a
    number, as a fraction of it. *)
Definition eps : Q := 1 # 9007199254740992.

(** The plain sum, in exact arithmetic. *)
Definition exact_sum (l : list Q) : Q := fold_right Qplus 0%Q l.

(** Sum and count, on canonical rationals. *)
Definition Qc_count_add (x y : Qc * nat) : Qc * nat :=
  ((fst x + fst y)%Qc, (snd x + snd y)%nat).

(** [a] may precede [b] in a list sorted by [before]: [b] need not
    come strictly before [a]. *)
Definition in_order {A : Type} (before : A -> A -> bool) (a b : A) : Prop :=
  before b a = false.

(** [v] is the highest score of a player of the lineup eligible for [slot]. *)
Definition highest (slot : string) (lineup : list Player) (v : Q) : Prop :=
  (exists p, In p lineup /\ eligible slot p = true /\ points p = v) /\
  (forall p, In p lineup -> eligible slot p = true -> (points p <= v)%Q).

Definition trio_slots : list string := ["QB"; "RB"; "WR"; "TE"]%string.

(** The score of [tm] in week [week] (weeks count from 1). *)
Definition score_at (tm : Team) (week : Z) : Q :=
  nth (Z.to_nat (week - 1)) (scores tm) 0%Q.

(** Every team of the league has a score recorded for [week]. *)
Definition all_scored (league : League) (week : Z) : Prop :=
  forall tm, In tm (teams league) ->
             1 <= week <= Z.of_nat (List.length (scores tm)).

(** The number of teams of the league that outscored [s] in [week]. *)
Definition outscored_by (league : League) (week : Z) (s : Q) : nat :=
  List.length (filter (fun tm => Qltb s (score_at tm week)) (teams league)).

(** [t] is the object of a team of the league, as it is reached
    through a schedule: same identity, same scores. *)
Definition same_team (a b : Team) : Prop :=
  team_id a = team_id b /\ scores a = scores b.

Definition member (league : League) (t : Team) : Prop :=
  exists tm, In tm (teams league) /\ same_team tm t.

(** The league of the example: four teams scoring 100, 90, 90 and 80
    in week 1. *)
Definition finish_example : League :=
  mkLeague [ mkTeam 1 [100%Q] []; mkTeam 2 [90%Q] [];
             mkTeam 3 [90%Q] []; mkTeam 4 [80%Q] [] ] [].

(** The terms of a lost and of a won week, as the code computes them. *)
Definition loss_term (w n rank : Z) : Q :=
  (inject_Z (- w * (n - rank)) / inject_Z (n - 1))%Q.

Definition win_term (w n rank : Z) : Q :=
  (inject_Z (w * (rank - 1)) / inject_Z (n - 1))%Q.

(** The tie value as the specification words it: half the loss term
    below the middle of the league, half the win term otherwise. *)
Definition claimed_tie_luck (w n rank : Z) : Q :=
  if 2 * rank <? n then (loss_term w n rank / 2)%Q
  else (win_term w n rank / 2)%Q.

(** A league of four in which the first two teams, tied at the top in
    week 1, play each other. *)
Definition tie_example : League :=
  mkLeague [ mkTeam 1 [100%Q] [mkTeam 2 [100%Q] []];
             mkTeam 2 [100%Q] [mkTeam 1 [100%Q] []];
             mkTeam 3 [90%Q] [mkTeam 4 [80%Q] []];
             mkTeam 4 [80%Q] [mkTeam 3 [90%Q] []] ] [].

(** The opponent of [team] in [week]. *)
Definition opponent (team : Team) (week : Z) : Team :=
  nth (Z.to_nat (week - 1)) (schedule team) team.

(** The inputs on which [get_weekly_luck_index] raises nothing: the
    week is on the team's schedule, every team has a score for it, the
    team and its opponent are teams of the league, and the league has
    more than one team. *)
Definition luck_ready (league : League) (team : Team) (week : Z) : Prop :=
  1 <= week <= Z.of_nat (List.length (schedule team)) /\
  all_scored league week /\
  member league team /\
  member league (opponent team week) /\
  Z.of_nat (List.length (teams league)) <> 1.

(** A rational stand-in for [np.sqrt] on which the examples run: the
    square root of [n/d] rounded up to a multiple of [1/d]. *)
Definition approx_sqrt (x : Q) : Q :=
  Z.sqrt_up (Qnum x * Zpos (Qden x)) # Qden x.

(** [np.sqrt] in binary64, the float nearest to the square root of a
    float [x]: the root is found to 64 bits from the integer square
    root of [x] scaled by a power of 4; when it is not exact, it lies
    strictly between two neighbours of that precision, where no float
    and no midpoint of two floats lies, and rounds as their midpoint. *)
Definition sqrt64 (x : Q) : Q :=
  if Qle_bool x 0 then 0%Q
  else
    let k := 64 - ilog2 x / 2 in
    let s := Z.sqrt (Qfloor (x * 2 ^ (2 * k))) in
    if Qeq_bool (inject_Z (s * s)) (x * 2 ^ (2 * k))
    then float64 (inject_Z s / 2 ^ k)
    else float64 (inject_Z (2 * s + 1) / 2 ^ (k + 1)).

(** A league of four over two weeks; team 2, flat at 70, is the
    opponent of team 1 in week 2. *)
Definition luck_example : League :=
  mkLeague
    [ mkTeam 1 [100; 50]%Q [mkTeam 3 [90; 60]%Q []; mkTeam 2 [70; 70]%Q []];
      mkTeam 2 [70; 70]%Q [mkTeam 4 [80; 65]%Q []; mkTeam 1 [100; 50]%Q []];
      mkTeam 3 [90; 60]%Q [mkTeam 1 [100; 50]%Q []; mkTeam 4 [80; 65]%Q []];
      mkTeam 4 [80; 65]%Q [mkTeam 2 [70; 70]%Q []; mkTeam 3 [90; 60]%Q []] ]
    [].

Definition luck_team1 : Team :=
  mkTeam 1 [100; 50]%Q [mkTeam 3 [90; 60]%Q []; mkTeam 2 [70; 70]%Q []].

Definition luck_team2 : Team :=
  mkTeam 2 [70; 70]%Q [mkTeam 4 [80; 65]%Q []; mkTeam 1 [100; 50]%Q []].

(** A league of two whose teams, facing each other, both scored the
    float 99.9 in each of three weeks. *)
Definition flat_team1 : Team :=
  Eval vm_compute in
  let s := float64 (999 # 10) in
  mkTeam 1 [s; s; s] [mkTeam 2 [s; s; s] []; mkTeam 2 [s; s; s] [];
                      mkTeam 2 [s; s; s] []].

Definition flat_team2 : Team :=
  Eval vm_compute in
  let s := float64 (999 # 10) in
  mkTeam 2 [s; s; s] [mkTeam 1 [s; s; s] []; mkTeam 1 [s; s; s] [];
                      mkTeam 1 [s; s; s] []].

Definition flat_example : League := mkLeague [flat_team1; flat_team2] [].

(** The season index as the specification words it: the weekly index
    of each week 1..week, summed. *)
Definition season_luck_by_week (np_sqrt : Q -> Q) (league : League)
    (team : Team) (week : Z) : result npfloat :=
  fold_left
    (fun acc wk =>
       a <- acc ;;
       luck <- get_weekly_luck_index np_sqrt league team wk ;;
       Ok (fadd a luck))
    (range 1 (week + 1)) (Ok (Fin 0)).

(** A league of four with flat scores; team 1 loses to team 2 in
    week 1 and beats team 3 in week 2. *)
Definition season_example : League :=
  mkLeague
    [ mkTeam 1 [20; 20]%Q [mkTeam 2 [30; 30]%Q []; mkTeam 3 [10; 10]%Q []];
      mkTeam 2 [30; 30]%Q [mkTeam 1 [20; 20]%Q []; mkTeam 4 [5; 5]%Q []];
      mkTeam 3 [10; 10]%Q [mkTeam 4 [5; 5]%Q []; mkTeam 1 [20; 20]%Q []];
      mkTeam 4 [5; 5]%Q [mkTeam 3 [10; 10]%Q []; mkTeam 2 [30; 30]%Q []] ]
    [].

Definition season_team1 : Team :=
  mkTeam 1 [20; 20]%Q [mkTeam 2 [30; 30]%Q []; mkTeam 3 [10; 10]%Q []].

(** [l] without the first occurrence of [x]. *)
Fixpoint remove_first {A : Type} (eq_dec : forall a b : A, {a = b} + {a <> b})
    (x : A) (l : list A) : list A :=
  match l with
  | [] => []
  | y :: l' => if eq_dec y x then l' else y :: remove_first eq_dec x l'
  end.

(** The roster without the players of [picked], first occurrences. *)
Definition without (roster picked : list Player) : list Player :=
  fold_left (fun l p => remove_first Player_eq_dec p l) picked roster.

(** How many players a required count [n] takes of [available] ones:
    [n] of them, as far as there are; a count below zero leaves out the
    last [-n]. *)
Definition take_count (n : Z) (available : nat) : nat :=
  if n <? 0 then (available - Z.to_nat (- n))%nat
  else Nat.min (Z.to_nat n) available.

(** [picked] are the top players of the roster for [slot] and the
    required count [n]: the players of the roster eligible for the
    slot are ranked by points, highest first, players of equal points
    in the order of the roster, and [picked] are the first of the
    ranking, as many as the count takes. *)
Definition top_ranked (slot : string) (n : Z) (roster picked : list Player)
    : Prop :=
  exists ranked : list Player,
    Permutation ranked (filter (eligible slot) roster) /\
    StronglySorted (fun a b => (points b <= points a)%Q) ranked /\
    (forall v : Q,
        filter (fun p => Qeq_bool (points p) v) ranked
        = filter (fun p => Qeq_bool (points p) v)
                 (filter (eligible slot) roster)) /\
    picked = firstn (take_count n (List.length ranked)) ranked.

(** The selection slot by slot: each slot takes its top players of the
    roster left by the slots before it. *)
Inductive greedy_steps (d : list (string * Z))
  : list Player -> list (string * list Player) -> Prop :=
| greedy_done (roster : list Player) : greedy_steps d roster []
| greedy_pick (roster : list Player) (slot : string) (n : Z)
              (picked : list Player) (picks : list (string * list Player)) :
    dict_get String.eqb d slot = Ok n ->
    top_ranked slot n roster picked ->
    greedy_steps d (without roster picked) picks ->
    greedy_steps d roster ((slot, picked) :: picks).

(** The players selected, in the order of selection. *)
Definition selected (picks : list (string * list Player)) : list Player :=
  List.concat (map snd picks).

(** An assignment pairs players with the slots they are put in. *)
Definition assignment : Type := list (Player * string).

Definition assigned (asg : assignment) : list Player := map fst asg.

(** The total of the points of the players, in exact arithmetic. *)
Definition total_points (l : list Player) : Q := exact_sum (map points l).

(** How often [asg] uses [slot]. *)
Definition uses (slot : string) (asg : assignment) : nat :=
  count_occ string_dec (map snd asg) slot.

(** The required count of a slot, 0 for a slot that is not required. *)
Definition required (d : list (string * Z)) (slot : string) : Z :=
  match dict_get String.eqb d slot with
  | Ok n => n
  | Raise _ => 0
  end.

Definition all_eligible (asg : assignment) : Prop :=
  forall p slot, In (p, slot) asg -> eligible slot p = true.

(** The players of [asg] are drawn from [roster], none used twice. *)
Definition drawn_from (roster : list Player) (asg : assignment) : Prop :=
  exists rest, Permutation roster (assigned asg ++ rest).

(** A legal assignment of players of the lineup to the required
    starting slots: each assigned player eligible for its slot, no
    player used twice, at most the required count per slot. *)
Definition legal_assignment (league : League) (lineup : list Player)
    (asg : assignment) : Prop :=
  all_eligible asg /\
  (forall slot, Z.of_nat (uses slot asg)
                <= required (starting_roster_slots league) slot) /\
  drawn_from lineup asg.

(** Slot [s] is specific with respect to slot [j] on a roster: when
    some player is eligible for both, every player eligible for [s] is
    eligible for [j]. *)
Definition subsumed_or_disjoint (roster : list Player) (s j : string) : Prop :=
  (exists p, In p roster /\ eligible s p = true /\ eligible j p = true) ->
  forall p, In p roster -> eligible s p = true -> eligible j p = true.

(** Specific before generic, in the order the slots are processed. *)
Definition specific_first (league : League) (lineup : list Player) : Prop :=
  ForallOrdPairs (subsumed_or_disjoint lineup) (sorted_slots league).

(** A league with a quarterback-or-any slot (OP) next to a flex slot:
    OP, the shorter label, is served before RB/WR/TE. *)
Definition superflex_league : League :=
  mkLeague [] [("QB", 1); ("RB", 1); ("OP", 1); ("RB/WR/TE", 1)]%string.

Definition superflex_lineup : list Player :=
  [ mkPlayer 1 25 ["QB"; "OP"; "BE"; "IR"]%string "QB";
    mkPlayer 2 20 ["RB"; "RB/WR/TE"; "OP"; "BE"; "IR"]%string "RB";
    mkPlayer 3 15 ["RB"; "RB/WR/TE"; "OP"; "BE"; "IR"]%string "RB/WR/TE";
    mkPlayer 4 10 ["QB"; "OP"; "BE"; "IR"]%string "OP" ].

(** The lineup as fielded: the second quarterback in OP, the second
    running back in the flex slot. *)
Definition superflex_fielded : assignment :=
  map (fun p => (p, slot_position p)) superflex_lineup.

(** A league with one running back and one flex slot. *)
Definition flex_league : League :=
  mkLeague [] [("RB/WR/TE", 1); ("RB", 1)]%string.

Definition flex_lineup : list Player :=
  [ mkPlayer 1 12 ["RB"; "RB/WR/TE"; "BE"; "IR"]%string "RB/WR/TE";
    mkPlayer 2 9 ["RB"; "RB/WR/TE"; "BE"; "IR"]%string "RB";
    mkPlayer 3 7 ["WR"; "RB/WR/TE"; "BE"; "IR"]%string "BE" ].

Definition flex_fielded : assignment :=
  [ (mkPlayer 1 12 ["RB"; "RB/WR/TE"; "BE"; "IR"]%string "RB/WR/TE",
     "RB/WR/TE"%string);
    (mkPlayer 2 9 ["RB"; "RB/WR/TE"; "BE"; "IR"]%string "RB", "RB"%string) ].

(** The starting slots of the 2018 league of the tests. *)
Definition test_league : League :=
  mkLeague []
    [ ("QB", 1); ("RB", 3); ("WR", 3); ("TE", 1); ("D/ST", 1); ("K", 1);
      ("RB/WR/TE", 1) ]%string.

(** A lineup whose only player, the quarterback, scored nothing. *)
Definition idle_lineup : list Player :=
  [ mkPlayer 1 0 ["QB"; "OP"; "BE"; "IR"]%string "QB" ].

(** A lineup that started the kicker who lost two points and benched
    the one who scored nothing. *)
Definition stray_lineup : list Player :=
  [ mkPlayer 7 (-2) ["K"; "BE"; "IR"]%string "K";
    mkPlayer 8 0 ["K"; "BE"; "IR"]%string "BE" ].

(** A lineup whose only kicker lost two points. *)
Definition cold_kicker_lineup : list Player :=
  [ mkPlayer 7 (-2) ["K"; "BE"; "IR"]%string "K" ].

(** A lineup whose three starters scored 0.1, 0.2 and 0.3, as floats. *)
Definition tenths_lineup : list Player :=
  Eval vm_compute in
  [ mkPlayer 1 (float64 (1 # 10)) ["D/ST"; "BE"; "IR"]%string "D/ST";
    mkPlayer 2 (float64 (2 # 10)) ["QB"; "OP"; "BE"; "IR"]%string "QB";
    mkPlayer 3 (float64 (3 # 10)) ["K"; "BE"; "IR"]%string "K" ].

(** A lineup whose best trio is 1.0, 1.0 and the float 0.675. *)
Definition halfway_lineup : list Player :=
  Eval vm_compute in
  [ mkPlayer 1 1 ["QB"; "OP"; "BE"; "IR"]%string "QB";
    mkPlayer 2 1 ["RB"; "RB/WR/TE"; "OP"; "BE"; "IR"]%string "RB";
    mkPlayer 3 (float64 (675 # 1000))
             ["WR"; "RB/WR/TE"; "OP"; "BE"; "IR"]%string "WR";
    mkPlayer 4 0 ["TE"; "RB/WR/TE"; "OP"; "BE"; "IR"]%string "TE" ].

(** A lineup with the float 12.3 at wide receiver. *)
Definition trio_lineup : list Player :=
  Eval vm_compute in
  [ mkPlayer 1 (41 # 2) ["QB"; "OP"; "BE"; "IR"]%string "QB";
    mkPlayer 2 15 ["RB"; "RB/WR/TE"; "OP"; "BE"; "IR"]%string "RB";
    mkPlayer 3 (float64 (123 # 10))
             ["WR"; "RB/WR/TE"; "OP"; "BE"; "IR"]%string "WR";
    mkPlayer 4 9 ["TE"; "RB/WR/TE"; "OP"; "BE"; "IR"]%string "TE";
    mkPlayer 5 15 ["RB"; "RB/WR/TE"; "OP"; "BE"; "IR"]%string "BE" ].

(** The lineup as fielded: every starter in the slot it was played in. *)
Definition fielded (lineup : list Player) : assignment :=
  map (fun p => (p, slot_position p)) (filter is_starter lineup).

(** A league of a single team, which can only face itself. *)
Definition solo_league : League :=
  mkLeague [ mkTeam 1 [50%Q] [mkTeam 1 [50%Q] []] ] [].

Definition solo_team : Team := mkTeam 1 [50%Q] [mkTeam 1 [50%Q] []].

(** The table of the teams with the values [f] gives them. *)
Definition luck_table (f : Team -> npfloat) (tms : list Team)
    : list (Z * npfloat) :=
  map (fun t => (team_id t, f t)) tms.

(** A league of two in which the second team has no schedule. *)
Definition unscheduled_example : League :=
  mkLeague [ mkTeam 1 [20%Q] [mkTeam 2 [30%Q] []]; mkTeam 2 [30%Q] [] ] [].

(* ================================================================== *)
(** ** Further functions of analytic_utils.py *)
(* ================================================================== *)

Definition avg_slot_score (league : League) (lineup : list Player)
    (slot : string) : npfloat :=
  np_mean (map points
             (filter (fun player => String.eqb (slot_position player) slot)
                     lineup)).

Definition sum_bench_points (league : League) (lineup : list Player) : Q :=
  np_sum (map points
            (filter (fun player => String.eqb (slot_position player) "BE")
                    lineup)).

(** [str(n)] of an integer. *)
Definition str (n : Z) : string := NilZero.string_of_int (Z.to_int n).

(** [make_ordinal], on an integer ([int(n)] is then the identity). *)
Definition make_ordinal (n : Z) : result string :=
  suffix <- (if (11 <=? n mod 100) && (n mod 100 <=? 13) then Ok "th"%string
             else getitem ["th"; "st"; "nd"; "rd"; "th"]%string
                          (Z.min (n mod 10) 4)) ;;
  Ok (str n ++ suffix)%string.

(** The players of the lineup played in [slot]. *)
Definition played_in (slot : string) (lineup : list Player) : list Player :=
  filter (fun player => String.eqb (slot_position player) slot) lineup.

(** The English ordinal suffix of an integer, by its last two digits. *)
Definition ordinal_suffix (n : Z) : string :=
  if (n mod 100 =? 11) || (n mod 100 =? 12) || (n mod 100 =? 13)
  then "th"%string
  else if n mod 10 =? 1 then "st"%string
  else if n mod 10 =? 2 then "nd"%string
  else if n mod 10 =? 3 then "rd"%string
  else "th"%string.

(** The loop of [get_leader_str] over [i] in
    [range(1, len(sorted_stats_list))]; running off the end of the loop
    returns [None]. *)
Fixpoint leader_loop (sorted_stats_list : list (string * Q)) (indices : list Z)
    (leaders : list string) : result (option (Q * string)) :=
  match indices with
  | [] => Ok None
  | i :: indices' =>
      cur <- getitem sorted_stats_list i ;;
      prev <- getitem sorted_stats_list (i - 1) ;;
      if Qeq_bool (snd cur) (snd prev)
      then leader_loop sorted_stats_list indices' (leaders ++ [fst cur])
      else
        first <- getitem sorted_stats_list 0 ;;
        Ok (Some (snd first, String.concat ", " leaders))
  end.

(** [get_leader_str], on a list of pairs of an owner and a value. *)
Definition get_leader_str (stats_list : list (string * Q)) (high_first : bool)
    : result (option (Q * string)) :=
  let sorted_stats_list := sorted Qltb snd high_first stats_list in
  a <- getitem sorted_stats_list 0 ;;
  b <- getitem sorted_stats_list 1 ;;
  if negb (Qeq_bool (snd a) (snd b))
  then Ok (Some (snd a, fst a))
  else leader_loop sorted_stats_list
         (range 1 (Z.of_nat (List.length sorted_stats_list))) [fst a].

(** [a] is at least as good as [b]: not lower when high values come
    first, not higher otherwise. *)
Definition at_least (high_first : bool) (a b : Q) : Prop :=
  if high_first then (b <= a)%Q else (a <= b)%Q.

(** [best] is the best value of the list. *)
Definition best_value (high_first : bool) (stats_list : list (string * Q))
    (best : Q) : Prop :=
  (exists e, In e stats_list /\ snd e = best) /\
  forall e, In e stats_list -> at_least high_first best (snd e).

(** The owners of the entries of value [v], in the order of the list. *)
Definition owners_at (v : Q) (stats_list : list (string * Q)) : list string :=
  map fst (filter (fun e => Qeq_bool (snd e) v) stats_list).

(** The loop of [get_leader_str] as a scan of the entries after the
    previous one. *)
Fixpoint leader_scan (first prev : string * Q) (rest : list (string * Q))
    (leaders : list string) : result (option (Q * string)) :=
  match rest with
  | [] => Ok None
  | cur :: rest' =>
      if Qeq_bool (snd cur) (snd prev)
      then leader_scan first cur rest' (leaders ++ [fst cur])
      else Ok (Some (snd first, String.concat ", " leaders))
  end.

(** The list of the docstring of [get_leader_str], and a list whose
    first place is shared. *)
Definition stats_example : list (string * Q) :=
  [ ("Team 1"%string, 1037 # 10); ("Team 2"%string, 837 # 10);
    ("Team 3"%string, 988 # 10) ]%Q.

Definition stats_shared : list (string * Q) :=
  [ ("Team 1"%string, 7%Q); ("Team 2"%string, 9%Q);
    ("Team 3"%string, 4%Q); ("Team 4"%string, 9%Q) ].

Definition stats_level : list (string * Q) :=
  [ ("Team 1"%string, 5%Q); ("Team 2"%string, 5%Q) ].

(** A box score of the ESPN API: the two sides of a game, a side
    without a team (a bye) holding no team object. *)
Record BoxScore : Type := mkBoxScore {
  home_team : option Team;
  home_lineup : list Player;
  away_team : option Team;
  away_lineup : list Player
}.

(** [team == other] on team objects, [other] possibly not a team. *)
Definition is_team (team : Team) (other : option Team) : bool :=
  match other with
  | Some t => Z.eqb (team_id team) (team_id t)
  | None => false
  end.

(** The loop of [get_lineup]; falling out of it returns [None]. *)
Fixpoint find_lineup (team : Team) (box_scores : list BoxScore)
    : option (list Player) :=
  match box_scores with
  | [] => None
  | box_score :: box_scores' =>
      if is_team team (home_team box_score)
      then Some (home_lineup box_score)
      else if is_team team (away_team box_score)
      then Some (away_lineup box_score)
      else find_lineup team box_scores'
  end.

(** [get_team]; [inr msg] stands for [raise Exception(msg)]. *)
Fixpoint find_team (owner : Team -> string) (tms : list Team)
    (team_owner : string) : Team + string :=
  match tms with
  | [] => inr ("Owner " ++ team_owner ++ " not in league.")%string
  | team :: tms' =>
      if String.eqb (owner team) team_owner then inl team
      else find_team owner tms' team_owner
  end.

Section LeagueData.

(** What the claims' model of a league leaves out: the attributes
    [owner], [division_name] and [standing] of the team objects, the
    division map of the league settings and the box scores the ESPN
    API serves for a week. *)
Variable owner : Team -> string.
Variable division_name : Team -> string.
Variable standing : Team -> Z.
Variable division_map : League -> list (Z * string).
Variable league_box_scores : League -> Z -> list BoxScore.

Definition get_lineup (league : League) (team : Team) (week : Z)
    (box_scores : option (list BoxScore)) : option (list Player) :=
  let box_scores :=
    match box_scores with
    | None => league_box_scores league week
    | Some b => b
    end in
  find_lineup team box_scores.

(** [sort_lineups_by_func] for a function [func] (its keyword
    arguments included) that gives a number or raises; [sorted] calls
    the key once on every team, in order, before it sorts. *)
Definition sort_lineups_by_func (league : League) (week : Z)
    (func : League -> option (list Player) -> result Q)
    (box_scores : option (list BoxScore)) : result (list Team) :=
  let box_scores :=
    match box_scores with
    | None => league_box_scores league week
    | Some b => b
    end in
  keys <- mapM (fun x => func league
                           (get_lineup league x week (Some box_scores)))
               (teams league) ;;
  Ok (map snd (sorted Qltb fst false (combine keys (teams league)))).

Definition get_team (league : League) (team_owner : string) : Team + string :=
  find_team owner (teams league) team_owner.

Definition get_division_standings (league : League)
    : list (string * list Team) :=
  fold_left
    (fun standings division =>
       let tms := filter (fun team =>
                            String.eqb (division_name team) division)
                         (teams league) in
       dict_set String.eqb standings division
                (sorted Z.ltb standing false tms))
    (map snd (division_map league)) [].

End LeagueData.

(** The team plays on neither side of the box score. *)
Definition sits_out (team : Team) (box_score : BoxScore) : Prop :=
  is_team team (home_team box_score) = false /\
  is_team team (away_team box_score) = false.

(** The box scores a call works on: the ones passed in, or else the
    ones of the API. *)
Definition resolve_box_scores
    (league_box_scores : League -> Z -> list BoxScore)
    (league : League) (week : Z) (box_scores : option (list BoxScore))
    : list BoxScore :=
  match box_scores with
  | None => league_box_scores league week
  | Some b => b
  end.

(** Two games of a week of [finish_example]. *)
Definition week_games : list BoxScore :=
  [ mkBoxScore (Some (mkTeam 1 [100%Q] [])) trio_lineup
               (Some (mkTeam 4 [80%Q] [])) idle_lineup;
    mkBoxScore (Some (mkTeam 2 [90%Q] [])) flex_lineup
               (Some (mkTeam 3 [90%Q] [])) stray_lineup ].

(* ================================================================== *)
(** ** Facts about the primitives *)
(* ================================================================== *)

Lemma Qltb_lt (a b : Q) : Qltb a b = true <-> (a < b)%Q.
Proof.
  unfold Qltb. rewrite Qlt_alt.
  destruct (a ?= b)%Q; split; congruence.
Qed.

Lemma Qltb_ge (a b : Q) : Qltb a b = false <-> (b <= a)%Q.
Proof.
  rewrite <- not_true_iff_false, Qltb_lt. split.
  - apply Qnot_lt_le.
  - apply Qle_not_lt.
Qed.

Lemma Qeq_bool_false (a b : Q) : Qeq_bool a b = false <-> ~ (a == b)%Q.
Proof.
  rewrite <- not_true_iff_false, Qeq_bool_iff. tauto.
Qed.

Lemma pymax_Qmax (a b : Q) : pymax a b = Qmax a b.
Proof.
  unfold pymax, Qltb, Qmax, GenericMinMax.gmax.
  destruct (a ?= b)%Q; reflexivity.
Qed.

(* ================================================================== *)
(** ** Binary64 rounding and the summation of numpy *)
(* ================================================================== *)

Lemma pow2_pos (e : Z) : (0 < 2 ^ e)%Q.
Proof. apply Qpower_0_lt. reflexivity. Qed.

(** The integer nearest to [x] is at most one half away from it. *)
Lemma round_half_even_near (x : Q) :
  (x - (1 # 2) <= inject_Z (round_half_even x) <= x + (1 # 2))%Q.
Proof.
  unfold round_half_even.
  pose proof (Qfloor_le x) as Hlo.
  pose proof (Qlt_floor x) as Hhi.
  rewrite inject_Z_plus in Hhi. change (inject_Z 1) with 1%Q in Hhi.
  set (n := Qfloor x) in *.
  destruct (x - inject_Z n ?= 1 # 2)%Q eqn:C.
  - apply Qeq_alt in C. destruct (Z.even n).
    + lra.
    + rewrite inject_Z_plus. change (inject_Z 1) with 1%Q. lra.
  - apply Qlt_alt in C. lra.
  - apply Qgt_alt in C.
    rewrite inject_Z_plus. change (inject_Z 1) with 1%Q. lra.
Qed.

(** At a half the nearest integer taken is the even one. *)
Lemma round_half_even_tie (x : Q) :
  (Qabs (x - inject_Z (round_half_even x)) == 1 # 2)%Q ->
  Z.even (round_half_even x) = true.
Proof.
  unfold round_half_even.
  pose proof (Qfloor_le x) as Hlo.
  pose proof (Qlt_floor x) as Hhi.
  rewrite inject_Z_plus in Hhi. change (inject_Z 1) with 1%Q in Hhi.
  set (n := Qfloor x) in *.
  destruct (x - inject_Z n ?= 1 # 2)%Q eqn:C.
  - destruct (Z.even n) eqn:E; [intros _; exact E|].
    intros _. rewrite Z.even_add, E. reflexivity.
  - apply Qlt_alt in C. intros H. exfalso.
    rewrite Qabs_pos in H by lra. lra.
  - apply Qgt_alt in C. intros H. exfalso.
    rewrite inject_Z_plus in H. change (inject_Z 1) with 1%Q in H.
    rewrite Qabs_neg in H by lra. lra.
Qed.

Lemma round_half_even_nonneg (x : Q) :
  (0 <= x)%Q -> 0 <= round_half_even x.
Proof.
  intros Hx. unfold round_half_even.
  assert (H : 0 <= Qfloor x).
  { change 0 with (Qfloor 0). now apply Qfloor_resp_le. }
  destruct (x - inject_Z (Qfloor x) ?= 1 # 2)%Q; [|lia|lia].
  destruct (Z.even (Qfloor x)); lia.
Qed.

(** [ilog2 a] is not above the exponent of [a]. *)
Lemma ilog2_lower (a : Q) : (0 < a)%Q -> (2 ^ ilog2 a <= a)%Q.
Proof.
  intros Ha. unfold ilog2.
  set (l := Z.log2 (Qnum a) - Z.log2 (Z.pos (Qden a))).
  destruct (Qle_bool (2 ^ l) a) eqn:E; [now apply Qle_bool_iff|].
  destruct a as [n d]. unfold l. simpl Qnum. simpl Qden.
  assert (Hn : 0 < n).
  { unfold Qlt in Ha. simpl in Ha. lia. }
  destruct (Z.log2_spec n Hn) as [Hn1 _].
  destruct (Z.log2_spec (Z.pos d) (Pos2Z.is_pos d)) as [_ Hd2].
  pose proof (Z.log2_nonneg n) as Hln.
  pose proof (Z.log2_nonneg (Z.pos d)) as Hld.
  replace (Z.log2 n - Z.log2 (Z.pos d) - 1)
    with (Z.log2 n - Z.succ (Z.log2 (Z.pos d))) by lia.
  rewrite Qpower_minus by discriminate.
  rewrite <- !(Zpower_Qpower 2) by lia.
  set (p := 2 ^ Z.log2 n) in *. set (q := 2 ^ Z.succ (Z.log2 (Z.pos d))) in *.
  assert (Hp : 0 < p) by (unfold p; apply Z.pow_pos_nonneg; lia).
  assert (Hq : 0 < q) by lia.
  apply Qle_shift_div_r.
  - change 0%Q with (inject_Z 0). now rewrite <- Zlt_Qlt.
  - unfold Qle, Qmult, inject_Z. simpl. nia.
Qed.

Lemma float64_zero (q : Q) : (q == 0)%Q -> float64 q = 0%Q.
Proof.
  intros H. unfold float64. apply Qeq_bool_iff in H. now rewrite H.
Qed.

Lemma float64_value (q : Q) :
  ~ (q == 0)%Q ->
  (float64 q == inject_Z (round_half_even (q / ulp q)) * ulp q)%Q.
Proof.
  intros H. unfold float64.
  destruct (Qeq_bool q 0) eqn:E; [apply Qeq_bool_iff in E; contradiction|].
  apply Qred_correct.
Qed.

Lemma ulp_pos (q : Q) : (0 < ulp q)%Q.
Proof. apply pow2_pos. Qed.

(** A number that is not zero is at least [2^52] spacings away from
    zero. *)
Lemma ulp_small (q : Q) :
  ~ (q == 0)%Q -> (2 ^ 52 * ulp q <= Qabs q)%Q.
Proof.
  intros H. unfold ulp.
  rewrite <- Qpower_plus by discriminate.
  replace (52 + (ilog2 (Qabs q) - 52)) with (ilog2 (Qabs q)) by lia.
  apply ilog2_lower.
  destruct (Qlt_le_dec 0 (Qabs q)) as [Hp|Hp]; [exact Hp|].
  exfalso. apply H. revert Hp. apply Qabs_case; intros; lra.
Qed.

Lemma pow2_52 : (2 ^ 52 == 4503599627370496)%Q.
Proof. reflexivity. Qed.

(** Rounding keeps a number that is not zero away from zero. *)
Lemma float64_eq_zero (q : Q) : (float64 q == 0)%Q -> (q == 0)%Q.
Proof.
  intros H. destruct (Qeq_dec q 0) as [E|E]; [exact E|]. exfalso.
  rewrite (float64_value q E) in H.
  pose proof (ulp_pos q) as Hu. pose proof (ulp_small q E) as Hs.
  rewrite pow2_52 in Hs.
  pose proof (round_half_even_near (q / ulp q)) as Hk.
  set (k := inject_Z (round_half_even (q / ulp q))) in *.
  set (u := ulp q) in *.
  assert (Hq : (q == q / u * u)%Q) by (field; lra).
  set (x := (q / u)%Q) in *.
  assert (Hz : (k == 0)%Q).
  { destruct (Qmult_integral _ _ H) as [?|?]; [assumption | lra]. }
  revert Hs. apply Qabs_case; intros; nra.
Qed.

Lemma float64_nonneg (q : Q) : (0 <= q)%Q -> (0 <= float64 q)%Q.
Proof.
  intros H. destruct (Qeq_dec q 0) as [E|E].
  - rewrite (float64_zero q E). apply Qle_refl.
  - rewrite (float64_value q E).
    apply Qmult_le_0_compat; [|apply Qlt_le_weak, ulp_pos].
    change 0%Q with (inject_Z 0). rewrite <- Zle_Qle.
    apply round_half_even_nonneg.
    apply Qle_shift_div_l; [apply ulp_pos|]. now rewrite Qmult_0_l.
Qed.

Lemma float_add_nonneg (a b : Q) :
  (0 <= a)%Q -> (0 <= b)%Q -> (0 <= float_add a b)%Q.
Proof. intros. apply float64_nonneg. lra. Qed.

Lemma float_add_zero (a b : Q) :
  (a == 0)%Q -> (b == 0)%Q -> float_add a b = 0%Q.
Proof. intros Ha Hb. apply float64_zero. rewrite Ha, Hb. reflexivity. Qed.

(** A sum of two numbers not below zero is zero only when both are. *)
Lemma float_add_eq_zero (a b : Q) :
  (0 <= a)%Q -> (0 <= b)%Q -> (float_add a b == 0)%Q ->
  (a == 0)%Q /\ (b == 0)%Q.
Proof.
  intros Ha Hb H. apply float64_eq_zero in H. split; lra.
Qed.

Section PairwiseFacts.
Context {A B : Type} (zero : A) (add : A -> A -> A)
        (zero' : B) (add' : B -> B -> B) (R : A -> B -> Prop).
Hypothesis R_zero : R zero zero'.
Hypothesis R_add :
  forall a b a' b', R a a' -> R b b' -> R (add a b) (add' a' b').

Lemma sum_from_rel (l : list A) (l' : list B) :
  Forall2 R l l' ->
  forall res res', R res res' ->
  R (sum_from add res l) (sum_from add' res' l').
Proof.
  induction 1 as [|x x' l l' Hx _ IH]; intros res res' Hres; simpl.
  - exact Hres.
  - apply IH. now apply R_add.
Qed.

Lemma add_each_rel (r : list A) (r' : list B) :
  Forall2 R r r' ->
  forall a a', Forall2 R a a' ->
  Forall2 R (add_each add r a) (add_each add' r' a').
Proof.
  induction 1 as [|x x' r r' Hx Hr IH]; intros a a' Ha; simpl.
  - constructor.
  - destruct Ha as [|y y' a a' Hy Ha]; [now constructor|].
    constructor; [now apply R_add | now apply IH].
Qed.

Lemma Forall2_firstn (k : nat) (l : list A) (l' : list B) :
  Forall2 R l l' -> Forall2 R (firstn k l) (firstn k l').
Proof.
  intros H. revert k.
  induction H as [|x x' l l' Hx _ IH]; intros [|k]; simpl;
    constructor; auto.
Qed.

Lemma Forall2_skipn (k : nat) (l : list A) (l' : list B) :
  Forall2 R l l' -> Forall2 R (skipn k l) (skipn k l').
Proof.
  intros H. revert k.
  induction H as [|x x' l l' Hx Hl IH]; intros [|k]; simpl; auto.
Qed.

Lemma block_loop_rel (blocks : nat) :
  forall r r' a a',
    Forall2 R r r' -> Forall2 R a a' ->
    Forall2 R (fst (block_loop add blocks r a))
              (fst (block_loop add' blocks r' a')) /\
    Forall2 R (snd (block_loop add blocks r a))
              (snd (block_loop add' blocks r' a')).
Proof.
  induction blocks as [|b IH]; intros r r' a a' Hr Ha;
    cbn [block_loop fst snd].
  - split; assumption.
  - apply IH.
    + apply add_each_rel; [exact Hr | now apply Forall2_firstn].
    + now apply Forall2_skipn.
Qed.

Lemma unrolled_sum_rel (a : list A) (a' : list B) :
  Forall2 R a a' -> R (unrolled_sum zero add a) (unrolled_sum zero' add' a').
Proof.
  intros Ha. unfold unrolled_sum.
  rewrite <- (Forall2_length Ha).
  destruct (block_loop_rel (List.length a / 8 - 1)
              (firstn 8 a) (firstn 8 a') (skipn 8 a) (skipn 8 a'))
    as [Hr Hrest];
    [now apply Forall2_firstn | now apply Forall2_skipn |].
  destruct (block_loop add _ _ _) as [r rest].
  destruct (block_loop add' _ _ _) as [r' rest'].
  simpl in Hr, Hrest.
  repeat (destruct Hr as [|? ? ? ? ? Hr]; [exact R_zero|]).
  destruct Hr; [|exact R_zero].
  apply sum_from_rel; [exact Hrest|]. auto 10.
Qed.

Lemma pairwise_sum_rel (fuel : nat) :
  forall a a', Forall2 R a a' ->
    R (pairwise_sum zero add fuel a) (pairwise_sum zero' add' fuel a').
Proof.
  induction fuel as [|fuel IH]; intros a a' Ha; cbn [pairwise_sum];
    rewrite <- (Forall2_length Ha).
  - destruct (List.length a <? 8)%nat; [now apply sum_from_rel|].
    destruct (List.length a <=? 128)%nat; [now apply unrolled_sum_rel|].
    exact R_zero.
  - destruct (List.length a <? 8)%nat; [now apply sum_from_rel|].
    destruct (List.length a <=? 128)%nat; [now apply unrolled_sum_rel|].
    apply R_add; apply IH;
      [now apply Forall2_firstn | now apply Forall2_skipn].
Qed.

End PairwiseFacts.

(** Over an addition that is associative and commutative the pairwise
    summation is the plain sum. *)
Section PairwiseMonoid.
Context {A : Type} (zero : A) (add : A -> A -> A).
Hypothesis add_assoc : forall a b c, add a (add b c) = add (add a b) c.
Hypothesis add_comm : forall a b, add a b = add b a.
Hypothesis add_zero_l : forall a, add zero a = a.

Let total (l : list A) : A := fold_right add zero l.

Lemma total_app (l l' : list A) : total (l ++ l') = add (total l) (total l').
Proof.
  induction l as [|x l IH]; simpl.
  - now rewrite add_zero_l.
  - fold (total (l ++ l')). fold (total l). now rewrite IH, add_assoc.
Qed.

Lemma sum_from_total (l : list A) (res : A) :
  sum_from add res l = add res (total l).
Proof.
  revert res. induction l as [|x l IH]; intros res; simpl.
  - now rewrite add_comm, add_zero_l.
  - fold (sum_from add (add res x) l). fold (total l).
    now rewrite IH, add_assoc.
Qed.

Lemma add_swap (a b c d : A) :
  add (add a b) (add c d) = add (add a c) (add b d).
Proof.
  rewrite <- (add_assoc a b), (add_assoc b c), (add_comm b c).
  now rewrite <- (add_assoc c b), add_assoc.
Qed.

Lemma add_each_total (r a : list A) :
  List.length r = List.length a ->
  List.length (add_each add r a) = List.length r /\
  total (add_each add r a) = add (total r) (total a).
Proof.
  revert a. induction r as [|x r IH]; intros [|y a] H; simpl in *;
    try discriminate.
  - split; [reflexivity | now rewrite add_zero_l].
  - destruct (IH a) as [Hl Ht]; [lia|].
    fold (total (add_each add r a)). fold (total r). fold (total a).
    split; [now rewrite Hl | now rewrite Ht, add_swap].
Qed.

Lemma block_loop_total (blocks : nat) :
  forall r a,
    List.length r = 8%nat -> (8 * blocks <= List.length a)%nat ->
    List.length (fst (block_loop add blocks r a)) = 8%nat /\
    add (total (fst (block_loop add blocks r a)))
        (total (snd (block_loop add blocks r a)))
    = add (total r) (total a).
Proof.
  induction blocks as [|b IH]; intros r a Hr Ha; cbn [block_loop fst snd].
  - split; [exact Hr | reflexivity].
  - assert (Hf : List.length (firstn 8 a) = 8%nat)
      by (rewrite length_firstn; lia).
    destruct (add_each_total r (firstn 8 a)) as [Hl Ht]; [lia|].
    destruct (IH (add_each add r (firstn 8 a)) (skipn 8 a)) as [Hl' Ht'].
    + lia.
    + rewrite length_skipn. lia.
    + split; [exact Hl'|].
      rewrite Ht', Ht, <- add_assoc, <- total_app.
      now rewrite firstn_skipn.
Qed.

Lemma unrolled_sum_total (a : list A) :
  (8 <= List.length a)%nat -> unrolled_sum zero add a = total a.
Proof.
  intros Hn. unfold unrolled_sum.
  destruct (block_loop_total (List.length a / 8 - 1)
              (firstn 8 a) (skipn 8 a)) as [Hl Ht].
  - rewrite length_firstn. lia.
  - rewrite length_skipn.
    pose proof (Nat.Div0.mul_div_le (List.length a) 8). lia.
  - rewrite <- (total_app (firstn 8 a)), firstn_skipn in Ht.
    destruct (block_loop add _ _ _) as [r rest]. simpl in Hl, Ht.
    do 8 (destruct r as [|? r]; [discriminate|]).
    destruct r; [|discriminate].
    rewrite sum_from_total, <- Ht. f_equal. simpl.
    rewrite <- !add_assoc. do 7 f_equal.
    now rewrite add_comm, add_zero_l.
Qed.

Lemma pairwise_sum_total (fuel : nat) :
  forall a, (List.length a <= fuel)%nat ->
            pairwise_sum zero add fuel a = total a.
Proof.
  induction fuel as [|fuel IH]; intros a Ha; cbn [pairwise_sum].
  - destruct (List.length a <? 8)%nat eqn:E;
      [|apply Nat.ltb_ge in E; lia].
    now rewrite sum_from_total, add_zero_l.
  - destruct (List.length a <? 8)%nat eqn:E.
    { now rewrite sum_from_total, add_zero_l. }
    apply Nat.ltb_ge in E.
    destruct (List.length a <=? 128)%nat eqn:E'.
    { now apply unrolled_sum_total. }
    apply Nat.leb_gt in E'.
    set (n := List.length a) in *.
    assert (Hd : (64 <= n / 2)%nat)
      by (apply Nat.div_le_lower_bound; lia).
    pose proof (Nat.Div0.mul_div_le n 2) as Hd'.
    assert (Hm : ((n / 2) mod 8 < 8)%nat)
      by (apply Nat.mod_upper_bound; lia).
    rewrite !IH.
    + now rewrite <- total_app, firstn_skipn.
    + rewrite length_skipn. fold n.
      set (h := (n / 2)%nat) in *. set (m := (h mod 8)%nat) in *.
      clearbody m h n. lia.
    + rewrite length_firstn. fold n.
      set (h := (n / 2)%nat) in *. set (m := (h mod 8)%nat) in *.
      clearbody m h n. lia.
Qed.

End PairwiseMonoid.

(** What holds of zero and is kept by the addition holds of the sum. *)
Lemma np_sum_closed (P : Q -> Prop) (l : list Q) :
  P 0%Q -> (forall a b, P a -> P b -> P (float_add a b)) ->
  (forall x, In x l -> P x) -> P (np_sum l).
Proof.
  intros H0 Hadd Hl. unfold np_sum. apply Hadd; [exact H0|].
  apply (pairwise_sum_rel 0%Q float_add tt (fun _ _ => tt)
                          (fun a _ => P a) H0
                          (fun a b _ _ => Hadd a b)
                          (List.length l) l (map (fun _ => tt) l)).
  induction l as [|x l IH]; simpl; constructor.
  - apply Hl. simpl; auto.
  - apply IH. intros y Hy. apply Hl. simpl; auto.
Qed.

Lemma np_sum_nonneg (l : list Q) :
  (forall x, In x l -> (0 <= x)%Q) -> (0 <= np_sum l)%Q.
Proof.
  apply (np_sum_closed (fun x => (0 <= x)%Q)).
  - apply Qle_refl.
  - apply float_add_nonneg.
Qed.

Lemma np_sum_zero (l : list Q) :
  (forall x, In x l -> (x == 0)%Q) -> (np_sum l == 0)%Q.
Proof.
  apply (np_sum_closed (fun x => (x == 0)%Q)).
  - reflexivity.
  - intros a b Ha Hb. now rewrite (float_add_zero a b Ha Hb).
Qed.

(** A sum of numbers not below zero is zero only when all of them are. *)
Lemma np_sum_nonneg_zero (l : list Q) :
  (forall x, In x l -> (0 <= x)%Q) -> (np_sum l == 0)%Q ->
  forall x, In x l -> (x == 0)%Q.
Proof.
  intros Hpos Hsum.
  set (R := fun (a : Q) (b : bool) => (0 <= a)%Q /\ b = Qeq_bool a 0).
  assert (Hadd : forall a b a' b',
             R a a' -> R b b' -> R (float_add a b) (a' && b')).
  { intros a b a' b' [Ha ->] [Hb ->]. split; [now apply float_add_nonneg|].
    destruct (Qeq_bool (float_add a b) 0) eqn:E.
    - apply Qeq_bool_iff in E.
      destruct (float_add_eq_zero a b Ha Hb E) as [Ea Eb].
      apply Qeq_bool_iff in Ea, Eb. now rewrite Ea, Eb.
    - apply andb_false_iff.
      destruct (Qeq_bool a 0) eqn:Ea; [|now left].
      destruct (Qeq_bool b 0) eqn:Eb; [|now right].
      apply Qeq_bool_iff in Ea, Eb.
      rewrite (float_add_zero a b Ea Eb) in E. discriminate. }
  assert (Hrel : R (pairwise_sum 0%Q float_add (List.length l) l)
                   (pairwise_sum true andb (List.length l)
                                 (map (fun x => Qeq_bool x 0) l))).
  { apply (pairwise_sum_rel 0%Q float_add true andb R).
    - split; [apply Qle_refl | reflexivity].
    - exact Hadd.
    - clear Hsum. induction l as [|x l IH]; simpl; constructor.
      + split; [apply Hpos; simpl; auto | reflexivity].
      + apply IH. intros y Hy. apply Hpos. simpl; auto. }
  rewrite (pairwise_sum_total true andb andb_assoc andb_comm andb_true_l)
    in Hrel by (rewrite length_map; apply Nat.le_refl).
  destruct Hrel as [Hge Hall].
  unfold np_sum in Hsum.
  destruct (float_add_eq_zero _ _ (Qle_refl 0) Hge Hsum) as [_ Hz].
  apply Qeq_bool_iff in Hz. rewrite Hz in Hall.
  intros x Hx. apply Qeq_bool_iff.
  clear - Hall Hx. induction l as [|y l IH]; [destruct Hx|].
  simpl in Hall. apply andb_true_iff in Hall. destruct Hall as [Hy Hl].
  destruct Hx as [<-|Hx]; [exact Hy | now apply IH].
Qed.

Lemma qlen_pos (l : list Q) : l <> [] -> (0 < qlen l)%Q.
Proof.
  intros H. unfold qlen. change 0%Q with (inject_Z 0).
  rewrite <- Zlt_Qlt. destruct l; [contradiction | simpl; lia].
Qed.

Lemma np_var_nonneg (l : list Q) : l <> [] -> (0 <= np_var l)%Q.
Proof.
  intros Hne. unfold np_var. apply float64_nonneg.
  apply Qle_shift_div_l; [now apply qlen_pos|]. rewrite Qmult_0_l.
  apply np_sum_nonneg. intros y Hy.
  apply in_map_iff in Hy. destruct Hy as [d [<- _]].
  apply float64_nonneg. nra.
Qed.

(** A history of variance zero is flat, at the mean numpy computes. *)
Lemma np_var_zero (l : list Q) :
  l <> [] -> (np_var l == 0)%Q ->
  forall x, In x l -> (x - float64 (np_sum l / qlen l) == 0)%Q.
Proof.
  intros Hne Hvar x Hx. pose proof (qlen_pos l Hne) as Hlen.
  unfold np_var in Hvar. apply float64_eq_zero in Hvar.
  set (m := float64 (np_sum l / qlen l)) in *.
  set (sq := map (fun d : Q => float64 (d * d))
                 (map (fun a : Q => float64 (a - m)) l)) in *.
  assert (Hsum : (np_sum sq == 0)%Q).
  { assert (E : (np_sum sq == np_sum sq / qlen l * qlen l)%Q)
      by (field; lra).
    rewrite E, Hvar. ring. }
  assert (Hsq : (float64 (float64 (x - m) * float64 (x - m)) == 0)%Q).
  { apply (np_sum_nonneg_zero sq); [|exact Hsum|].
    - intros y Hy. apply in_map_iff in Hy. destruct Hy as [d [<- _]].
      apply float64_nonneg. nra.
    - unfold sq. apply in_map_iff. exists (float64 (x - m)).
      split; [reflexivity|].
      now apply (in_map (fun a : Q => float64 (a - m))). }
  apply float64_eq_zero in Hsq. apply float64_eq_zero.
  apply Qmult_integral in Hsq. tauto.
Qed.

(** A flat history whose mean comes out exact has variance zero. *)
Lemma np_var_const (c : Q) (l : list Q) :
  (forall x, In x l -> (x == c)%Q) ->
  (float64 (np_sum l / qlen l) == c)%Q -> np_var l = 0%Q.
Proof.
  intros Hc Hm. unfold np_var. apply float64_zero.
  rewrite np_sum_zero; [apply Qmult_0_l|].
  intros y Hy. apply in_map_iff in Hy. destruct Hy as [d [<- Hd]].
  apply in_map_iff in Hd. destruct Hd as [x [<- Hx]].
  rewrite (float64_zero (x - float64 (np_sum l / qlen l))).
  - reflexivity.
  - rewrite Hm, (Hc x Hx). ring.
Qed.

(** [ilog2 a] is the exponent of [a]. *)
Lemma ilog2_upper (a : Q) : (0 < a)%Q -> (a < 2 ^ (ilog2 a + 1))%Q.
Proof.
  intros Ha. unfold ilog2.
  set (l := Z.log2 (Qnum a) - Z.log2 (Z.pos (Qden a))).
  destruct (Qle_bool (2 ^ l) a) eqn:E.
  - destruct a as [n d]. unfold l. simpl Qnum. simpl Qden.
    assert (Hn : 0 < n) by (unfold Qlt in Ha; simpl in Ha; lia).
    destruct (Z.log2_spec n Hn) as [_ Hn2].
    destruct (Z.log2_spec (Z.pos d) (Pos2Z.is_pos d)) as [Hd1 _].
    pose proof (Z.log2_nonneg n) as Hln.
    pose proof (Z.log2_nonneg (Z.pos d)) as Hld.
    replace (Z.log2 n - Z.log2 (Z.pos d) + 1)
      with (Z.succ (Z.log2 n) - Z.log2 (Z.pos d)) by lia.
    rewrite Qpower_minus by discriminate.
    rewrite <- !(Zpower_Qpower 2) by lia.
    set (p := 2 ^ Z.succ (Z.log2 n)) in *. set (q := 2 ^ Z.log2 (Z.pos d)) in *.
    assert (Hq : 0 < q) by (unfold q; apply Z.pow_pos_nonneg; lia).
    apply Qlt_shift_div_l.
    + change 0%Q with (inject_Z 0). now rewrite <- Zlt_Qlt.
    + unfold Qlt, Qmult, inject_Z. simpl. nia.
  - replace (l - 1 + 1) with l by lia.
    apply Qnot_le_lt. intros H. apply Qle_bool_iff in H. congruence.
Qed.

(** No integer is nearer to [x] than [round_half_even x]. *)
Lemma round_half_even_nearest (x : Q) (j : Z) :
  (Qabs (x - inject_Z (round_half_even x)) <= Qabs (x - inject_Z j))%Q.
Proof.
  pose proof (round_half_even_near x) as Hk.
  set (k := round_half_even x) in *.
  destruct (Z.eq_dec j k) as [->|Hjk]; [apply Qle_refl|].
  assert (Hd : (inject_Z j + 1 <= inject_Z k \/ inject_Z k + 1 <= inject_Z j)%Q).
  { change 1%Q with (inject_Z 1). rewrite <- !inject_Z_plus, <- !Zle_Qle. lia. }
  apply Qabs_case; intros H1; apply Qabs_case; intros H2; lra.
Qed.

(** Where another integer is as near, [x] is half way. *)
Lemma round_half_even_shared (x : Q) (j : Z) :
  j <> round_half_even x ->
  (Qabs (x - inject_Z j) == Qabs (x - inject_Z (round_half_even x)))%Q ->
  (Qabs (x - inject_Z (round_half_even x)) == 1 # 2)%Q.
Proof.
  pose proof (round_half_even_near x) as Hk.
  set (k := round_half_even x) in *. intros Hjk.
  assert (Hd : (inject_Z j + 1 <= inject_Z k \/ inject_Z k + 1 <= inject_Z j)%Q).
  { change 1%Q with (inject_Z 1). rewrite <- !inject_Z_plus, <- !Zle_Qle. lia. }
  apply Qabs_case; intros H1; apply Qabs_case; intros H2 H;
    apply Qle_antisym; lra.
Qed.

Lemma Qabs_scale (a b u : Q) :
  (0 < u)%Q -> (Qabs (a * u - b * u) == Qabs (a - b) * u)%Q.
Proof.
  intros Hu.
  assert (E : (a * u - b * u == (a - b) * u)%Q) by ring.
  rewrite E, Qabs_Qmult, (Qabs_pos u) by lra. reflexivity.
Qed.

(** A number that is not zero counts between [2^52] and [2^53]
    spacings. *)
Lemma ulp_count (q : Q) :
  ~ (q == 0)%Q ->
  (q == q / ulp q * ulp q)%Q /\
  (2 ^ 52 <= Qabs (q / ulp q) < 2 ^ 53)%Q.
Proof.
  intros H. pose proof (ulp_pos q) as Hu.
  assert (Hq : (q == q / ulp q * ulp q)%Q) by (field; lra).
  split; [exact Hq|].
  assert (Hpos : (0 < Qabs q)%Q).
  { destruct (Qlt_le_dec 0 (Qabs q)) as [Hp|Hp]; [exact Hp|].
    exfalso. apply H. revert Hp. apply Qabs_case; intros; lra. }
  pose proof (ulp_small q H) as Hlo.
  pose proof (ilog2_upper (Qabs q) Hpos) as Hhi.
  assert (E : (2 ^ (ilog2 (Qabs q) + 1) == 2 ^ 53 * ulp q)%Q).
  { unfold ulp. rewrite <- Qpower_plus by discriminate.
    now replace (53 + (ilog2 (Qabs q) - 52)) with (ilog2 (Qabs q) + 1) by lia. }
  rewrite E in Hhi.
  assert (Ea : (Qabs q == Qabs (q / ulp q) * ulp q)%Q).
  { rewrite Hq at 1. rewrite Qabs_Qmult, (Qabs_pos (ulp q)) by lra.
    reflexivity. }
  rewrite Ea in Hlo, Hhi. split.
  - apply Qmult_le_r with (ulp q); assumption.
  - apply Qmult_lt_r with (ulp q); assumption.
Qed.

Lemma pow2_53 : (2 ^ 53 == 9007199254740992)%Q.
Proof. reflexivity. Qed.

(** Among the integers and the numbers below [2^52] in magnitude, none
    is nearer to [x], of magnitude [2^52] or more, than
    [round_half_even x]; and of the numbers below [2^52] none is as
    near. *)
Lemma round_half_even_coarse (x y : Q) :
  (2 ^ 52 <= Qabs x)%Q -> (Qabs y < 2 ^ 52)%Q ->
  (Qabs (x - inject_Z (round_half_even x)) < Qabs (x - y))%Q.
Proof.
  rewrite pow2_52. intros Hx Hy.
  assert (Hp : (Qabs (x - inject_Z (round_half_even x))
                <= Qabs (x - inject_Z 4503599627370496))%Q)
    by apply round_half_even_nearest.
  assert (Hn : (Qabs (x - inject_Z (round_half_even x))
                <= Qabs (x - inject_Z (- 4503599627370496)))%Q)
    by apply round_half_even_nearest.
  change (inject_Z 4503599627370496) with 4503599627370496%Q in Hp.
  change (inject_Z (- 4503599627370496)) with (- 4503599627370496)%Q in Hn.
  revert Hx Hy Hp Hn.
  generalize (inject_Z (round_half_even x)). intros k.
  apply (Qabs_case x); intros Hx0 Hx;
    apply (Qabs_case y); intros Hy0 Hy;
    apply (Qabs_case (x - k)); intros Hk0;
    apply (Qabs_case (x - 4503599627370496)); intros Hp0 Hp;
    apply (Qabs_case (x - - 4503599627370496)); intros Hn0 Hn;
    apply (Qabs_case (x - y)); intros Hxy; lra.
Qed.

(** A float is a whole number of spacings [2^eu], or less than [2^52]
    of them. *)
Lemma float_on_grid (g : Q) (eu : Z) :
  is_float g ->
  (exists j : Z, (g == inject_Z j * 2 ^ eu)%Q) \/
  (Qabs (g / 2 ^ eu) < 2 ^ 52)%Q.
Proof.
  intros (m & e & Hm & Hg).
  pose proof (pow2_pos eu) as Hu.
  destruct (Z_le_gt_dec eu e) as [Hle|Hgt].
  - left. exists (m * 2 ^ (e - eu)).
    rewrite Hg, inject_Z_mult, Zpower_Qpower by lia.
    change (inject_Z 2) with 2%Q.
    rewrite <- Qmult_assoc, <- Qpower_plus by discriminate.
    now replace (e - eu + eu) with e by lia.
  - right.
    assert (E : (g / 2 ^ eu == inject_Z m * 2 ^ (e - eu))%Q).
    { rewrite Hg. unfold Zminus. rewrite Qpower_plus, Qpower_opp by discriminate.
      field. lra. }
    rewrite E, Qabs_Qmult.
    assert (Hp : (0 < 2 ^ (e - eu) <= 1 # 2)%Q).
    { split; [apply pow2_pos|].
      change (1 # 2)%Q with (2 ^ (-1))%Q.
      apply Qpower_le_compat_l; [lia | discriminate]. }
    rewrite (Qabs_pos (2 ^ (e - eu))) by lra.
    assert (Hm' : (Qabs (inject_Z m) <= 9007199254740991)%Q).
    { change 9007199254740991%Q with (inject_Z 9007199254740991).
      change (2 ^ 53) with 9007199254740992 in Hm.
      apply Qabs_case; intros _; [|rewrite <- inject_Z_opp];
        rewrite <- Zle_Qle; lia. }
    rewrite pow2_52.
    pose proof (Qabs_nonneg (inject_Z m)) as H0.
    generalize dependent (Qabs (inject_Z m)). intros a Ha H0.
    generalize dependent (2 ^ (e - eu))%Q. intros b _ Hb. nra.
Qed.

(** The significand of a rounded number. *)
Lemma float64_significand (q : Q) :
  ~ (q == 0)%Q ->
  exists m e : Z,
    2 ^ 52 <= Z.abs m < 2 ^ 53 /\
    (float64 q == inject_Z m * 2 ^ e)%Q /\
    (Z.even (round_half_even (q / ulp q)) = true -> Z.even m = true).
Proof.
  intros H. destruct (ulp_count q H) as [_ [Hlo Hhi]].
  rewrite pow2_52 in Hlo. rewrite pow2_53 in Hhi.
  pose proof (round_half_even_near (q / ulp q)) as Hk.
  set (k := round_half_even (q / ulp q)) in *.
  assert (Hb : 4503599627370496 <= Z.abs k <= 9007199254740992).
  { assert (Hq : (4503599627370496 - 1 < Qabs (inject_Z k)
                  < 9007199254740992 + 1)%Q).
    { revert Hlo Hhi. apply Qabs_case; intros; apply Qabs_case; intros;
        split; lra. }
    change (Qabs (inject_Z k)) with (inject_Z (Z.abs k)) in Hq.
    change (4503599627370496 - 1)%Q with (inject_Z 4503599627370495) in Hq.
    change (9007199254740992 + 1)%Q with (inject_Z 9007199254740993) in Hq.
    rewrite <- !Zlt_Qlt in Hq. lia. }
  change (2 ^ 52) with 4503599627370496.
  change (2 ^ 53) with 9007199254740992.
  pose proof (float64_value q H) as Hf. fold k in Hf. unfold ulp in Hf.
  set (eu := ilog2 (Qabs q) - 52) in *.
  destruct (Z.eq_dec (Z.abs k) 9007199254740992) as [E|E].
  - exists (k / 2), (eu + 1).
    assert (Hk2 : k = 2 * (k / 2)).
    { destruct (Z.abs_eq_or_opp k) as [Ek|Ek]; rewrite Ek in E.
      - rewrite E. reflexivity.
      - assert (Ek' : k = - 9007199254740992) by lia.
        rewrite Ek'. reflexivity. }
    split; [lia|]. split.
    + rewrite Hf, Hk2 at 1. rewrite inject_Z_mult, Qpower_plus by discriminate.
      change (inject_Z 2) with 2%Q. change (2 ^ 1)%Q with 2%Q. ring.
    + intros _. destruct (Z.abs_eq_or_opp k) as [Ek|Ek]; rewrite Ek in E.
      * rewrite E. reflexivity.
      * assert (Ek' : k = - 9007199254740992) by lia.
        rewrite Ek'. reflexivity.
  - exists k, eu. split; [lia|]. split; [exact Hf | auto].
Qed.

(** [float64] rounds to nearest, ties to even. *)
Theorem float64_nearest (q : Q) : nearest_float q (float64 q).
Proof.
  unfold nearest_float.
  destruct (Qeq_dec q 0) as [E|E].
  - rewrite (float64_zero q E). split; [|split].
    + exists 0, 0. split; [reflexivity|]. reflexivity.
    + intros g _. rewrite E. apply Qabs_nonneg.
    + intros g _ Hg H. exfalso. apply Hg.
      rewrite E in H.
      assert (H' : (Qabs (0 - g) == 0)%Q) by (rewrite H; reflexivity).
      revert H'. apply Qabs_case; intros; lra.
  - destruct (float64_significand q E) as (m & e & Hm & Hf & Heven).
    destruct (ulp_count q E) as [Hq [Hlo _]].
    pose proof (ulp_pos q) as Hu.
    pose proof (float64_value q E) as Hk.
    set (k := round_half_even (q / ulp q)) in *.
    set (x := (q / ulp q)%Q) in *.
    assert (Hqf : (Qabs (q - float64 q) == Qabs (x - inject_Z k) * ulp q)%Q).
    { rewrite Hk, Hq at 1. now apply Qabs_scale. }
    assert (Hgrid : forall g,
               is_float g ->
               (exists j : Z, (Qabs (q - g) == Qabs (x - inject_Z j) * ulp q)%Q /\
                              (j = k -> (g == float64 q)%Q)) \/
               (Qabs (q - float64 q) < Qabs (q - g))%Q).
    { intros g Hg.
      destruct (float_on_grid g (ilog2 (Qabs q) - 52) Hg) as [[j Hj]|Hc];
        fold (ulp q) in *.
      - left. exists j. split.
        + rewrite Hj, Hq at 1. now apply Qabs_scale.
        + intros ->. now rewrite Hj, Hk.
      - right.
        assert (Hgy : (g == g / ulp q * ulp q)%Q) by (field; lra).
        assert (Hqg : (Qabs (q - g) == Qabs (x - g / ulp q) * ulp q)%Q).
        { rewrite Hgy, Hq at 1. now apply Qabs_scale. }
        rewrite Hqf, Hqg. apply Qmult_lt_r; [exact Hu|].
        now apply round_half_even_coarse. }
    split; [|split].
    + exists m, e. split; [lia | exact Hf].
    + intros g Hg. destruct (Hgrid g Hg) as [[j [Hj _]]|Hlt].
      * rewrite Hqf, Hj. apply Qmult_le_compat_r; [|lra].
        apply round_half_even_nearest.
      * now apply Qlt_le_weak.
    + intros g Hg Hne Htie. exists m, e.
      split; [exact Hm|]. split; [exact Hf|]. apply Heven.
      destruct (Hgrid g Hg) as [[j [Hj Hjk]]|Hlt].
      * apply round_half_even_tie. fold x k.
        apply (round_half_even_shared x j).
        -- intros Ejk. apply Hne. now apply Hjk.
        -- fold k. rewrite Hqf, Hj in Htie.
           apply Qmult_inj_r in Htie; [exact Htie | lra].
      * rewrite Htie in Hlt. exfalso. revert Hlt. apply Qlt_irrefl.
Qed.

(** A float rounds to itself. *)
Lemma float64_float (f : Q) : is_float f -> (float64 f == f)%Q.
Proof.
  intros Hf. destruct (float64_nearest f) as (_ & Hnear & _).
  specialize (Hnear f Hf).
  assert (E : (f - f == 0)%Q) by ring.
  rewrite E in Hnear. change (Qabs 0) with 0%Q in Hnear.
  revert Hnear. apply Qabs_case; intros; lra.
Qed.

(** The fuel [np_sum] gives, the length of the array, is enough: with
    more fuel the summation is the same. *)
Lemma pairwise_sum_fuel {A : Type} (zero : A) (add : A -> A -> A)
    (fuel : nat) :
  forall (fuel' : nat) (a : list A),
    (List.length a <= fuel)%nat -> (List.length a <= fuel')%nat ->
    pairwise_sum zero add fuel a = pairwise_sum zero add fuel' a.
Proof.
  induction fuel as [|fuel IH]; intros fuel' a H H'.
  - destruct a; [|simpl in H; lia]. destruct fuel'; reflexivity.
  - destruct fuel' as [|fuel'].
    { destruct a; [|simpl in H'; lia]. reflexivity. }
    cbn [pairwise_sum].
    destruct (List.length a <? 8)%nat; [reflexivity|].
    destruct (List.length a <=? 128)%nat eqn:E; [reflexivity|].
    apply Nat.leb_gt in E.
    set (n := List.length a) in *.
    assert (Hd : (64 <= n / 2)%nat) by (apply Nat.div_le_lower_bound; lia).
    pose proof (Nat.Div0.mul_div_le n 2) as Hd'.
    assert (Hm : ((n / 2) mod 8 < 8)%nat)
      by (apply Nat.mod_upper_bound; lia).
    assert (H1 : (List.length (firstn (n / 2 - (n / 2) mod 8) a) <= fuel
                  /\ List.length (firstn (n / 2 - (n / 2) mod 8) a) <= fuel')%nat).
    { rewrite length_firstn. fold n.
      set (h := (n / 2)%nat) in *. set (m := (h mod 8)%nat) in *.
      clearbody m h n. lia. }
    assert (H2 : (List.length (skipn (n / 2 - (n / 2) mod 8) a) <= fuel
                  /\ List.length (skipn (n / 2 - (n / 2) mod 8) a) <= fuel')%nat).
    { rewrite length_skipn. fold n.
      set (h := (n / 2)%nat) in *. set (m := (h mod 8)%nat) in *.
      clearbody m h n. lia. }
    f_equal; apply IH; tauto.
Qed.

Lemma is_float_eq (f g : Q) : (f == g)%Q -> is_float f -> is_float g.
Proof.
  intros E (m & e & Hm & Hf). exists m, e. split; [exact Hm|].
  now rewrite <- E.
Qed.

(** The sum and the mean of a single float are that float. *)
Lemma np_sum_single (x : Q) : is_float x -> (np_sum [x] == x)%Q.
Proof.
  intros Hx. unfold np_sum. cbn. unfold float_add.
  assert (E : (float64 (0 + x) == x)%Q).
  { rewrite float64_float; [ring|].
    apply (is_float_eq x); [ring | exact Hx]. }
  rewrite float64_float; [rewrite E; ring|].
  apply (is_float_eq x); [rewrite E; ring | exact Hx].
Qed.

Lemma np_mean_single (x : Q) :
  is_float x -> exists m, np_mean [x] = Fin m /\ (m == x)%Q.
Proof.
  intros Hx. eexists. split; [reflexivity|].
  pose proof (np_sum_single x Hx) as E.
  assert (E' : (np_sum [x] / qlen [x] == x)%Q).
  { rewrite E. unfold qlen. simpl. field. }
  rewrite float64_float; [exact E'|].
  apply (is_float_eq x); [now rewrite E' | exact Hx].
Qed.

(** Rounding takes at most the fraction [eps] off a number above
    zero. *)
Lemma float64_lower (q : Q) : (0 <= q)%Q -> ((1 - eps) * q <= float64 q)%Q.
Proof.
  intros Hq. destruct (Qeq_dec q 0) as [E|E].
  - rewrite (float64_zero q E), E. unfold eps. lra.
  - rewrite (float64_value q E).
    pose proof (ulp_pos q) as Hu. pose proof (ulp_small q E) as Hs.
    rewrite pow2_52, Qabs_pos in Hs by exact Hq.
    pose proof (round_half_even_near (q / ulp q)) as Hk.
    set (k := inject_Z (round_half_even (q / ulp q))) in *.
    set (u := ulp q) in *.
    assert (Hx : (q == q / u * u)%Q) by (field; lra).
    set (x := (q / u)%Q) in *. unfold eps. 
    rewrite Hx at 1. nra.
Qed.

Lemma float64_upper (q : Q) : (0 <= q)%Q -> (float64 q <= (1 + eps) * q)%Q.
Proof.
  intros Hq. destruct (Qeq_dec q 0) as [E|E].
  - rewrite (float64_zero q E), E. unfold eps. lra.
  - rewrite (float64_value q E).
    pose proof (ulp_pos q) as Hu. pose proof (ulp_small q E) as Hs.
    rewrite pow2_52, Qabs_pos in Hs by exact Hq.
    pose proof (round_half_even_near (q / ulp q)) as Hk.
    set (k := inject_Z (round_half_even (q / ulp q))) in *.
    set (u := ulp q) in *.
    assert (Hx : (q == q / u * u)%Q) by (field; lra).
    set (x := (q / u)%Q) in *. unfold eps.
    rewrite Hx at 1. nra.
Qed.

Lemma float_add_zero_l (a : Q) : is_float a -> (float_add 0 a == a)%Q.
Proof.
  intros Ha. unfold float_add.
  rewrite float64_float; [ring|]. apply (is_float_eq a); [ring | exact Ha].
Qed.

Lemma float_add_zero_r (a : Q) : is_float a -> (float_add a 0 == a)%Q.
Proof.
  intros Ha. unfold float_add.
  rewrite float64_float; [ring|]. apply (is_float_eq a); [ring | exact Ha].
Qed.

Lemma float_add_float (a b : Q) : is_float (float_add a b).
Proof. apply float64_nearest. Qed.

Lemma Qc_count_fold (l : list Q) :
  let r := fold_right Qc_count_add (Q2Qc 0, 0%nat)
                      (map (fun x => (Q2Qc x, 1%nat)) l) in
  (this (fst r) == exact_sum l)%Q /\ snd r = List.length l.
Proof.
  cbv zeta. induction l as [|x l [IH1 IH2]].
  - split; reflexivity.
  - cbn [map fold_right]. unfold Qc_count_add at 1 3. cbn [fst snd].
    split.
    + unfold Qcplus, Q2Qc. cbn [this]. rewrite !Qred_correct.
      unfold exact_sum in *. cbn [fold_right]. now rewrite IH1.
    + now rewrite IH2.
Qed.

Lemma this_plus (s s' : Qc) : (this (s + s')%Qc == this s + this s')%Q.
Proof. unfold Qcplus, Q2Qc. cbn [this]. apply Qred_correct. Qed.

Lemma this_Q2Qc (x : Q) : (this (Q2Qc x) == x)%Q.
Proof. unfold Q2Qc. cbn [this]. apply Qred_correct. Qed.

(** The sum numpy takes of floats that are not below zero differs from
    the plain sum by at most the fraction [eps] for every number
    added. *)
Theorem np_sum_bounds (l : list Q) :
  (forall x, In x l -> is_float x /\ (0 <= x)%Q) ->
  let n := inject_Z (Z.of_nat (List.length l)) in
  ((1 - n * eps) * exact_sum l <= np_sum l)%Q /\
  ((1 - n * eps) * np_sum l <= exact_sum l)%Q.
Proof.
  intros Hl. cbv zeta.
  set (R := fun (a : Q) (b : Qc * nat) =>
              is_float a /\ (0 <= a)%Q /\ (0 <= this (fst b))%Q /\
              (snd b = 0%nat -> (a == 0)%Q) /\
              ((1 - inject_Z (Z.of_nat (snd b)) * eps) * this (fst b) <= a)%Q /\
              ((1 - inject_Z (Z.of_nat (snd b)) * eps) * a <= this (fst b))%Q).
  assert (Hzero : R 0%Q (Q2Qc 0, 0%nat)).
  { unfold R. simpl. split; [exists 0, 0; split; reflexivity|].
    split; [apply Qle_refl|]. split; [apply Qle_refl|].
    split; [reflexivity|]. unfold eps. split; lra. }
  assert (Hadd : forall a b a' b',
             R a a' -> R b b' -> R (float_add a b) (Qc_count_add a' b')).
  { intros a b [s k] [s' k'] (Fa & Pa & Ps & Za & La & Ua)
           (Fb & Pb & Ps' & Zb & Lb & Ub).
    cbn [fst snd] in *. unfold R, Qc_count_add. cbn [fst snd].
    rewrite this_plus.
    split; [apply float_add_float|].
    split; [now apply float_add_nonneg|].
    split; [lra|].
    destruct k as [|k].
    { specialize (Za eq_refl). cbn [Nat.add].
      assert (E : (float_add a b == b)%Q).
      { unfold float_add. rewrite float64_float.
        - rewrite Za. ring.
        - apply (is_float_eq b); [rewrite Za; ring | exact Fb]. }
      split; [intros ->; rewrite E; now apply Zb|].
      rewrite E.
      change (inject_Z (Z.of_nat 0)) with 0%Q in La.
      assert (Hs0 : (this s <= 0)%Q) by (rewrite Za in La; lra).
      assert (Hs1 : (this s == 0)%Q) by (apply Qle_antisym; assumption).
      rewrite Hs1, Qplus_0_l. split; assumption. }
    destruct k' as [|k'].
    { specialize (Zb eq_refl). rewrite Nat.add_0_r.
      assert (E : (float_add a b == a)%Q).
      { unfold float_add. rewrite float64_float.
        - rewrite Zb. ring.
        - apply (is_float_eq a); [rewrite Zb; ring | exact Fa]. }
      split; [discriminate|]. rewrite E.
      change (inject_Z (Z.of_nat 0)) with 0%Q in Lb.
      assert (Hs0 : (this s' <= 0)%Q) by (rewrite Zb in Lb; lra).
      assert (Hs1 : (this s' == 0)%Q) by (apply Qle_antisym; assumption).
      rewrite Hs1, Qplus_0_r. split; assumption. }
    split; [discriminate|].
    assert (Hab : (0 <= a + b)%Q) by lra.
    pose proof (float64_lower (a + b) Hab) as Hlo.
    pose proof (float64_upper (a + b) Hab) as Hhi.
    fold (float_add a b) in Hlo, Hhi.
    rewrite <- Nat.add_succ_comm, Nat2Z.inj_add, inject_Z_plus.
    rewrite !Nat2Z.inj_succ in *. unfold Z.succ in *.
    rewrite !inject_Z_plus in *. change (inject_Z 1) with 1%Q in *.
    assert (Hk : (0 <= inject_Z (Z.of_nat k))%Q)
      by (change 0%Q with (inject_Z 0); rewrite <- Zle_Qle; lia).
    assert (Hk' : (0 <= inject_Z (Z.of_nat k'))%Q)
      by (change 0%Q with (inject_Z 0); rewrite <- Zle_Qle; lia).
    set (n := inject_Z (Z.of_nat k)) in *.
    set (n' := inject_Z (Z.of_nat k')) in *.
    set (t := this s) in *. set (t' := this s') in *.
    set (f := float_add a b) in *.
    clearbody n n' t t' f. unfold eps in *. split.
    - apply Qle_trans with ((1 - (1 # 9007199254740992)) * (a + b))%Q;
        [|exact Hlo].
      nra.
    - destruct (Qlt_le_dec (1 - (n + 1 + 1 + n') * (1 # 9007199254740992)) 0)
        as [Hneg|Hpos].
      + assert (Hf : (0 <= f)%Q) by lra. nra.
      + apply Qle_trans
          with ((1 - (n + 1 + 1 + n') * (1 # 9007199254740992))
                * ((1 + (1 # 9007199254740992)) * (a + b)))%Q; [nra|].
        nra. }
  assert (Hrel : R (pairwise_sum 0%Q float_add (List.length l) l)
                   (pairwise_sum (Q2Qc 0, 0%nat) Qc_count_add (List.length l)
                                 (map (fun x => (Q2Qc x, 1%nat)) l))).
  { apply (pairwise_sum_rel 0%Q float_add (Q2Qc 0, 0%nat) Qc_count_add R
                            Hzero Hadd).
    clear - Hl. induction l as [|x l IH]; simpl; constructor.
    - destruct (Hl x (or_introl eq_refl)) as [Fx Px]. unfold R.
      cbn [fst snd]. rewrite this_Q2Qc.
      split; [exact Fx|]. split; [exact Px|]. split; [exact Px|].
      split; [discriminate|]. unfold eps.
      change (inject_Z (Z.of_nat 1)) with 1%Q. split; nra.
    - apply IH. intros y Hy. apply Hl. simpl; auto. }
  rewrite (pairwise_sum_total (Q2Qc 0, 0%nat) Qc_count_add) in Hrel.
  - cbv beta in Hrel.
    destruct (Qc_count_fold l) as [Es Ek]. cbv zeta in Es, Ek.
    destruct Hrel as (Fa & Pa & Ps & _ & La & Ua).
    rewrite Es, Ek in La, Ua. unfold np_sum.
    rewrite (float_add_zero_l _ Fa). split; assumption.
  - intros [a i] [b j] [c k]. unfold Qc_count_add. simpl.
    now rewrite Qcplus_assoc, Nat.add_assoc.
  - intros [a i] [b j]. unfold Qc_count_add. simpl.
    now rewrite Qcplus_comm, Nat.add_comm.
  - intros [a i]. unfold Qc_count_add. simpl.
    now rewrite Qcplus_0_l.
  - rewrite length_map. apply Nat.le_refl.
Qed.

Section SortFacts.
Context {A : Type} (before : A -> A -> bool).

Lemma insert_by_perm (x : A) (l : list A) :
  Permutation (insert_by before x l) (x :: l).
Proof.
  induction l as [|y l IH]; simpl.
  - apply Permutation_refl.
  - destruct (before y x).
    + rewrite IH. apply perm_swap.
    + apply Permutation_refl.
Qed.

Lemma sort_by_perm (l : list A) : Permutation (sort_by before l) l.
Proof.
  induction l as [|x l IH]; simpl.
  - constructor.
  - rewrite insert_by_perm. now constructor.
Qed.

(** Elements that [P] selects are never strictly ordered: the sort
    keeps them in their input order. *)
Lemma insert_by_filter (P : A -> bool) (x : A) (l : list A) :
  (forall y, In y l -> P y = true -> P x = true -> before y x = false) ->
  filter P (insert_by before x l) = filter P (x :: l).
Proof.
  induction l as [|y l IH]; intros HP; simpl; [reflexivity|].
  destruct (before y x) eqn:Hyx.
  - simpl. destruct (P y) eqn:Py.
    + destruct (P x) eqn:Px.
      * rewrite (HP y) in Hyx by (simpl; auto). discriminate.
      * rewrite IH by (intros; apply HP; simpl; auto).
        simpl. now rewrite Px.
    + rewrite IH by (intros; apply HP; simpl; auto). reflexivity.
  - reflexivity.
Qed.

Lemma sort_by_stable (P : A -> bool) (l : list A) :
  (forall x y, P x = true -> P y = true -> before y x = false) ->
  filter P (sort_by before l) = filter P l.
Proof.
  intros HP. induction l as [|x l IH]; simpl; [reflexivity|].
  rewrite insert_by_filter by (intros; now apply HP).
  simpl. now rewrite IH.
Qed.

Hypothesis before_asym :
  forall x y, before x y = true -> before y x = false.
Hypothesis before_negtrans :
  forall x y z, before x y = false -> before y z = false ->
                before x z = false.

Lemma insert_by_sorted (x : A) (l : list A) :
  StronglySorted (in_order before) l ->
  StronglySorted (in_order before) (insert_by before x l).
Proof.
  induction 1 as [|y l Hl IH Hy]; simpl.
  - repeat constructor.
  - destruct (before y x) eqn:Hyx.
    + constructor; [exact IH|].
      rewrite Forall_forall in *. intros z Hz.
      apply (Permutation_in _ (insert_by_perm x l)) in Hz.
      destruct Hz as [<-|Hz]; [now apply before_asym | now apply Hy].
    + constructor; [now constructor|].
      constructor; [exact Hyx|].
      rewrite Forall_forall in *. intros z Hz.
      unfold in_order. apply before_negtrans with y; [now apply Hy | exact Hyx].
Qed.

Lemma sort_by_sorted (l : list A) :
  StronglySorted (in_order before) (sort_by before l).
Proof.
  induction l as [|x l IH]; simpl.
  - constructor.
  - now apply insert_by_sorted.
Qed.
End SortFacts.

(** [sorted(l, key=key, reverse=True)] on rational keys: highest key
    first, equal keys in input order. *)
Section SortedDesc.
Context {A : Type} (key : A -> Q).

Lemma sorted_desc_perm (l : list A) :
  Permutation (sorted Qltb key true l) l.
Proof. apply sort_by_perm. Qed.

Lemma sorted_desc_sorted (l : list A) :
  StronglySorted (fun a b => (key b <= key a)%Q) (sorted Qltb key true l).
Proof.
  unfold sorted.
  set (before := fun y x : A => Qltb (key x) (key y)).
  assert (H : StronglySorted (in_order before) (sort_by before l)).
  { apply sort_by_sorted; unfold before.
    - intros x y H. apply Qltb_lt in H. apply Qltb_ge. now apply Qlt_le_weak.
    - intros x y z H1 H2. apply Qltb_ge in H1, H2. apply Qltb_ge.
      now apply Qle_trans with (key y). }
  induction H as [|a l' Hl IH Ha]; constructor; [exact IH|].
  rewrite Forall_forall in *. intros b Hb.
  specialize (Ha b Hb). unfold in_order, before in Ha.
  now apply Qltb_ge in Ha.
Qed.

Lemma sorted_desc_stable (v : Q) (l : list A) :
  filter (fun p => Qeq_bool (key p) v) (sorted Qltb key true l)
  = filter (fun p => Qeq_bool (key p) v) l.
Proof.
  apply sort_by_stable. intros x y Hx Hy.
  apply Qeq_bool_iff in Hx, Hy. apply Qltb_ge.
  rewrite Hx, Hy. apply Qle_refl.
Qed.
End SortedDesc.

Lemma Permutation_filter_length {A : Type} (f : A -> bool) (l l' : list A) :
  Permutation l l' -> List.length (filter f l) = List.length (filter f l').
Proof.
  induction 1 as [|x l l' _ IH|x y l|l l' l'' _ IH1 _ IH2]; simpl.
  - reflexivity.
  - destruct (f x); simpl; congruence.
  - destruct (f x), (f y); reflexivity.
  - congruence.
Qed.

Lemma slice_to_nonneg {A : Type} (l : list A) (n : Z) :
  0 <= n -> slice_to l n = firstn (Z.to_nat n) l.
Proof.
  intros Hn. unfold slice_to.
  destruct (n <? 0) eqn:E; [apply Z.ltb_lt in E; lia | reflexivity].
Qed.

(* ================================================================== *)
(** ** get_top_players *)
(* ================================================================== *)

(** C8: for a count [n >= 0], [get_top_players lineup slot n] is the
    first [n] entries (all of them when fewer are eligible) of a ranking
    of exactly the players of the lineup that are eligible for [slot],
    by points descending, in which players of equal points keep the
    order they have in the input lineup. *)
Theorem get_top_players_spec (lineup : list Player) (slot : string) (n : Z) :
  0 <= n ->
  exists ranked : list Player,
    Permutation ranked (filter (eligible slot) lineup) /\
    StronglySorted (fun a b => (points b <= points a)%Q) ranked /\
    (forall v : Q,
        filter (fun p => Qeq_bool (points p) v) ranked
        = filter (fun p => Qeq_bool (points p) v)
                 (filter (eligible slot) lineup)) /\
    get_top_players lineup slot n = firstn (Z.to_nat n) ranked /\
    List.length (get_top_players lineup slot n)
    = Nat.min (Z.to_nat n) (List.length (filter (eligible slot) lineup)).
Proof.
  intros Hn.
  exists (sorted Qltb points true (filter (eligible slot) lineup)).
  split; [apply (sorted_desc_perm points)|].
  split; [apply (sorted_desc_sorted points)|].
  split; [intros v; apply (sorted_desc_stable points)|].
  unfold get_top_players. rewrite slice_to_nonneg by exact Hn.
  split; [reflexivity|].
  rewrite length_firstn.
  now rewrite (Permutation_length (sorted_desc_perm points _)).
Qed.

(* ================================================================== *)
(** ** get_best_trio *)
(* ================================================================== *)

Lemma getitem_0 {A : Type} (l : list A) :
  getitem l 0 = match l with [] => Raise IndexError | x :: _ => Ok x end.
Proof.
  unfold getitem. destruct l as [|x l]; [reflexivity|].
  cbn [Z.ltb Z.compare List.length orb].
  destruct (Z.of_nat (S (List.length l)) <=? 0) eqn:E.
  - apply Z.leb_le in E. lia.
  - reflexivity.
Qed.

Lemma top_player_some (lineup : list Player) (slot : string) :
  (exists p, In p lineup /\ eligible slot p = true) ->
  exists m, getitem (get_top_players lineup slot 1) 0 = Ok m /\
            highest slot lineup (points m).
Proof.
  intros [p [Hin Hel]].
  unfold get_top_players. rewrite slice_to_nonneg by lia.
  pose proof (sorted_desc_perm points (filter (eligible slot) lineup)) as Hperm.
  pose proof (sorted_desc_sorted points (filter (eligible slot) lineup)) as Hsort.
  destruct (sorted Qltb points true (filter (eligible slot) lineup))
    as [|m rest] eqn:E.
  - exfalso. apply Permutation_nil in Hperm.
    assert (Hp : In p (filter (eligible slot) lineup))
      by (apply filter_In; auto).
    rewrite Hperm in Hp. exact Hp.
  - exists m. split; [rewrite getitem_0; reflexivity|].
    assert (Hm : In m (filter (eligible slot) lineup))
      by (apply (Permutation_in _ Hperm); simpl; auto).
    apply filter_In in Hm. split.
    + exists m. tauto.
    + intros q Hq Hqe.
      assert (Hq' : In q (m :: rest)).
      { apply (Permutation_in _ (Permutation_sym Hperm)).
        apply filter_In; auto. }
      inversion Hsort as [|? ? _ Hall]; subst.
      destruct Hq' as [<-|Hq']; [apply Qle_refl|].
      rewrite Forall_forall in Hall. now apply Hall.
Qed.

Lemma top_player_none (lineup : list Player) (slot : string) :
  (forall p, In p lineup -> eligible slot p = false) ->
  getitem (get_top_players lineup slot 1) 0 = Raise IndexError.
Proof.
  intros Hnone. unfold get_top_players.
  assert (E : filter (eligible slot) lineup = []).
  { induction lineup as [|p l IH]; simpl; [reflexivity|].
    rewrite (Hnone p) by (simpl; auto).
    apply IH. intros q Hq. apply Hnone. simpl; auto. }
  rewrite E. reflexivity.
Qed.

Lemma top_player_cases (lineup : list Player) (slot : string) :
  (exists m, getitem (get_top_players lineup slot 1) 0 = Ok m /\
             highest slot lineup (points m)) \/
  ((forall p, In p lineup -> eligible slot p = false) /\
   getitem (get_top_players lineup slot 1) 0 = Raise IndexError).
Proof.
  destruct (existsb (eligible slot) lineup) eqn:E.
  - left. apply top_player_some. apply existsb_exists in E. exact E.
  - right.
    assert (H : forall p, In p lineup -> eligible slot p = false).
    { intros p Hp. destruct (eligible slot p) eqn:Ep; [|reflexivity].
      rewrite <- E. symmetry. apply existsb_exists. eauto. }
    split; [exact H | now apply top_player_none].
Qed.

(** [round2 x] is the float nearest to a whole number [k] of
    hundredths, and [k] is the integer nearest to [100 x], the even
    one when [100 x] lies halfway between two integers. *)
Lemma round2_nearest (x : Q) :
  exists k : Z,
    round2 x = float64 (inject_Z k / 100) /\
    (Qabs (x * 100 - inject_Z k) <= 1 # 2)%Q /\
    ((Qabs (x * 100 - inject_Z k) == 1 # 2)%Q -> Z.even k = true).
Proof.
  exists (round_half_even (x * 100)).
  split; [reflexivity|]. split.
  - pose proof (round_half_even_near (x * 100)) as H.
    apply Qabs_diff_Qle_condition. lra.
  - apply round_half_even_tie.
Qed.

(** C7: when the lineup has a player eligible for each of QB, RB, WR
    and TE, [get_best_trio] adds, as floats, the highest QB score, the
    highest RB score and the larger of the highest WR and the highest
    TE score - each sum the float nearest to the sum of its two terms -
    and returns the total rounded to two decimal places: the float
    nearest to [k/100] for the integer [k] nearest to a hundred times
    the total, the even one at a half.  When one of the four has no
    eligible player, it raises [IndexError] to the caller. *)
Theorem get_best_trio_spec (league : League) (lineup : list Player) :
  ((forall slot, In slot trio_slots ->
                 exists p, In p lineup /\ eligible slot p = true) ->
   exists (qb rb wr te : Q) (k : Z),
     highest "QB" lineup qb /\ highest "RB" lineup rb /\
     highest "WR" lineup wr /\ highest "TE" lineup te /\
     let backs := float_add qb rb in
     let total := float_add backs (Qmax wr te) in
     let best_trio := float64 (inject_Z k / 100) in
     nearest_float (qb + rb) backs /\
     nearest_float (backs + Qmax wr te) total /\
     (Qabs (total * 100 - inject_Z k) <= 1 # 2)%Q /\
     ((Qabs (total * 100 - inject_Z k) == 1 # 2)%Q -> Z.even k = true) /\
     nearest_float (inject_Z k / 100) best_trio /\
     get_best_trio league lineup = Ok best_trio) /\
  ((exists slot, In slot trio_slots /\
                 forall p, In p lineup -> eligible slot p = false) ->
   get_best_trio league lineup = Raise IndexError).
Proof.
  unfold get_best_trio, trio_slots. split.
  - intros Hall.
    destruct (top_player_some lineup "QB") as [qb [Eq Hq]];
      [apply Hall; simpl; auto|].
    destruct (top_player_some lineup "RB") as [rb [Er Hr]];
      [apply Hall; simpl; auto|].
    destruct (top_player_some lineup "WR") as [wr [Ew Hw]];
      [apply Hall; simpl; auto|].
    destruct (top_player_some lineup "TE") as [te [Et Ht]];
      [apply Hall; simpl; tauto|].
    destruct (round2_nearest
                (float_add (float_add (points qb) (points rb))
                           (Qmax (points wr) (points te))))
      as (k & Hk & Hnear & Htie).
    exists (points qb), (points rb), (points wr), (points te), k.
    rewrite Eq, Er, Ew, Et. cbn [bind]. rewrite pymax_Qmax.
    repeat (split; [assumption|]).
    cbv zeta. split; [apply float64_nearest|].
    split; [apply float64_nearest|].
    split; [exact Hnear|]. split; [exact Htie|].
    split; [apply float64_nearest | now rewrite Hk].
  - intros [slot [Hslot Hnone]].
    destruct (top_player_cases lineup "QB") as [[qb [Eq _]]|[_ Eq]];
      rewrite Eq; simpl; [|reflexivity].
    destruct (top_player_cases lineup "RB") as [[rb [Er _]]|[_ Er]];
      rewrite Er; simpl; [|reflexivity].
    destruct (top_player_cases lineup "WR") as [[wr [Ew _]]|[_ Ew]];
      rewrite Ew; simpl; [|reflexivity].
    destruct (top_player_cases lineup "TE") as [[te [Et _]]|[_ Et]];
      rewrite Et; simpl; [|reflexivity].
    exfalso.
    simpl in Hslot.
    destruct Hslot as [<-|[<-|[<-|[<-|[]]]]];
      rewrite (top_player_none _ _ Hnone) in *; discriminate.
Qed.

(* ================================================================== *)
(** ** get_weekly_finish *)
(* ================================================================== *)

Lemma getitem_week {A : Type} (l : list A) (week : Z) (d : A) :
  1 <= week <= Z.of_nat (List.length l) ->
  getitem l (week - 1) = Ok (nth (Z.to_nat (week - 1)) l d).
Proof.
  intros H. unfold getitem.
  destruct (week - 1 <? 0) eqn:E1; [apply Z.ltb_lt in E1; lia|].
  rewrite E1. simpl.
  destruct (Z.of_nat (List.length l) <=? week - 1) eqn:E2;
    [apply Z.leb_le in E2; lia|].
  destruct (nth_error l (Z.to_nat (week - 1))) as [x|] eqn:E3.
  - f_equal. symmetry. now apply nth_error_nth.
  - apply nth_error_None in E3. lia.
Qed.

Lemma mapM_ok {A B : Type} (f : A -> result B) (g : A -> B) (l : list A) :
  (forall x, In x l -> f x = Ok (g x)) -> mapM f l = Ok (map g l).
Proof.
  induction l as [|x l IH]; intros H; simpl; [reflexivity|].
  rewrite (H x) by (simpl; auto). simpl.
  rewrite IH by (intros; apply H; simpl; auto). reflexivity.
Qed.

(** In a list sorted highest first, the first position of a score is
    the number of strictly higher scores. *)
Lemma list_index_sorted_desc (s : Q) (l : list Q) :
  StronglySorted (fun a b => (b <= a)%Q) l ->
  (exists x, In x l /\ (x == s)%Q) ->
  list_index Qeq_bool s l = Ok (Z.of_nat (List.length (filter (Qltb s) l))).
Proof.
  induction 1 as [|y l Hl IH Hy]; intros [x [Hx Hxs]]; [destruct Hx|].
  rewrite Forall_forall in Hy. simpl.
  destruct (Qeq_bool y s) eqn:E.
  - apply Qeq_bool_iff in E.
    assert (Hy' : Qltb s y = false) by (apply Qltb_ge; rewrite E; apply Qle_refl).
    rewrite Hy'.
    assert (Hnone : filter (Qltb s) l = []).
    { clear IH Hx. induction l as [|z l IHl]; simpl; [reflexivity|].
      assert (Hz : Qltb s z = false).
      { apply Qltb_ge. rewrite <- E. apply Hy. simpl; auto. }
      rewrite Hz. apply IHl.
      - now inversion Hl.
      - intros w Hw. apply Hy. simpl; auto. }
    rewrite Hnone. reflexivity.
  - apply Qeq_bool_false in E.
    destruct Hx as [->|Hx]; [contradiction|].
    assert (Hlt : Qltb s y = true).
    { apply Qltb_lt. specialize (Hy x Hx). rewrite Hxs in Hy.
      apply Qle_lteq in Hy. destruct Hy as [Hy|Hy]; [exact Hy|].
      exfalso. apply E. now symmetry. }
    rewrite Hlt, IH by eauto. simpl List.length. simpl bind.
    f_equal. lia.
Qed.

Lemma get_weekly_finish_member (league : League) (team : Team) (week : Z) :
  all_scored league week ->
  member league team ->
  get_weekly_finish league team week
  = Ok (1 + Z.of_nat (outscored_by league week (score_at team week))).
Proof.
  intros Hall [tm0 [Hin [_ Hsc]]]. unfold get_weekly_finish.
  rewrite (mapM_ok _ (fun tm => score_at tm week)).
  2:{ intros tm Htm. apply getitem_week. now apply Hall. }
  simpl bind.
  rewrite (getitem_week _ _ 0%Q) by (rewrite <- Hsc; now apply Hall).
  simpl bind. fold (score_at team week).
  set (ls := map (fun tm => score_at tm week) (teams league)).
  rewrite list_index_sorted_desc.
  - simpl bind. f_equal.
    rewrite (Permutation_filter_length _ _ _ (sorted_desc_perm _ ls)).
    unfold outscored_by, ls.
    rewrite <- (length_map (fun tm => score_at tm week)
                 (filter (fun tm => Qltb (score_at team week) (score_at tm week))
                         (teams league))).
    rewrite <- filter_map_swap. lia.
  - apply (sorted_desc_sorted (fun x : Q => x)).
  - exists (score_at team week). split; [|reflexivity].
    apply (Permutation_in _ (Permutation_sym (sorted_desc_perm _ ls))).
    unfold ls. apply in_map_iff. exists tm0. split; [|exact Hin].
    unfold score_at. now rewrite Hsc.
Qed.

Lemma In_member (league : League) (team : Team) :
  In team (teams league) -> member league team.
Proof. intros H. exists team. repeat split. exact H. Qed.

Lemma get_weekly_finish_rank (league : League) (team : Team) (week : Z) :
  all_scored league week ->
  In team (teams league) ->
  get_weekly_finish league team week
  = Ok (1 + Z.of_nat (outscored_by league week (score_at team week))).
Proof.
  intros Hall Hin. apply get_weekly_finish_member; [exact Hall|].
  now apply In_member.
Qed.

(** C4: in a week for which every team has a recorded score,
    [get_weekly_finish] gives a team of the league the rank 1 + the
    number of teams whose score that week is strictly greater than its
    own; for the scores 100, 90, 90, 80 the ranks are 1, 2, 2, 4. *)
Theorem get_weekly_finish_spec :
  (forall (league : League) (team : Team) (week : Z),
      all_scored league week ->
      In team (teams league) ->
      get_weekly_finish league team week
      = Ok (1 + Z.of_nat (outscored_by league week (score_at team week)))) /\
  map (fun tm => get_weekly_finish finish_example tm 1) (teams finish_example)
  = [Ok 1; Ok 2; Ok 2; Ok 4].
Proof.
  split; [exact get_weekly_finish_rank | reflexivity].
Qed.

Lemma get_weekly_finish_spec_witness :
  all_scored finish_example 1 /\
  In (mkTeam 3 [90%Q] []) (teams finish_example) /\
  get_weekly_finish finish_example (mkTeam 3 [90%Q] []) 1
  = Ok (1 + Z.of_nat (outscored_by finish_example 1
                        (score_at (mkTeam 3 [90%Q] []) 1))).
Proof.
  assert (Hall : all_scored finish_example 1).
  { intros tm Htm. simpl in Htm.
    destruct Htm as [<-|[<-|[<-|[<-|[]]]]]; simpl; lia. }
  assert (Hin : In (mkTeam 3 [90%Q] []) (teams finish_example))
    by (simpl; auto).
  split; [exact Hall|]. split; [exact Hin|].
  exact (proj1 get_weekly_finish_spec finish_example _ 1 Hall Hin).
Defined.

(* ================================================================== *)
(** ** get_weekly_luck_index: the schedule luck *)
(* ================================================================== *)

Lemma truediv_ok (a b : Q) : ~ (b == 0)%Q -> truediv a b = Ok (a / b)%Q.
Proof.
  intros H. unfold truediv. apply Qeq_bool_false in H. now rewrite H.
Qed.

Lemma inject_Z_pred_nonzero (n : Z) : n <> 1 -> ~ (inject_Z (n - 1) == 0)%Q.
Proof.
  intros Hn H. change 0%Q with (inject_Z 0) in H.
  rewrite inject_Z_injective in H. lia.
Qed.

Lemma below_half (rank n : Z) :
  Qltb (inject_Z rank) (inject_Z n / 2) = (2 * rank <? n).
Proof.
  destruct (2 * rank <? n) eqn:E.
  - apply Z.ltb_lt in E. apply Qltb_lt.
    unfold Qlt, Qdiv, Qmult, Qinv, inject_Z. simpl. lia.
  - apply Z.ltb_ge in E. apply Qltb_ge.
    unfold Qle, Qdiv, Qmult, Qinv, inject_Z. simpl. lia.
Qed.

(** C5, as stated, fails: the team ranked 1 that ties the other team
    ranked 1 in a league of four gets -7/3, not half the loss term
    (-7/2). *)
Lemma schedule_luck_tie_counterexample :
  get_weekly_finish tie_example (mkTeam 1 [100%Q] [mkTeam 2 [100%Q] []]) 1
  = Ok 1 /\
  get_weekly_finish tie_example (mkTeam 2 [100%Q] []) 1 = Ok 1 /\
  exists v, schedule_luck 7 4 1 1 = Ok v /\
            (v == - (7 # 3))%Q /\
            (claimed_tie_luck 7 4 1 == - (7 # 2))%Q /\
            ~ (v == claimed_tie_luck 7 4 1)%Q.
Proof.
  split; [reflexivity|]. split; [reflexivity|].
  eexists. split; [reflexivity|].
  split; [reflexivity|]. split; [reflexivity|].
  intros H. vm_compute in H. discriminate.
Qed.

(** C5, amended: when the team's rank equals its opponent's, the
    schedule luck is [-w_sched/2 * (leagueSize - rank - 1) /
    (leagueSize - 1)] if [rank < leagueSize/2], and otherwise
    [+w_sched/2 * (rank - 1) / (leagueSize - 1)], half of what the same
    rank earns for a win. *)
Theorem schedule_luck_tie (n rank : Z) :
  n <> 1 ->
  exists v,
    schedule_luck 7 n rank rank = Ok v /\
    (2 * rank < n ->
     (v == - (7 # 2) * inject_Z (n - rank - 1) / inject_Z (n - 1))%Q) /\
    (n <= 2 * rank ->
     (v == (7 # 2) * inject_Z (rank - 1) / inject_Z (n - 1))%Q /\
     forall opp_rank, rank < opp_rank ->
       schedule_luck 7 n rank opp_rank = Ok (win_term 7 n rank) /\
       (v == win_term 7 n rank / 2)%Q).
Proof.
  intros Hn. pose proof (inject_Z_pred_nonzero n Hn) as Hd.
  unfold schedule_luck. rewrite Z.ltb_irrefl.
  simpl bind at 1. change (truediv (inject_Z n) 2) with (Ok (inject_Z n / 2)%Q).
  cbn [bind]. rewrite below_half.
  destruct (2 * rank <? n) eqn:E.
  - apply Z.ltb_lt in E.
    change (truediv (inject_Z (- (7))) 2) with (Ok (inject_Z (-7) / 2)%Q).
    cbn [bind]. rewrite truediv_ok by exact Hd.
    eexists. split; [reflexivity|]. split; [|lia].
    intros _. change (inject_Z (-7)) with (-7 # 1)%Q. field. exact Hd.
  - apply Z.ltb_ge in E.
    change (truediv (inject_Z 7) 2) with (Ok (inject_Z 7 / 2)%Q).
    cbn [bind]. rewrite truediv_ok by exact Hd.
    eexists. split; [reflexivity|]. split; [lia|].
    intros _. split.
    + change (inject_Z 7) with (7 # 1)%Q. field. exact Hd.
    + intros opp_rank Hlt.
      assert (E' : (rank <? opp_rank) = true) by now apply Z.ltb_lt.
      rewrite E'. rewrite truediv_ok by exact Hd.
      split; [reflexivity|].
      unfold win_term. rewrite inject_Z_mult.
      change (inject_Z 7) with (7 # 1)%Q. field. exact Hd.
Qed.

Lemma schedule_luck_tie_witness :
  4 <> 1 /\
  exists v,
    schedule_luck 7 4 1 1 = Ok v /\
    (2 * 1 < 4 ->
     (v == - (7 # 2) * inject_Z (4 - 1 - 1) / inject_Z (4 - 1))%Q) /\
    (4 <= 2 * 1 ->
     (v == (7 # 2) * inject_Z (1 - 1) / inject_Z (4 - 1))%Q /\
     forall opp_rank, 1 < opp_rank ->
       schedule_luck 7 4 1 opp_rank = Ok (win_term 7 4 1) /\
       (v == win_term 7 4 1 / 2)%Q).
Proof.
  split; [lia|]. apply (schedule_luck_tie 4 1). lia.
Defined.

(* ================================================================== *)
(** ** get_weekly_luck_index: the performance adjustments *)
(* ================================================================== *)

Lemma approx_sqrt_zero (x : Q) :
  (0 <= x)%Q -> ((approx_sqrt x == 0)%Q <-> (x == 0)%Q).
Proof.
  destruct x as [n d]. unfold approx_sqrt, Qle, Qeq. simpl.
  rewrite !Z.mul_1_r. intros Hn. split; intros H.
  - destruct (Z.eq_dec n 0) as [E|E]; [exact E|].
    assert (Hpos : 0 < n * Z.pos d) by nia.
    apply Z.sqrt_up_pos in Hpos. lia.
  - subst n. reflexivity.
Qed.

Lemma schedule_luck_ok (w n rank opp_rank : Z) :
  n <> 1 -> exists v, schedule_luck w n rank opp_rank = Ok v.
Proof.
  intros Hn. pose proof (inject_Z_pred_nonzero n Hn) as Hd.
  unfold schedule_luck.
  destruct (rank <? opp_rank); [rewrite truediv_ok by exact Hd; eauto|].
  destruct (opp_rank <? rank); [rewrite truediv_ok by exact Hd; eauto|].
  rewrite (truediv_ok _ 2) by discriminate. cbn [bind].
  destruct (Qltb (inject_Z rank) (inject_Z n / 2));
    rewrite (truediv_ok _ 2) by discriminate; cbn [bind];
    rewrite truediv_ok by exact Hd; eauto.
Qed.

Lemma member_scored (league : League) (t : Team) (week : Z) :
  all_scored league week -> member league t ->
  1 <= week <= Z.of_nat (List.length (scores t)).
Proof.
  intros Hall [tm [Hin [_ Hsc]]]. rewrite <- Hsc. now apply Hall.
Qed.

Lemma slice_to_week {A : Type} (l : list A) (week : Z) (d : A) :
  1 <= week <= Z.of_nat (List.length l) ->
  slice_to l week <> [] /\ In (nth (Z.to_nat (week - 1)) l d) (slice_to l week).
Proof.
  intros H. rewrite slice_to_nonneg by lia.
  assert (Hlen : (Z.to_nat (week - 1) < List.length (firstn (Z.to_nat week) l))%nat)
    by (rewrite length_firstn; lia).
  split.
  - intros E. rewrite E in Hlen. simpl in Hlen. lia.
  - replace (nth (Z.to_nat (week - 1)) l d)
      with (nth (Z.to_nat (week - 1)) (firstn (Z.to_nat week) l) d).
    + now apply nth_In.
    + rewrite nth_firstn.
      destruct (Z.to_nat (week - 1) <? Z.to_nat week)%nat eqn:E;
        [reflexivity | apply Nat.ltb_ge in E; lia].
Qed.

(** The score of the week is among the scores the statistics are taken
    of, for negative weeks as well. *)
Lemma getitem_slice {A : Type} (l : list A) (week : Z) (x : A) :
  getitem l (week - 1) = Ok x -> slice_to l week <> [] ->
  In x (slice_to l week).
Proof.
  unfold getitem, slice_to. intros Hx Hne.
  set (n := Z.of_nat (List.length l)) in *.
  set (j := if week - 1 <? 0 then week - 1 + n else week - 1) in *.
  destruct ((j <? 0) || (n <=? j)) eqn:Eb; [discriminate|].
  apply orb_false_iff in Eb. destruct Eb as [Ej1 Ej2].
  apply Z.ltb_ge in Ej1. apply Z.leb_gt in Ej2.
  destruct (nth_error l (Z.to_nat j)) as [y|] eqn:En; [|discriminate].
  inversion Hx; subst y.
  assert (Hfirst : forall k, (Z.to_nat j < k)%nat -> In x (firstn k l)).
  { intros k Hk. apply nth_error_In with (Z.to_nat j).
    rewrite nth_error_firstn.
    destruct (Z.to_nat j <? k)%nat eqn:E; [exact En|].
    apply Nat.ltb_ge in E. lia. }
  unfold j in *. clear j.
  destruct (week <? 0) eqn:Ew.
  - apply Z.ltb_lt in Ew. fold n.
    destruct (week - 1 <? 0) eqn:Ew1; [|apply Z.ltb_ge in Ew1; lia].
    apply Hfirst. lia.
  - apply Z.ltb_ge in Ew.
    destruct (week - 1 <? 0) eqn:Ew1.
    + apply Z.ltb_lt in Ew1. assert (week = 0) by lia. subst week.
      simpl in Hne. contradiction.
    + apply Z.ltb_ge in Ew1. apply Hfirst. lia.
Qed.

Lemma fsub_nan (x : npfloat) : fsub x NaN = NaN.
Proof. destruct x; reflexivity. Qed.

Lemma fdiv_nan (y : npfloat) : fdiv NaN y = NaN.
Proof. reflexivity. Qed.

Section LuckFacts.
Variable np_sqrt : Q -> Q.

(** The three blocks of [get_weekly_luck_index] on ready inputs. *)
Lemma luck_index_blocks (league : League) (team : Team) (week : Z) :
  luck_ready league team week ->
  let opp := opponent team week in
  let hist := slice_to (scores team) week in
  let opp_hist := slice_to (scores opp) week in
  exists rank opp_rank sched,
    get_weekly_finish league team week = Ok rank /\
    get_weekly_finish league opp week = Ok opp_rank /\
    schedule_luck 7 (Z.of_nat (List.length (teams league))) rank opp_rank
    = Ok sched /\
    get_weekly_luck_index np_sqrt league team week
    = Ok (fdiv
            (let luck_index := Fin sched in
             let luck_index :=
               if fne0 (np_std np_sqrt hist)
               then fadd luck_index
                      (z_norm (score_at team week) (np_mean hist)
                              (np_std np_sqrt hist) 2)
               else luck_index in
             if fne0 (np_std np_sqrt hist)
             then fsub luck_index
                    (z_norm (score_at opp week) (np_mean opp_hist)
                            (np_std np_sqrt opp_hist) 1)
             else luck_index)
            (Fin 10)).
Proof.
  intros (Hweek & Hall & Hteam & Hopp & Hn). cbv zeta.
  pose proof (get_weekly_finish_member league team week Hall Hteam) as Hr.
  pose proof (get_weekly_finish_member league _ week Hall Hopp) as Ho.
  destruct (schedule_luck_ok 7 _
              (1 + Z.of_nat (outscored_by league week (score_at team week)))
              (1 + Z.of_nat (outscored_by league week
                               (score_at (opponent team week) week)))
              Hn) as [sched Hs].
  do 3 eexists. split; [exact Hr|]. split; [exact Ho|]. split; [exact Hs|].
  unfold get_weekly_luck_index.
  rewrite (getitem_week _ _ team) by exact Hweek.
  fold (opponent team week). cbn [bind].
  rewrite Hr. cbn [bind]. rewrite Ho. cbn [bind]. rewrite Hs. cbn [bind].
  rewrite (getitem_week _ _ 0%Q) by (eapply member_scored; eassumption).
  cbn [bind].
  rewrite (getitem_week (scores (opponent team week)) _ 0%Q)
    by (eapply member_scored; eassumption).
  cbn [bind]. reflexivity.
Qed.

(** C6, amended: on ready inputs, when the standard deviation numpy
    computes of the team's scores of weeks 1..week is zero, neither
    z-score term is applied and the index is the schedule luck over
    10; when it is not zero, the team term is added and the opponent
    term is subtracted, whatever the opponent's standard deviation.
    A flat history of the team has standard deviation zero when its
    mean comes out as the score itself, as it does in the first week. *)
Theorem luck_index_gating (league : League) (team : Team) (week : Z) :
  luck_ready league team week ->
  let opp := opponent team week in
  let hist := slice_to (scores team) week in
  let opp_hist := slice_to (scores opp) week in
  exists rank opp_rank sched,
    get_weekly_finish league team week = Ok rank /\
    get_weekly_finish league opp week = Ok opp_rank /\
    schedule_luck 7 (Z.of_nat (List.length (teams league))) rank opp_rank
    = Ok sched /\
    (fne0 (np_std np_sqrt hist) = false ->
     get_weekly_luck_index np_sqrt league team week
     = Ok (fdiv (Fin sched) (Fin 10))) /\
    (fne0 (np_std np_sqrt hist) = true ->
     get_weekly_luck_index np_sqrt league team week
     = Ok (fdiv
             (fsub
                (fadd (Fin sched)
                      (z_norm (score_at team week) (np_mean hist)
                              (np_std np_sqrt hist) 2))
                (z_norm (score_at opp week) (np_mean opp_hist)
                        (np_std np_sqrt opp_hist) 1))
             (Fin 10))) /\
    ((forall x, (x == 0)%Q -> (np_sqrt x == 0)%Q) ->
     (forall x, In x hist -> (x == score_at team week)%Q) ->
     (exists m, np_mean hist = Fin m /\ (m == score_at team week)%Q) ->
     fne0 (np_std np_sqrt hist) = false) /\
    ((forall x, (x == 0)%Q -> (np_sqrt x == 0)%Q) ->
     week = 1 -> is_float (score_at team week) ->
     fne0 (np_std np_sqrt hist) = false).
Proof.
  intros Hready. cbv zeta.
  destruct (luck_index_blocks league team week Hready)
    as (rank & opp_rank & sched & Hr & Ho & Hs & Hluck).
  exists rank, opp_rank, sched.
  repeat (split; [assumption|]).
  assert (Hflat : (forall x, (x == 0)%Q -> (np_sqrt x == 0)%Q) ->
            (forall x, In x (slice_to (scores team) week) ->
                       (x == score_at team week)%Q) ->
            (exists m, np_mean (slice_to (scores team) week) = Fin m /\
                       (m == score_at team week)%Q) ->
            fne0 (np_std np_sqrt (slice_to (scores team) week)) = false).
  { intros Hsqrt Hflat [m [Hm Hmc]].
    unfold np_std, np_mean in *.
    destruct (slice_to (scores team) week) as [|x l] eqn:E;
      [discriminate|].
    injection Hm as <-.
    cbn [fne0]. apply negb_false_iff, Qeq_bool_iff, Hsqrt.
    now rewrite (np_var_const (score_at team week) (x :: l) Hflat Hmc). }
  split; [|split; [|split]].
  - intros E. rewrite Hluck. cbv zeta. now rewrite E.
  - intros E. rewrite Hluck. cbv zeta. now rewrite E.
  - exact Hflat.
  - intros Hsqrt -> Hfloat.
    destruct Hready as (_ & Hall & Hteam & _).
    pose proof (member_scored _ _ _ Hall Hteam) as Hlen.
    assert (E : slice_to (scores team) 1 = [score_at team 1]).
    { unfold slice_to, score_at. simpl.
      destruct (scores team); [simpl in Hlen; lia | reflexivity]. }
    apply (Hflat Hsqrt); rewrite E.
    + intros x [<-|[]]. reflexivity.
    + now apply np_mean_single.
Qed.

(** The opponent term of a flat history: its standard deviation is
    zero and the score of the week is the mean, so the z-score is 0/0. *)
Lemma z_norm_flat (l : list Q) (week : Z) (score : Q) (w : Z) :
  (forall x, (0 <= x)%Q -> (np_sqrt x == 0)%Q -> (x == 0)%Q) ->
  getitem l (week - 1) = Ok score ->
  fne0 (np_std np_sqrt (slice_to l week)) = false ->
  z_norm score (np_mean (slice_to l week)) (np_std np_sqrt (slice_to l week)) w
  = NaN.
Proof.
  intros Hsqrt Hscore Hstd.
  set (hist := slice_to l week) in *.
  assert (Hne : hist <> []) by (intros E; rewrite E in Hstd; discriminate).
  pose proof (getitem_slice l week score Hscore Hne) as Hin. fold hist in Hin.
  unfold np_std in Hstd. unfold np_std, np_mean, z_norm.
  destruct hist as [|x h] eqn:E; [contradiction|]. rewrite <- E in *.
  simpl in Hstd. apply negb_false_iff in Hstd.
  unfold fsub, fneg, fadd, fdiv at 2. rewrite Hstd.
  assert (Hvar : (np_var hist == 0)%Q).
  { apply Hsqrt; [now apply np_var_nonneg | now apply Qeq_bool_iff]. }
  pose proof (np_var_zero hist Hne Hvar _ Hin) as Hdev.
  apply Qeq_bool_iff in Hdev. unfold Qminus in Hdev. rewrite Hdev.
  reflexivity.
Qed.

(** C10: the opponent z-score is guarded by the team's standard
    deviation only.  On every input on which the standard deviation of
    the team's scores of weeks 1..week is not zero and that of the
    opponent's scores is zero, the opponent term is 0/0: whatever
    [get_weekly_luck_index] returns is not-a-number, and on ready
    inputs it does return. *)
Theorem luck_index_opponent_nan (league : League) (team opp : Team)
    (week : Z) :
  (forall x, (0 <= x)%Q -> (np_sqrt x == 0)%Q -> (x == 0)%Q) ->
  getitem (schedule team) (week - 1) = Ok opp ->
  fne0 (np_std np_sqrt (slice_to (scores team) week)) = true ->
  fne0 (np_std np_sqrt (slice_to (scores opp) week)) = false ->
  (forall v, get_weekly_luck_index np_sqrt league team week = Ok v ->
             v = NaN) /\
  (luck_ready league team week ->
   get_weekly_luck_index np_sqrt league team week = Ok NaN).
Proof.
  intros Hsqrt Hopp Hteam Hstd.
  assert (Hany : forall v,
             get_weekly_luck_index np_sqrt league team week = Ok v -> v = NaN).
  { intros v H. unfold get_weekly_luck_index in H.
    rewrite Hopp in H. cbn [bind] in H.
    destruct (get_weekly_finish league team week) as [rank|];
      cbn [bind] in H; [|discriminate].
    destruct (get_weekly_finish league opp week) as [opp_rank|];
      cbn [bind] in H; [|discriminate].
    destruct (schedule_luck 7 _ rank opp_rank) as [sched|];
      cbn [bind] in H; [|discriminate].
    destruct (getitem (scores team) (week - 1)) as [team_score|];
      cbn [bind] in H; [|discriminate].
    destruct (getitem (scores opp) (week - 1)) as [opp_score|] eqn:Hos;
      cbn [bind] in H; [|discriminate].
    rewrite Hteam in H.
    rewrite (z_norm_flat _ _ _ 1 Hsqrt Hos Hstd) in H.
    rewrite fsub_nan, fdiv_nan in H. congruence. }
  split; [exact Hany|].
  intros Hready.
  destruct (luck_index_blocks league team week Hready)
    as (rank & opp_rank & sched & _ & _ & _ & Hluck).
  rewrite Hluck. f_equal. now apply Hany.
Qed.

End LuckFacts.

Lemma luck_example_scored : all_scored luck_example 2.
Proof.
  intros tm Htm. simpl in Htm.
  destruct Htm as [<-|[<-|[<-|[<-|[]]]]]; simpl; lia.
Defined.

Lemma luck_example_ready1 : luck_ready luck_example luck_team1 2.
Proof.
  split; [simpl; lia|]. split; [exact luck_example_scored|].
  split; [exists luck_team1; repeat split; simpl; auto|].
  split; [exists luck_team2; repeat split; simpl; auto|].
  simpl. lia.
Defined.

Lemma luck_example_ready2 : luck_ready luck_example luck_team2 2.
Proof.
  split; [simpl; lia|]. split; [exact luck_example_scored|].
  split; [exists luck_team2; repeat split; simpl; auto|].
  split; [exists luck_team1; repeat split; simpl; auto|].
  simpl. lia.
Defined.

Lemma flat_example_ready : luck_ready flat_example flat_team1 3.
Proof.
  split; [simpl; lia|]. split.
  - intros tm Htm. simpl in Htm.
    destruct Htm as [<-|[<-|[]]]; simpl; lia.
  - split; [exists flat_team1; repeat split; simpl; auto|].
    split; [exists flat_team2; repeat split; simpl; auto|].
    simpl. lia.
Qed.

(** C6, as stated, fails on its example, the flat history.  Three
    weeks at 99.9 have the mean 99.90000000000002 in binary64, so the
    standard deviation numpy computes is 2^-46, the exact root of the
    variance it computes, and not zero; the guard lets both z-score
    terms through, the team term contributes -1 and the index is
    -0.05, where the schedule luck alone gives 0. *)
Lemma luck_index_flat_history :
  let hist := slice_to (scores flat_team1) 3 in
  luck_ready flat_example flat_team1 3 /\
  (forall x, In x hist -> (x == score_at flat_team1 3)%Q) /\
  (exists mean std z : Q,
     np_mean hist = Fin mean /\ (score_at flat_team1 3 < mean)%Q /\
     np_std sqrt64 hist = Fin std /\ (std == 1 / 2 ^ 46)%Q /\
     (std * std == np_var hist)%Q /\
     fne0 (np_std sqrt64 hist) = true /\
     z_norm (score_at flat_team1 3) (np_mean hist) (np_std sqrt64 hist) 2
     = Fin z /\ (z == -1)%Q) /\
  exists sched index : Q,
    schedule_luck 7 2 1 1 = Ok sched /\ (sched == 0)%Q /\
    get_weekly_luck_index sqrt64 flat_example flat_team1 3
    = Ok (Fin index) /\
    (index == - (1 # 20))%Q /\ ~ (index == sched / 10)%Q.
Proof.
  cbv zeta. split; [exact flat_example_ready|]. split.
  - intros x Hx. simpl in Hx. destruct Hx as [<-|[<-|[<-|[]]]]; reflexivity.
  - split.
    + do 3 eexists.
      split; [vm_compute; reflexivity|]. split; [reflexivity|].
      split; [vm_compute; reflexivity|]. split; [reflexivity|].
      split; [vm_compute; reflexivity|].
      split; [vm_compute; reflexivity|].
      split; [vm_compute; reflexivity | reflexivity].
    + do 2 eexists.
      split; [vm_compute; reflexivity|]. split; [reflexivity|].
      split; [vm_compute; reflexivity|]. split; [reflexivity|].
      intros H. vm_compute in H. discriminate.
Qed.

Lemma luck_index_gating_witness :
  luck_ready luck_example luck_team2 2 /\
  (forall x, (x == 0)%Q -> (approx_sqrt x == 0)%Q) /\
  (forall x, In x (slice_to (scores luck_team2) 2) ->
             (x == score_at luck_team2 2)%Q) /\
  (exists m, np_mean (slice_to (scores luck_team2) 2) = Fin m /\
             (m == score_at luck_team2 2)%Q) /\
  fne0 (np_std approx_sqrt (slice_to (scores luck_team2) 2)) = false /\
  exists rank opp_rank sched,
    get_weekly_finish luck_example luck_team2 2 = Ok rank /\
    get_weekly_finish luck_example (opponent luck_team2 2) 2 = Ok opp_rank /\
    schedule_luck 7 4 rank opp_rank = Ok sched /\
    get_weekly_luck_index approx_sqrt luck_example luck_team2 2
    = Ok (fdiv (Fin sched) (Fin 10)).
Proof.
  assert (Hsqrt : forall x, (x == 0)%Q -> (approx_sqrt x == 0)%Q).
  { intros x Hx. apply approx_sqrt_zero; [|exact Hx].
    rewrite Hx. apply Qle_refl. }
  assert (Hflat : forall x, In x (slice_to (scores luck_team2) 2) ->
                            (x == score_at luck_team2 2)%Q).
  { intros x Hx. simpl in Hx. destruct Hx as [<-|[<-|[]]]; reflexivity. }
  assert (Hmean : exists m, np_mean (slice_to (scores luck_team2) 2) = Fin m /\
                            (m == score_at luck_team2 2)%Q).
  { exists 70%Q. split; [vm_compute|]; reflexivity. }
  destruct (luck_index_gating approx_sqrt luck_example luck_team2 2
              luck_example_ready2)
    as (rank & opp_rank & sched & Hr & Ho & Hs & Hzero & _ & Hstd & _).
  split; [exact luck_example_ready2|]. split; [exact Hsqrt|].
  split; [exact Hflat|]. split; [exact Hmean|].
  split; [exact (Hstd Hsqrt Hflat Hmean)|].
  exists rank, opp_rank, sched.
  repeat (split; [assumption|]).
  exact (Hzero (Hstd Hsqrt Hflat Hmean)).
Defined.

Lemma luck_index_opponent_nan_witness :
  (forall x, (0 <= x)%Q -> (approx_sqrt x == 0)%Q -> (x == 0)%Q) /\
  getitem (schedule luck_team1) (2 - 1) = Ok (mkTeam 2 [70; 70]%Q []) /\
  fne0 (np_std approx_sqrt (slice_to (scores luck_team1) 2)) = true /\
  fne0 (np_std approx_sqrt (slice_to [70; 70]%Q 2)) = false /\
  luck_ready luck_example luck_team1 2 /\
  get_weekly_luck_index approx_sqrt luck_example luck_team1 2 = Ok NaN.
Proof.
  assert (Hsqrt : forall x, (0 <= x)%Q -> (approx_sqrt x == 0)%Q -> (x == 0)%Q)
    by (intros x Hx; apply approx_sqrt_zero; exact Hx).
  split; [exact Hsqrt|]. split; [reflexivity|].
  split; [reflexivity|]. split; [reflexivity|].
  split; [exact luck_example_ready1|].
  exact (proj2 (luck_index_opponent_nan approx_sqrt luck_example luck_team1
                  (mkTeam 2 [70; 70]%Q []) 2 Hsqrt eq_refl eq_refl eq_refl)
               luck_example_ready1).
Defined.

(* ================================================================== *)
(** ** get_season_luck_indices *)
(* ================================================================== *)

(** C2 against the code: for two weeks the loop adds the index of
    week 2 twice.  Team 1, with weekly indices -14/30 and 7/30, gets
    14/30 where the sum over the weeks is -7/30. *)
Theorem season_luck_repeats_last_week :
  exists week1 week2 code by_week : Q,
    get_weekly_luck_index approx_sqrt season_example season_team1 1
    = Ok (Fin week1) /\
    get_weekly_luck_index approx_sqrt season_example season_team1 2
    = Ok (Fin week2) /\
    (d <- get_season_luck_indices approx_sqrt season_example 2 ;;
     dict_get Z.eqb d 1) = Ok (Fin code) /\
    season_luck_by_week approx_sqrt season_example season_team1 2
    = Ok (Fin by_week) /\
    (week1 == - (14 # 30))%Q /\ (week2 == 7 # 30)%Q /\
    (by_week == week1 + week2)%Q /\
    (code == week2 + week2)%Q /\
    ~ (code == by_week)%Q.
Proof.
  do 4 eexists.
  split; [vm_compute; reflexivity|]. split; [vm_compute; reflexivity|].
  split; [vm_compute; reflexivity|]. split; [vm_compute; reflexivity|].
  split; [reflexivity|]. split; [reflexivity|].
  split; [reflexivity|]. split; [reflexivity|].
  intros H. vm_compute in H. discriminate.
Qed.

(* ================================================================== *)
(** ** Removing selected players from the roster *)
(* ================================================================== *)

Section RemoveFirst.
Context {A : Type} (eq_dec : forall a b : A, {a = b} + {a <> b}).

Lemma remove_In (x : A) (l : list A) :
  In x l -> remove eq_dec x l = Ok (remove_first eq_dec x l).
Proof.
  induction l as [|y l IH]; intros H; [destruct H|]. simpl.
  destruct (eq_dec y x) as [E|E]; [reflexivity|].
  destruct H as [H|H]; [contradiction|].
  now rewrite IH.
Qed.

Lemma remove_first_perm (x : A) (l : list A) :
  In x l -> Permutation l (x :: remove_first eq_dec x l).
Proof.
  induction l as [|y l IH]; intros H; [destruct H|]. simpl.
  destruct (eq_dec y x) as [E|E]; [now subst|].
  destruct H as [H|H]; [contradiction|].
  rewrite perm_swap. constructor. now apply IH.
Qed.

Lemma remove_first_incl (x : A) (l : list A) : incl (remove_first eq_dec x l) l.
Proof.
  induction l as [|y l IH]; simpl; [apply incl_refl|].
  destruct (eq_dec y x).
  - apply incl_tl, incl_refl.
  - apply incl_cons; [simpl; auto|]. now apply incl_tl.
Qed.

Lemma filter_remove_first (P : A -> bool) (x : A) (l : list A) :
  P x = true ->
  filter P (remove_first eq_dec x l) = remove_first eq_dec x (filter P l).
Proof.
  intros Px. induction l as [|y l IH]; simpl; [reflexivity|].
  destruct (eq_dec y x) as [E|E].
  - subst y. rewrite Px. simpl.
    destruct (eq_dec x x); [reflexivity | contradiction].
  - simpl. destruct (P y); simpl; [|exact IH].
    destruct (eq_dec y x); [contradiction|]. now rewrite IH.
Qed.

Context (before : A -> A -> bool).
Hypothesis before_asym :
  forall x y, before x y = true -> before y x = false.
Hypothesis before_negtrans :
  forall x y z, before x y = false -> before y z = false ->
                before x z = false.

Lemma before_irrefl (x : A) : before x x = false.
Proof.
  destruct (before x x) eqn:E; [|reflexivity].
  now rewrite (before_asym _ _ E) in E.
Qed.

Lemma insert_by_remove_same (x : A) (s : list A) :
  remove_first eq_dec x (insert_by before x s) = s.
Proof.
  induction s as [|z s IH]; simpl.
  - destruct (eq_dec x x); [reflexivity | contradiction].
  - destruct (before z x) eqn:E; simpl.
    + destruct (eq_dec z x) as [->|_].
      * now rewrite before_irrefl in E.
      * now rewrite IH.
    + destruct (eq_dec x x); [reflexivity | contradiction].
Qed.

Lemma insert_by_remove_other (x y : A) (s : list A) :
  StronglySorted (in_order before) s -> y <> x ->
  insert_by before y (remove_first eq_dec x s)
  = remove_first eq_dec x (insert_by before y s).
Proof.
  intros Hs Hyx. induction Hs as [|z s Hs IH Hz]; simpl.
  - destruct (eq_dec y x); [contradiction | reflexivity].
  - destruct (eq_dec z x) as [->|Hzx].
    + destruct (before x y) eqn:E; simpl.
      * destruct (eq_dec x x); [reflexivity | contradiction].
      * destruct (eq_dec y x); [contradiction|].
        destruct (eq_dec x x); [|contradiction].
        destruct s as [|w s]; [reflexivity|]. simpl.
        inversion Hz as [|? ? Hw _]; subst. unfold in_order in Hw.
        now rewrite (before_negtrans _ _ _ Hw E).
    + simpl. destruct (before z y) eqn:E; simpl.
      * destruct (eq_dec z x); [contradiction|]. now rewrite IH.
      * destruct (eq_dec y x); [contradiction|].
        destruct (eq_dec z x); [contradiction|]. reflexivity.
Qed.

(** Sorting commutes with dropping an element: the stable sort keeps
    the first occurrence first. *)
Lemma sort_by_remove_first (x : A) (l : list A) :
  sort_by before (remove_first eq_dec x l)
  = remove_first eq_dec x (sort_by before l).
Proof.
  induction l as [|y l IH]; simpl; [reflexivity|].
  destruct (eq_dec y x) as [->|Hyx].
  - now rewrite insert_by_remove_same.
  - simpl. rewrite IH. apply insert_by_remove_other; [|exact Hyx].
    now apply sort_by_sorted.
Qed.
End RemoveFirst.

Lemma remove_players_without (picked roster : list Player) :
  (exists rest, Permutation roster (picked ++ rest)) ->
  remove_players picked roster = Ok (without roster picked) /\
  Permutation roster (picked ++ without roster picked).
Proof.
  revert roster. induction picked as [|p picked IH]; intros roster [rest H].
  - split; [reflexivity | apply Permutation_refl].
  - assert (Hin : In p roster).
    { apply (Permutation_in _ (Permutation_sym H)). simpl; auto. }
    simpl. rewrite (remove_In _ _ _ Hin). cbn [bind].
    pose proof (remove_first_perm Player_eq_dec p roster Hin) as Hp.
    destruct (IH (remove_first Player_eq_dec p roster)) as [E Hperm].
    + exists rest. apply Permutation_cons_inv with p.
      now rewrite <- Hp.
    + split; [exact E|].
      unfold without in *. simpl. rewrite Hp at 1. now constructor.
Qed.

Lemma without_incl (roster picked : list Player) :
  incl (without roster picked) roster.
Proof.
  revert roster. induction picked as [|p picked IH]; intros roster.
  - apply incl_refl.
  - unfold without. simpl.
    fold (without (remove_first Player_eq_dec p roster) picked).
    eapply incl_tran; [apply IH | apply remove_first_incl].
Qed.

Lemma filter_split_perm {A : Type} (f : A -> bool) (l : list A) :
  Permutation l (filter f l ++ filter (fun x => negb (f x)) l).
Proof.
  induction l as [|x l IH]; simpl; [constructor|].
  destruct (f x); simpl.
  - now constructor.
  - rewrite IH at 1. apply Permutation_middle.
Qed.

Lemma slice_to_firstn {A : Type} (l : list A) (n : Z) :
  exists k, slice_to l n = firstn k l.
Proof. unfold slice_to. destruct (n <? 0); eauto. Qed.

Lemma firstn_In {A : Type} (k : nat) (l : list A) (x : A) :
  In x (firstn k l) -> In x l.
Proof.
  intros H. rewrite <- (firstn_skipn k l). apply in_or_app. now left.
Qed.

(** The top players are drawn from the roster, each at most once. *)
Lemma top_players_sub (roster : list Player) (slot : string) (n : Z) :
  exists rest, Permutation roster (get_top_players roster slot n ++ rest).
Proof.
  unfold get_top_players.
  destruct (slice_to_firstn
              (sorted Qltb points true (filter (eligible slot) roster)) n)
    as [k ->].
  set (ranked := sorted Qltb points true (filter (eligible slot) roster)).
  exists (skipn k ranked ++ filter (fun p => negb (eligible slot p)) roster).
  rewrite app_assoc, firstn_skipn. unfold ranked.
  rewrite (sorted_desc_perm points). apply filter_split_perm.
Qed.

Lemma top_players_eligible (roster : list Player) (slot : string) (n : Z) :
  forall p, In p (get_top_players roster slot n) ->
            In p roster /\ eligible slot p = true.
Proof.
  intros p Hp. unfold get_top_players in Hp.
  destruct (slice_to_firstn
              (sorted Qltb points true (filter (eligible slot) roster)) n)
    as [k E].
  rewrite E in Hp. apply firstn_In in Hp.
  apply (Permutation_in _ (sorted_desc_perm points _)) in Hp.
  now apply filter_In in Hp.
Qed.

(* ================================================================== *)
(** ** get_best_lineup: the greedy selection *)
(* ================================================================== *)

Lemma dict_get_key (d : list (string * Z)) (slot : string) :
  In slot (dict_keys d) -> exists n, dict_get String.eqb d slot = Ok n.
Proof.
  induction d as [|[k v] d IH]; intros H; [destruct H|]. simpl.
  destruct (String.eqb k slot) eqn:E; [eauto|].
  destruct H as [H|H]; [|now apply IH].
  simpl in H. subst k. now rewrite String.eqb_refl in E.
Qed.

Lemma sorted_slots_perm (league : League) :
  Permutation (sorted_slots league) (dict_keys (starting_roster_slots league)).
Proof. apply sort_by_perm. Qed.


(** [l[:n]] takes as many elements as the count [n] takes. *)
Lemma slice_to_take {A : Type} (l : list A) (n : Z) :
  slice_to l n = firstn (take_count n (List.length l)) l.
Proof.
  unfold slice_to, take_count. destruct (n <? 0) eqn:E.
  - apply Z.ltb_lt in E. f_equal. lia.
  - rewrite <- (firstn_all l) at 1. now rewrite firstn_firstn.
Qed.

(** What [get_top_players] returns are the top players of the roster. *)
Lemma get_top_players_ranked (roster : list Player) (slot : string) (n : Z) :
  top_ranked slot n roster (get_top_players roster slot n).
Proof.
  exists (sorted Qltb points true (filter (eligible slot) roster)).
  split; [apply (sorted_desc_perm points)|].
  split; [apply (sorted_desc_sorted points)|].
  split; [intros v; apply (sorted_desc_stable points)|].
  unfold get_top_players. apply slice_to_take.
Qed.

Lemma best_lineup_loop_greedy (d : list (string * Z)) (slots : list string) :
  (forall s, In s slots -> In s (dict_keys d)) ->
  forall roster acc,
  exists picks,
    map fst picks = slots /\
    greedy_steps d roster picks /\
    (forall slot picked p, In (slot, picked) picks -> In p picked ->
                           eligible slot p = true) /\
    (exists rest, Permutation roster (selected picks ++ rest)) /\
    best_lineup_loop d slots roster acc = Ok (acc ++ selected picks).
Proof.
  induction slots as [|slot slots IH]; intros Hkeys roster acc.
  - exists []. split; [reflexivity|]. split; [constructor|].
    split; [intros ? ? ? []|]. split.
    + exists roster. apply Permutation_refl.
    + simpl. now rewrite app_nil_r.
  - destruct (dict_get_key d slot) as [n Hn]; [apply Hkeys; simpl; auto|].
    set (top := get_top_players roster slot n).
    destruct (remove_players_without top roster (top_players_sub roster slot n))
      as [Hrm Hperm].
    destruct (IH (fun s Hs => Hkeys s (or_intror Hs))
                 (without roster top) (acc ++ top))
      as (picks & Hfst & Hsteps & Helig & [rest Hsub] & Hloop).
    exists ((slot, top) :: picks).
    split; [simpl; now rewrite Hfst|].
    split.
    { apply greedy_pick with n;
        [exact Hn | apply get_top_players_ranked | exact Hsteps]. }
    split; [|split].
    + intros s picked p [E|Hin] Hp.
      * inversion E; subst. now apply (top_players_eligible roster s n).
      * now apply (Helig s picked p).
    + exists rest. unfold selected in *. simpl.
      rewrite <- app_assoc, <- Hsub. exact Hperm.
    + simpl. rewrite Hn. cbn [bind]. fold top. rewrite Hrm. cbn [bind].
      rewrite Hloop. unfold selected. simpl. now rewrite app_assoc.
Qed.


(* ================================================================== *)
(** ** get_best_lineup against the legal assignments *)
(* ================================================================== *)

Lemma total_points_cons (p : Player) (l : list Player) :
  (total_points (p :: l) == points p + total_points l)%Q.
Proof. reflexivity. Qed.

Lemma total_points_app (l l' : list Player) :
  (total_points (l ++ l') == total_points l + total_points l')%Q.
Proof.
  induction l as [|p l IH]; simpl.
  - unfold total_points at 2. simpl. ring.
  - rewrite !total_points_cons, IH. ring.
Qed.

Lemma total_points_perm (l l' : list Player) :
  Permutation l l' -> (total_points l == total_points l')%Q.
Proof.
  induction 1 as [|x l l' _ IH|x y l|l l' l'' _ IH1 _ IH2].
  - reflexivity.
  - rewrite !total_points_cons, IH. reflexivity.
  - rewrite !total_points_cons. ring.
  - now rewrite IH1.
Qed.

Lemma in_perm_cons {A : Type} (x : A) (l : list A) :
  In x l -> exists l', Permutation l (x :: l').
Proof.
  intros H. apply in_split in H. destruct H as (l1 & l2 & ->).
  exists (l1 ++ l2). symmetry. apply Permutation_middle.
Qed.

Lemma uses_cons (j s : string) (p : Player) (asg : assignment) :
  uses j ((p, s) :: asg) = if string_dec s j then S (uses j asg) else uses j asg.
Proof. reflexivity. Qed.

Lemma uses_perm (j : string) (a b : assignment) :
  Permutation a b -> uses j a = uses j b.
Proof.
  intros H. unfold uses.
  apply (Permutation_count_occ string_dec). now apply Permutation_map.
Qed.

Lemma uses_In (j : string) (asg : assignment) :
  In j (map snd asg) <-> (0 < uses j asg)%nat.
Proof. unfold uses. apply count_occ_In. Qed.

Lemma uses_slot (s : string) (asg : assignment) :
  (0 < uses s asg)%nat -> exists x b, Permutation asg ((x, s) :: b).
Proof.
  intros H. apply uses_In, in_map_iff in H.
  destruct H as [[x s'] [E Hin]]. simpl in E. subst s'.
  destruct (in_perm_cons _ _ Hin) as [b Hb]. eauto.
Qed.

Lemma all_eligible_perm (a b : assignment) :
  Permutation a b -> all_eligible a -> all_eligible b.
Proof.
  intros H Ha p s Hin. apply Ha.
  now apply (Permutation_in _ (Permutation_sym H)).
Qed.

Lemma all_eligible_tail (x : Player * string) (a : assignment) :
  all_eligible (x :: a) -> all_eligible a.
Proof. intros H p s Hin. apply H. simpl; auto. Qed.

Lemma drawn_from_In (roster : list Player) (asg : assignment) (p : Player) :
  drawn_from roster asg -> In p (assigned asg) -> In p roster.
Proof.
  intros [rest H] Hin. apply (Permutation_in _ (Permutation_sym H)).
  apply in_or_app. now left.
Qed.

(** One step of the exchange argument.  The roster loses [m], a best
    player for slot [s]; an assignment on the roster is turned into one
    on the rest that uses [s] once less and is worth at most [points m]
    less. *)
Lemma exchange_top (s : string) (m : Player) (roster roster' : list Player)
    (asg : assignment) (later : list string) :
  Permutation roster (m :: roster') ->
  eligible s m = true ->
  (forall p, In p roster -> eligible s p = true -> (points p <= points m)%Q) ->
  (0 <= points m)%Q ->
  all_eligible asg ->
  drawn_from roster asg ->
  (forall j, In j (map snd asg) -> j = s \/ In j later) ->
  (forall j, In j later -> subsumed_or_disjoint roster s j) ->
  exists asg',
    all_eligible asg' /\
    drawn_from roster' asg' /\
    (forall j, (uses j asg' <= uses j asg)%nat) /\
    (uses s asg' <= Nat.pred (uses s asg))%nat /\
    (total_points (assigned asg)
     <= points m + total_points (assigned asg'))%Q.
Proof.
  intros Hm Hms Hmax Hpos Hel Hsub Hslots Hlam.
  assert (Hmin : In m roster)
    by (apply (Permutation_in _ (Permutation_sym Hm)); simpl; auto).
  destruct (in_dec Player_eq_dec m (assigned asg)) as [Hused|Hfree].
  - (* [m] is assigned, to some slot [j] *)
    apply in_map_iff in Hused. destruct Hused as [[m' j] [E Hin]].
    simpl in E. subst m'.
    destruct (in_perm_cons _ _ Hin) as [a0 Ha0].
    pose proof (all_eligible_perm _ _ Ha0 Hel) as Hel0.
    assert (Hsub0 : drawn_from roster' a0).
    { destruct Hsub as [rest Hrest]. exists rest.
      apply Permutation_cons_inv with m. rewrite <- Hm, Hrest.
      unfold assigned. now rewrite (Permutation_map fst Ha0). }
    assert (Htot : (total_points (assigned asg)
                    == points m + total_points (assigned a0))%Q).
    { unfold assigned.
      now rewrite (total_points_perm _ _ (Permutation_map fst Ha0)). }
    assert (Huse : forall j', uses j' asg
                   = if string_dec j j' then S (uses j' a0) else uses j' a0).
    { intros j'. now rewrite (uses_perm j' _ _ Ha0), uses_cons. }
    destruct (string_dec j s) as [->|Hjs].
    + (* assigned to [s] itself: drop the pair *)
      exists a0. split; [now apply all_eligible_tail with (m, s)|].
      split; [exact Hsub0|]. split; [|split].
      * intros j'. rewrite Huse. destruct (string_dec s j'); lia.
      * rewrite Huse. destruct (string_dec s s); [simpl; lia|contradiction].
      * rewrite Htot. apply Qle_refl.
    + destruct (Nat.eq_dec (uses s a0) 0) as [Hz|Hnz].
      * (* [s] is unused: drop the pair *)
        exists a0. split; [now apply all_eligible_tail with (m, j)|].
        split; [exact Hsub0|]. split; [|split].
        -- intros j'. rewrite Huse. destruct (string_dec j j'); lia.
        -- lia.
        -- rewrite Htot. apply Qle_refl.
      * (* some [x] sits in [s]: it takes the place of [m] in [j] *)
        destruct (uses_slot s a0) as (x & b & Hb); [lia|].
        assert (Hab : Permutation asg ((m, j) :: (x, s) :: b))
          by (rewrite Ha0; now constructor).
        pose proof (all_eligible_perm _ _ Hab Hel) as Helb.
        exists ((x, j) :: b). split; [|split; [|split; [|split]]].
        -- intros p slot [E|Hp].
           ++ inversion E; subst p slot.
              assert (Hj : In j later).
              { destruct (Hslots j) as [?|?]; [|contradiction|assumption].
                apply in_map_iff. exists (m, j). auto. }
              apply (Hlam j Hj).
              ** exists m. split; [exact Hmin|]. split; [exact Hms|].
                 apply Helb. simpl; auto.
              ** apply (drawn_from_In _ asg); [exact Hsub|].
                 apply in_map_iff. exists (x, s). split; [reflexivity|].
                 apply (Permutation_in _ (Permutation_sym Hab)). simpl; auto.
              ** apply Helb. simpl; auto.
           ++ apply Helb. simpl; auto.
        -- destruct Hsub0 as [rest Hrest]. exists rest.
           rewrite Hrest. unfold assigned.
           now rewrite (Permutation_map fst Hb).
        -- intros j'. rewrite (uses_perm j' _ _ Hab), !uses_cons.
           destruct (string_dec j j'), (string_dec s j'); lia.
        -- rewrite (uses_perm s _ _ Hab), !uses_cons.
           destruct (string_dec j s); [contradiction|].
           destruct (string_dec s s); [simpl; lia|contradiction].
        -- rewrite Htot. unfold assigned.
           rewrite (total_points_perm _ _ (Permutation_map fst Hb)).
           simpl map. rewrite !total_points_cons. apply Qle_refl.
  - (* [m] is not assigned *)
    assert (Hsub' : drawn_from roster' asg).
    { destruct Hsub as [rest Hrest].
      assert (Hr : In m rest).
      { apply (Permutation_in _ Hrest) in Hmin.
        apply in_app_or in Hmin. tauto. }
      destruct (in_perm_cons _ _ Hr) as [rest' Hrest'].
      exists rest'. apply Permutation_cons_inv with m.
      rewrite <- Hm, Hrest, Hrest'. symmetry. apply Permutation_middle. }
    destruct (Nat.eq_dec (uses s asg) 0) as [Hz|Hnz].
    + exists asg. split; [exact Hel|]. split; [exact Hsub'|].
      split; [lia|]. split; [lia|]. lra.
    + (* some [x] sits in [s]: it scores at most as much as [m] *)
      destruct (uses_slot s asg) as (x & b & Hb); [lia|].
      pose proof (all_eligible_perm _ _ Hb Hel) as Helb.
      exists b. split; [now apply all_eligible_tail with (x, s)|].
      split; [|split; [|split]].
      * destruct Hsub' as [rest Hrest]. exists (x :: rest).
        rewrite Hrest. unfold assigned.
        rewrite (Permutation_map fst Hb). simpl.
        apply Permutation_middle.
      * intros j'. rewrite (uses_perm j' _ _ Hb), uses_cons.
        destruct (string_dec s j'); lia.
      * rewrite (uses_perm s _ _ Hb), uses_cons.
        destruct (string_dec s s); [simpl; lia|contradiction].
      * unfold assigned.
        rewrite (total_points_perm _ _ (Permutation_map fst Hb)).
        simpl map. rewrite total_points_cons.
        assert (Hx : (points x <= points m)%Q).
        { apply Hmax; [|apply Helb; simpl; auto].
          apply (drawn_from_In _ asg); [exact Hsub|].
          apply in_map_iff. exists (x, s). split; [reflexivity|].
          apply (Permutation_in _ (Permutation_sym Hb)). simpl; auto. }
        lra.
Qed.

Lemma by_points_asym (x y : Player) :
  Qltb (points y) (points x) = true -> Qltb (points x) (points y) = false.
Proof.
  intros H. apply Qltb_lt in H. apply Qltb_ge. now apply Qlt_le_weak.
Qed.

Lemma by_points_negtrans (x y z : Player) :
  Qltb (points y) (points x) = false -> Qltb (points z) (points y) = false ->
  Qltb (points z) (points x) = false.
Proof.
  intros H1 H2. apply Qltb_ge in H1, H2. apply Qltb_ge.
  now apply Qle_trans with (points y).
Qed.

(** The head of the ranking is a best eligible player of the roster. *)
Lemma ranking_head (roster : list Player) (slot : string) (m : Player)
    (rest : list Player) :
  sorted Qltb points true (filter (eligible slot) roster) = m :: rest ->
  In m roster /\ eligible slot m = true /\
  forall p, In p roster -> eligible slot p = true -> (points p <= points m)%Q.
Proof.
  intros E.
  pose proof (sorted_desc_perm points (filter (eligible slot) roster)) as Hperm.
  pose proof (sorted_desc_sorted points (filter (eligible slot) roster)) as Hs.
  rewrite E in Hperm, Hs.
  assert (Hm : In m (filter (eligible slot) roster))
    by (apply (Permutation_in _ Hperm); simpl; auto).
  apply filter_In in Hm. split; [tauto|]. split; [tauto|].
  intros p Hp Hpe.
  assert (Hp' : In p (m :: rest)).
  { apply (Permutation_in _ (Permutation_sym Hperm)). apply filter_In; auto. }
  inversion Hs as [|? ? _ Hall]; subst.
  destruct Hp' as [<-|Hp']; [apply Qle_refl|].
  rewrite Forall_forall in Hall. now apply Hall.
Qed.

Lemma top_players_none (roster : list Player) (slot : string) (n : Z) :
  sorted Qltb points true (filter (eligible slot) roster) = [] ->
  get_top_players roster slot n = [] /\
  forall p, In p roster -> eligible slot p = false.
Proof.
  intros E. split.
  - unfold get_top_players. rewrite E.
    destruct (slice_to_firstn (@nil Player) n) as [k ->]. apply firstn_nil.
  - intros p Hp. destruct (eligible slot p) eqn:Ep; [|reflexivity].
    assert (H : In p (sorted Qltb points true (filter (eligible slot) roster))).
    { apply (Permutation_in _ (Permutation_sym (sorted_desc_perm points _))).
      apply filter_In; auto. }
    rewrite E in H. destruct H.
Qed.

(** Taking [k + 1] top players is taking the best one and then the top
    [k] of the roster without it. *)
Lemma top_players_succ (roster : list Player) (slot : string) (m : Player)
    (rest : list Player) (k : nat) :
  sorted Qltb points true (filter (eligible slot) roster) = m :: rest ->
  get_top_players roster slot (Z.of_nat (S k))
  = m :: get_top_players (remove_first Player_eq_dec m roster) slot (Z.of_nat k).
Proof.
  intros E. destruct (ranking_head _ _ _ _ E) as (_ & Hme & _).
  unfold get_top_players. rewrite !slice_to_nonneg by lia.
  rewrite !Nat2Z.id, E. simpl firstn. f_equal. f_equal.
  rewrite (filter_remove_first Player_eq_dec _ _ _ Hme).
  unfold sorted in *. cbv beta iota in *.
  rewrite (sort_by_remove_first Player_eq_dec
             (fun y x => Qltb (points x) (points y))
             by_points_asym by_points_negtrans).
  rewrite E. simpl.
  destruct (Player_eq_dec m m); [reflexivity | contradiction].
Qed.

Lemma subsumed_incl (roster roster' : list Player) (s j : string) :
  incl roster' roster ->
  subsumed_or_disjoint roster s j -> subsumed_or_disjoint roster' s j.
Proof.
  intros Hi H [q (Hq & Hs & Hj)] p Hp Hps.
  apply H; [exists q; auto | now apply Hi | exact Hps].
Qed.

(** Filling one slot: the top [k] players of the roster for slot [s]
    are worth at least what any assignment loses when it has to give up
    [s] and the players taken. *)
Lemma fill_slot (s : string) (later : list string) (k : nat) :
  forall (roster : list Player) (asg : assignment),
    (forall p, In p (get_top_players roster s (Z.of_nat k)) ->
               (0 <= points p)%Q) ->
    all_eligible asg ->
    drawn_from roster asg ->
    (uses s asg <= k)%nat ->
    (forall j, In j (map snd asg) -> j = s \/ In j later) ->
    (forall j, In j later -> subsumed_or_disjoint roster s j) ->
    exists asg',
      all_eligible asg' /\
      drawn_from (without roster (get_top_players roster s (Z.of_nat k))) asg' /\
      (forall j, (uses j asg' <= uses j asg)%nat) /\
      uses s asg' = 0%nat /\
      (total_points (assigned asg)
       <= total_points (get_top_players roster s (Z.of_nat k))
          + total_points (assigned asg'))%Q.
Proof.
  induction k as [|k IH]; intros roster asg Hpos Hel Hsub Huse Hslots Hlam.
  - exists asg. change (get_top_players roster s (Z.of_nat 0)) with (@nil Player).
    split; [exact Hel|]. split; [exact Hsub|]. split; [lia|]. split; [lia|].
    unfold total_points at 2. simpl. lra.
  - destruct (sorted Qltb points true (filter (eligible s) roster))
      as [|m rest] eqn:E.
    + destruct (top_players_none roster s (Z.of_nat (S k)) E) as [-> Hnone].
      exists asg. split; [exact Hel|]. split; [exact Hsub|]. split; [lia|].
      split.
      * destruct (Nat.eq_dec (uses s asg) 0) as [Hz|Hnz]; [exact Hz|].
        exfalso. destruct (uses_slot s asg) as (x & b & Hb); [lia|].
        assert (Hx : In (x, s) asg)
          by (apply (Permutation_in _ (Permutation_sym Hb)); simpl; auto).
        specialize (Hel x s Hx). rewrite Hnone in Hel; [discriminate|].
        apply (drawn_from_In _ asg); [exact Hsub|].
        apply in_map_iff. exists (x, s). auto.
      * unfold total_points at 2. simpl. lra.
    + destruct (ranking_head _ _ _ _ E) as (Hmin & Hme & Hmax).
      rewrite (top_players_succ _ _ _ _ k E) in *.
      set (roster' := remove_first Player_eq_dec m roster) in *.
      destruct (exchange_top s m roster roster' asg later) as
        (asg1 & Hel1 & Hsub1 & Hle1 & Hs1 & Htot1); try assumption.
      { now apply remove_first_perm. }
      { apply Hpos. simpl; auto. }
      assert (Hincl : incl roster' roster) by apply remove_first_incl.
      destruct (IH roster' asg1) as (asg' & Hel' & Hsub' & Hle' & Hs' & Htot').
      { intros p Hp. apply Hpos. simpl; auto. }
      { exact Hel1. }
      { exact Hsub1. }
      { lia. }
      { intros j Hj. apply Hslots. apply uses_In. apply uses_In in Hj.
        specialize (Hle1 j). lia. }
      { intros j Hj. apply subsumed_incl with roster; [exact Hincl|].
        now apply Hlam. }
      exists asg'. split; [exact Hel'|]. split; [exact Hsub'|].
      split; [intros j; specialize (Hle1 j); specialize (Hle' j); lia|].
      split; [exact Hs'|].
      rewrite total_points_cons. lra.
Qed.

Lemma dict_get_Ok_key (d : list (string * Z)) (slot : string) (n : Z) :
  dict_get String.eqb d slot = Ok n -> In slot (dict_keys d).
Proof.
  induction d as [|[k v] d IH]; simpl; [discriminate|].
  destruct (String.eqb k slot) eqn:E.
  - apply String.eqb_eq in E. auto.
  - intros H. right. now apply IH.
Qed.

Lemma ForallOrdPairs_subsumed_incl (roster roster' : list Player)
    (slots : list string) :
  incl roster' roster ->
  ForallOrdPairs (subsumed_or_disjoint roster) slots ->
  ForallOrdPairs (subsumed_or_disjoint roster') slots.
Proof.
  intros Hi H. induction H as [|s l Hs _ IH]; constructor; [|exact IH].
  rewrite Forall_forall in *. intros j Hj.
  apply subsumed_incl with roster; [exact Hi | now apply Hs].
Qed.

(** The exchange argument along the loop: when no selected player
    scored below zero, the selection is worth, in exact arithmetic, at
    least what any assignment to the slots is worth. *)
Lemma best_lineup_loop_optimal (d : list (string * Z)) (slots : list string) :
  forall (roster acc picked : list Player) (asg : assignment),
    (forall s, In s slots -> In s (dict_keys d)) ->
    best_lineup_loop d slots roster acc = Ok (acc ++ picked) ->
    (forall p, In p picked -> (0 <= points p)%Q) ->
    all_eligible asg ->
    drawn_from roster asg ->
    (forall j, In j (map snd asg) -> In j slots) ->
    (forall j, Z.of_nat (uses j asg) <= required d j) ->
    ForallOrdPairs (subsumed_or_disjoint roster) slots ->
    (total_points (assigned asg) <= total_points picked)%Q.
Proof.
  induction slots as [|s slots IH];
    intros roster acc picked asg Hkeys Hloop Hpos Hel Hsub Hslots Hreq Hlam.
  - destruct asg as [|[p j] asg].
    + simpl in Hloop. injection Hloop as Hloop.
      rewrite <- (app_nil_r acc) in Hloop at 1.
      apply app_inv_head in Hloop. subst picked. apply Qle_refl.
    + destruct (Hslots j). simpl; auto.
  - destruct (dict_get_key d s) as [n Hn]; [apply Hkeys; simpl; auto|].
    assert (Hns : Z.of_nat (uses s asg) <= n).
    { specialize (Hreq s). unfold required in Hreq. now rewrite Hn in Hreq. }
    inversion Hlam as [|? ? Hhead Htail]; subst.
    rewrite Forall_forall in Hhead.
    set (top := get_top_players roster s n) in *.
    destruct (remove_players_without top roster (top_players_sub roster s n))
      as [Hrm _].
    destruct (best_lineup_loop_greedy d slots
                (fun j Hj => Hkeys j (or_intror Hj))
                (without roster top) (acc ++ top))
      as (picks & _ & _ & _ & _ & Hrest).
    simpl in Hloop. rewrite Hn in Hloop. cbn [bind] in Hloop.
    fold top in Hloop. rewrite Hrm in Hloop. cbn [bind] in Hloop.
    assert (Hpicked : picked = top ++ selected picks).
    { rewrite Hrest in Hloop. injection Hloop as Hloop.
      rewrite <- app_assoc in Hloop. now apply app_inv_head in Hloop. }
    rewrite Hrest, Hpicked in *.
    destruct (fill_slot s slots (Z.to_nat n) roster asg)
      as (asg' & Hel' & Hsub' & Hle' & Hs' & Htot'); try assumption.
    { rewrite Z2Nat.id by lia. intros p Hp. apply Hpos.
      apply in_or_app. now left. }
    { lia. }
    { intros j Hj. destruct (Hslots j Hj); auto. }
    rewrite Z2Nat.id in * by lia. fold top in Hsub', Htot'.
    assert (Htot : (total_points (assigned asg')
                    <= total_points (selected picks))%Q).
    { apply (IH (without roster top) (acc ++ top) (selected picks) asg').
      - intros j Hj. apply Hkeys. simpl; auto.
      - exact Hrest.
      - intros p Hp. apply Hpos. apply in_or_app. now right.
      - exact Hel'.
      - exact Hsub'.
      - intros j Hj. apply uses_In in Hj.
        assert (Hj' : In j (s :: slots)).
        { apply Hslots, uses_In. specialize (Hle' j). lia. }
        destruct Hj' as [<-|Hj']; [lia | exact Hj'].
      - intros j. specialize (Hle' j). specialize (Hreq j). lia.
      - apply ForallOrdPairs_subsumed_incl with roster;
          [apply without_incl | exact Htail]. }
    rewrite total_points_app. lra.
Qed.

Lemma uses_required_key (d : list (string * Z)) (asg : assignment) :
  (forall j, Z.of_nat (uses j asg) <= required d j) ->
  forall j, In j (map snd asg) -> In j (dict_keys d).
Proof.
  intros Hreq j Hj. apply uses_In in Hj. specialize (Hreq j).
  unfold required in Hreq.
  destruct (dict_get String.eqb d j) as [n|e] eqn:E.
  - now apply dict_get_Ok_key with n.
  - lia.
Qed.

Lemma required_nonneg (d : list (string * Z)) (j : string) :
  forallb (fun kv => 0 <=? snd kv) d = true -> 0 <= required d j.
Proof.
  unfold required. induction d as [|[k v] d IH]; simpl; [lia|].
  intros H. apply andb_true_iff in H. destruct H as [Hv Hd].
  destruct (String.eqb k j); [now apply Z.leb_le in Hv | now apply IH].
Qed.

(** The bound on the uses of the slots, checked on the slots in use. *)
Lemma uses_required_check (d : list (string * Z)) (asg : assignment) :
  forallb (fun kv => 0 <=? snd kv) d = true ->
  forallb (fun j => Z.of_nat (uses j asg) <=? required d j) (map snd asg)
  = true ->
  forall j, Z.of_nat (uses j asg) <= required d j.
Proof.
  intros Hd Hall j.
  destruct (in_dec string_dec j (map snd asg)) as [Hin|Hout].
  - rewrite forallb_forall in Hall. now apply Z.leb_le, Hall.
  - apply (count_occ_not_In string_dec) in Hout. unfold uses.
    rewrite Hout. now apply required_nonneg.
Qed.

Lemma tenths_specific : specific_first test_league tenths_lineup.
Proof.
  unfold specific_first.
  change (sorted_slots test_league)
    with ["K"; "QB"; "RB"; "WR"; "TE"; "D/ST"; "RB/WR/TE"]%string.
  repeat constructor;
    intros [q (Hq & Hs & Hj)]; simpl in Hq;
    destruct Hq as [<-|[<-|[<-|[]]]];
    vm_compute in Hs, Hj; congruence.
Qed.

Lemma tenths_legal :
  legal_assignment test_league tenths_lineup (fielded tenths_lineup).
Proof.
  split; [|split].
  - intros p slot Hin. simpl in Hin.
    destruct Hin as [E|[E|[E|[]]]]; inversion E; reflexivity.
  - apply uses_required_check; reflexivity.
  - exists []. rewrite app_nil_r. apply Permutation_refl.
Qed.

(** C1, as stated, fails.  In the superflex league the greedy selection
    gives OP to the second running back, leaves the flex slot empty and
    returns 60, while the lineup as fielded is legal and scores 70.  In
    the league of the tests, whose slots are specific before generic,
    the selection starts the only kicker at -2, while leaving the slot
    open is legal and scores 0.  And there the starters at 0.1, 0.2 and
    0.3, all selected, are added as (0.3 + 0.2) + 0.1, a float below
    their total: below the sum (0.1 + 0.2) + 0.3 numpy takes of the
    lineup as fielded, and below the exact total. *)
Lemma get_best_lineup_not_optimal :
  ((forall p, In p superflex_lineup -> (0 <= points p)%Q) /\
   legal_assignment superflex_league superflex_lineup superflex_fielded /\
   get_best_lineup superflex_league superflex_lineup = Ok 60%Q /\
   (total_points (assigned superflex_fielded) == 70)%Q /\
   ~ (total_points (assigned superflex_fielded) <= 60)%Q) /\
  (specific_first test_league cold_kicker_lineup /\
   legal_assignment test_league cold_kicker_lineup [] /\
   get_best_lineup test_league cold_kicker_lineup = Ok (-2)%Q /\
   ~ (total_points (assigned []) <= -2)%Q) /\
  ((forall p, In p tenths_lineup -> (0 <= points p)%Q) /\
   specific_first test_league tenths_lineup /\
   legal_assignment test_league tenths_lineup (fielded tenths_lineup) /\
   exists best : Q,
     get_best_lineup test_league tenths_lineup = Ok best /\
     (best < np_sum (map points (assigned (fielded tenths_lineup))))%Q /\
     (best < total_points (assigned (fielded tenths_lineup)))%Q).
Proof.
  split; [|split].
  - split; [|split; [|split; [|split]]].
    + intros p Hp. simpl in Hp.
      destruct Hp as [<-|[<-|[<-|[<-|[]]]]]; discriminate.
    + split; [|split].
      * intros p slot Hin. simpl in Hin.
        destruct Hin as [E|[E|[E|[E|[]]]]]; inversion E; reflexivity.
      * apply uses_required_check; reflexivity.
      * exists []. rewrite app_nil_r. apply Permutation_refl.
    + vm_compute. reflexivity.
    + reflexivity.
    + intros H. vm_compute in H. now apply H.
  - split; [|split; [|split]].
    + unfold specific_first.
      change (sorted_slots test_league)
        with ["K"; "QB"; "RB"; "WR"; "TE"; "D/ST"; "RB/WR/TE"]%string.
      repeat constructor;
        intros [q (Hq & Hs & Hj)]; simpl in Hq; destruct Hq as [<-|[]];
        vm_compute in Hs, Hj; congruence.
    + split; [|split].
      * intros p slot [].
      * apply uses_required_check; reflexivity.
      * exists cold_kicker_lineup. apply Permutation_refl.
    + vm_compute. reflexivity.
    + intros H. vm_compute in H. now apply H.
  - split; [|split; [exact tenths_specific | split; [exact tenths_legal|]]].
    + intros p Hp. simpl in Hp.
      destruct Hp as [<-|[<-|[<-|[]]]]; discriminate.
    + eexists. split; [vm_compute; reflexivity|].
      split; vm_compute; reflexivity.
Qed.

(** C1, amended: when the slots, in the order they are processed
    (ascending label length, ties in the order of the mapping), are
    specific before generic - a slot's eligible players are either
    disjoint from those of every later slot or included in them - and
    none of the players [get_best_lineup] selects scored below zero,
    the selected players have, in exact arithmetic, a total at least
    that of every legal assignment of players of the lineup to the
    required starting slots.  The value returned is the sum numpy
    takes of their points, in the order of selection: for floats it
    differs from their total by at most the fraction [eps] of it for
    every selected player. *)
Theorem get_best_lineup_optimal (league : League) (lineup : list Player)
    (asg : assignment) :
  specific_first league lineup ->
  legal_assignment league lineup asg ->
  exists (picked : list Player) (best : Q),
    best_lineup_players league lineup = Ok picked /\
    get_best_lineup league lineup = Ok best /\
    best = np_sum (map points picked) /\
    ((forall p, In p picked -> (0 <= points p)%Q) ->
     (total_points (assigned asg) <= total_points picked)%Q) /\
    ((forall p, In p picked -> is_float (points p) /\ (0 <= points p)%Q) ->
     let n := inject_Z (Z.of_nat (List.length picked)) in
     ((1 - n * eps) * total_points picked <= best)%Q /\
     ((1 - n * eps) * best <= total_points picked)%Q).
Proof.
  intros Hspec (Hel & Hreq & Hsub).
  assert (Hkeys : forall s, In s (sorted_slots league) ->
                            In s (dict_keys (starting_roster_slots league)))
    by (intros s Hs; now apply (Permutation_in _ (sorted_slots_perm league))).
  destruct (best_lineup_loop_greedy (starting_roster_slots league)
              (sorted_slots league) Hkeys lineup [])
    as (picks & _ & _ & _ & _ & Hloop).
  exists (selected picks), (np_sum (map points (selected picks))).
  split; [exact Hloop|]. split; [|split; [reflexivity|split]].
  - unfold get_best_lineup. fold (best_lineup_players league lineup) in Hloop.
    now rewrite Hloop.
  - intros Hpos.
    apply (best_lineup_loop_optimal (starting_roster_slots league)
             (sorted_slots league) lineup [] (selected picks) asg);
      try assumption.
    intros j Hj.
    apply (Permutation_in _ (Permutation_sym (sorted_slots_perm league))).
    now apply uses_required_key with asg.
  - intros Hfl. cbv zeta. unfold total_points.
    rewrite <- (length_map points (selected picks)).
    apply np_sum_bounds. intros x Hx. apply in_map_iff in Hx.
    destruct Hx as [p [<- Hp]]. now apply Hfl.
Qed.

Lemma get_best_lineup_optimal_witness :
  specific_first flex_league flex_lineup /\
  legal_assignment flex_league flex_lineup flex_fielded /\
  exists (picked : list Player) (best : Q),
    best_lineup_players flex_league flex_lineup = Ok picked /\
    get_best_lineup flex_league flex_lineup = Ok best /\
    best = np_sum (map points picked) /\
    (forall p, In p picked -> is_float (points p) /\ (0 <= points p)%Q) /\
    (total_points (assigned flex_fielded) <= total_points picked)%Q /\
    ((1 - 2 * eps) * total_points picked <= best)%Q /\
    ((1 - 2 * eps) * best <= total_points picked)%Q.
Proof.
  assert (Hspec : specific_first flex_league flex_lineup).
  { unfold specific_first.
    change (sorted_slots flex_league) with ["RB"; "RB/WR/TE"]%string.
    repeat constructor.
    intros _ p Hp. simpl in Hp.
    destruct Hp as [<-|[<-|[<-|[]]]]; intros H;
      first [reflexivity | discriminate H]. }
  assert (Hlegal : legal_assignment flex_league flex_lineup flex_fielded).
  { split; [|split].
    - intros p slot Hin. simpl in Hin.
      destruct Hin as [E|[E|[]]]; inversion E; reflexivity.
    - apply uses_required_check; reflexivity.
    - exists [mkPlayer 3 7 ["WR"; "RB/WR/TE"; "BE"; "IR"]%string "BE"].
      apply Permutation_refl. }
  split; [exact Hspec|]. split; [exact Hlegal|].
  destruct (get_best_lineup_optimal flex_league flex_lineup flex_fielded
              Hspec Hlegal) as (picked & best & Hpicked & Hbest & Hsum & Hopt & Hrnd).
  exists picked, best. split; [exact Hpicked|]. split; [exact Hbest|].
  split; [exact Hsum|].
  assert (E : Ok picked
              = Ok [ mkPlayer 1 12 ["RB"; "RB/WR/TE"; "BE"; "IR"]%string
                              "RB/WR/TE";
                     mkPlayer 2 9 ["RB"; "RB/WR/TE"; "BE"; "IR"]%string
                              "RB" ])
    by (rewrite <- Hpicked; reflexivity).
  injection E as E.
  assert (Hfl : forall p, In p picked ->
                          is_float (points p) /\ (0 <= points p)%Q).
  { rewrite E. intros p Hp. simpl in Hp.
    destruct Hp as [<-|[<-|[]]]; (split; [|discriminate]).
    - exists 12, 0. split; reflexivity.
    - exists 9, 0. split; reflexivity. }
  split; [exact Hfl|].
  split; [apply Hopt; intros p Hp; now apply Hfl|].
  specialize (Hrnd Hfl). cbv zeta in Hrnd.
  rewrite E in Hrnd at 1 3. exact Hrnd.
Defined.

(* ================================================================== *)
(** ** get_lineup_efficiency *)
(* ================================================================== *)

Lemma get_best_lineup_returns (league : League) (lineup : list Player) :
  exists max_score, get_best_lineup league lineup = Ok max_score.
Proof.
  destruct (best_lineup_loop_greedy (starting_roster_slots league)
              (sorted_slots league)) with (roster := lineup) (acc := @nil Player)
    as (picks & _ & _ & _ & _ & Hloop).
  { intros s Hs. now apply (Permutation_in _ (sorted_slots_perm league)). }
  eexists. unfold get_best_lineup, best_lineup_players. rewrite Hloop.
  reflexivity.
Qed.

(** C9, as stated, fails: on a zero-scoring lineup the best total is 0
    and the efficiency is the unguarded quotient 0/0, not-a-number; no
    finite value is returned. *)
Lemma lineup_efficiency_unguarded :
  get_best_lineup test_league idle_lineup = Ok 0%Q /\
  get_lineup_efficiency test_league idle_lineup = Ok NaN /\
  get_lineup_efficiency test_league [] = Ok NaN /\
  ~ (exists q, get_lineup_efficiency test_league idle_lineup = Ok (Fin q)).
Proof.
  split; [reflexivity|]. split; [reflexivity|]. split; [reflexivity|].
  intros [q H]. discriminate H.
Qed.

(** C9, amended: [get_lineup_efficiency] divides without a guard.
    When the best total is 0 it raises nothing and returns what the
    numpy division gives: not-a-number when the points of the starters
    also sum to 0, and otherwise the infinity of their sign. *)
Theorem lineup_efficiency_zero_best (league : League) (lineup : list Player) :
  exists max_score,
    get_best_lineup league lineup = Ok max_score /\
    ((max_score == 0)%Q ->
     let real_score := np_sum (map points (filter is_starter lineup)) in
     get_lineup_efficiency league lineup
     = Ok (if Qeq_bool real_score 0 then NaN
           else if Qltb real_score 0 then NInf else PInf)).
Proof.
  destruct (get_best_lineup_returns league lineup) as [max_score Hmax].
  exists max_score. split; [exact Hmax|].
  intros Hz. cbv zeta. unfold get_lineup_efficiency. rewrite Hmax.
  cbn [bind]. unfold fdiv, inf_of_sign.
  apply Qeq_bool_iff in Hz. now rewrite Hz.
Qed.

Lemma lineup_efficiency_zero_best_witness :
  exists max_score,
    get_best_lineup test_league stray_lineup = Ok max_score /\
    (max_score == 0)%Q /\
    get_lineup_efficiency test_league stray_lineup = Ok NInf.
Proof.
  destruct (lineup_efficiency_zero_best test_league stray_lineup)
    as (max_score & Hmax & Heff).
  exists max_score. split; [exact Hmax|].
  assert (Hz : (max_score == 0)%Q).
  { assert (E : Ok max_score = Ok 0%Q) by (rewrite <- Hmax; reflexivity).
    inversion E. reflexivity. }
  split; [exact Hz|]. exact (Heff Hz).
Defined.

(* ================================================================== *)
(** ** Instances of the theorems on concrete lineups *)
(* ================================================================== *)

Lemma get_top_players_spec_witness :
  0 <= 1 /\
  exists ranked : list Player,
    Permutation ranked (filter (eligible "RB") trio_lineup) /\
    StronglySorted (fun a b => (points b <= points a)%Q) ranked /\
    (forall v : Q,
        filter (fun p => Qeq_bool (points p) v) ranked
        = filter (fun p => Qeq_bool (points p) v)
                 (filter (eligible "RB") trio_lineup)) /\
    get_top_players trio_lineup "RB" 1 = firstn (Z.to_nat 1) ranked /\
    List.length (get_top_players trio_lineup "RB" 1)
    = Nat.min (Z.to_nat 1) (List.length (filter (eligible "RB") trio_lineup)).
Proof.
  split; [lia|]. apply (get_top_players_spec trio_lineup "RB" 1). lia.
Defined.

Lemma get_best_trio_spec_witness :
  (forall slot, In slot trio_slots ->
                exists p, In p trio_lineup /\ eligible slot p = true) /\
  (exists (qb rb wr te : Q) (k : Z),
     highest "QB" trio_lineup qb /\ highest "RB" trio_lineup rb /\
     highest "WR" trio_lineup wr /\ highest "TE" trio_lineup te /\
     let backs := float_add qb rb in
     let total := float_add backs (Qmax wr te) in
     let best_trio := float64 (inject_Z k / 100) in
     nearest_float (qb + rb) backs /\
     nearest_float (backs + Qmax wr te) total /\
     (Qabs (total * 100 - inject_Z k) <= 1 # 2)%Q /\
     ((Qabs (total * 100 - inject_Z k) == 1 # 2)%Q -> Z.even k = true) /\
     nearest_float (inject_Z k / 100) best_trio /\
     get_best_trio test_league trio_lineup = Ok best_trio) /\
  (exists slot, In slot trio_slots /\
                forall p, In p idle_lineup -> eligible slot p = false) /\
  get_best_trio test_league idle_lineup = Raise IndexError.
Proof.
  assert (Hall : forall slot, In slot trio_slots ->
                   exists p, In p trio_lineup /\ eligible slot p = true).
  { intros slot Hs. simpl in Hs.
    destruct Hs as [<-|[<-|[<-|[<-|[]]]]].
    - exists (nth 0 trio_lineup (mkPlayer 0 0 [] "")). simpl. auto 10.
    - exists (nth 1 trio_lineup (mkPlayer 0 0 [] "")). simpl. auto 10.
    - exists (nth 2 trio_lineup (mkPlayer 0 0 [] "")). simpl. auto 10.
    - exists (nth 3 trio_lineup (mkPlayer 0 0 [] "")). simpl. auto 10. }
  assert (Hnone : exists slot, In slot trio_slots /\
                    forall p, In p idle_lineup -> eligible slot p = false).
  { exists "RB"%string. split; [simpl; auto|].
    intros p Hp. simpl in Hp. destruct Hp as [<-|[]]. reflexivity. }
  split; [exact Hall|].
  split; [exact (proj1 (get_best_trio_spec test_league trio_lineup) Hall)|].
  split; [exact Hnone|].
  exact (proj2 (get_best_trio_spec test_league idle_lineup) Hnone).
Defined.

(** The rounding of [get_best_trio] is that of the sum of floats: for
    1.0, 1.0 and the float 0.675, a little above 0.675, the sum 2.675
    of floats lies below 2.675 and the trio is 2.67, where the three
    scores add up to more than 2.675 in exact arithmetic. *)
Lemma get_best_trio_rounds_float_sum :
  exists wr : Q,
    highest "WR" halfway_lineup wr /\ (675 # 1000 < wr)%Q /\
    (float_add (float_add 1 1) wr < 2675 # 1000)%Q /\
    get_best_trio test_league halfway_lineup = Ok (float64 (267 # 100)) /\
    round_half_even ((1 + 1 + wr) * 100) = 268.
Proof.
  eexists. split; [|split; [|split; [|split]]].
  - split.
    + exists (nth 2 halfway_lineup (mkPlayer 0 0 [] "")).
      split; [simpl; auto|]. split; reflexivity.
    + intros p Hp Hel. simpl in Hp.
      destruct Hp as [<-|[<-|[<-|[<-|[]]]]];
        first [discriminate Hel | apply Qle_refl].
  - reflexivity.
  - vm_compute. reflexivity.
  - vm_compute. reflexivity.
  - vm_compute. reflexivity.
Qed.

(* ================================================================== *)
(** ** Further properties of the lineup functions *)
(* ================================================================== *)

Lemma sort_by_sorted_id {A : Type} (before : A -> A -> bool) (l : list A) :
  StronglySorted (in_order before) l -> sort_by before l = l.
Proof.
  induction 1 as [|x l Hl IH Hx]; simpl; [reflexivity|].
  rewrite IH. destruct l as [|y l]; [reflexivity|]. simpl.
  inversion Hx as [|? ? Hy _]; subst. unfold in_order in Hy.
  now rewrite Hy.
Qed.

Lemma StronglySorted_firstn {A : Type} (R : A -> A -> Prop) (k : nat)
    (l : list A) :
  StronglySorted R l -> StronglySorted R (firstn k l).
Proof.
  intros H. revert k. induction H as [|x l Hl IH Hx]; intros k.
  - rewrite firstn_nil. constructor.
  - destruct k as [|k]; simpl; constructor; [apply IH|].
    rewrite Forall_forall in *. intros y Hy. apply Hx.
    now apply firstn_In in Hy.
Qed.

Lemma filter_all {A : Type} (f : A -> bool) (l : list A) :
  (forall x, In x l -> f x = true) -> filter f l = l.
Proof.
  intros H. induction l as [|x l IH]; simpl; [reflexivity|].
  rewrite (H x) by (simpl; auto).
  now rewrite IH by (intros; apply H; simpl; auto).
Qed.

(** X1: selecting the top players is idempotent: for a count [n >= 0],
    the top [n] players for a slot among the top [n] players for that
    slot are those players again, in the same order. *)
Theorem get_top_players_idempotent (lineup : list Player) (slot : string)
    (n : Z) :
  0 <= n ->
  get_top_players (get_top_players lineup slot n) slot n
  = get_top_players lineup slot n.
Proof.
  intros Hn.
  set (top := get_top_players lineup slot n).
  assert (Hel : forall p, In p top -> eligible slot p = true).
  { intros p Hp. now apply (top_players_eligible lineup slot n). }
  unfold get_top_players at 1. rewrite (filter_all _ _ Hel).
  assert (Htop : top = firstn (Z.to_nat n)
                         (sorted Qltb points true
                                 (filter (eligible slot) lineup))).
  { unfold top, get_top_players. now apply slice_to_nonneg. }
  assert (Hs : sorted Qltb points true top = top).
  { unfold sorted. apply sort_by_sorted_id. rewrite Htop.
    apply StronglySorted_firstn. unfold sorted.
    apply sort_by_sorted.
    - intros x y. apply by_points_asym.
    - intros x y z. apply by_points_negtrans. }
  rewrite Hs, slice_to_nonneg by exact Hn.
  rewrite Htop, firstn_firstn. now rewrite Nat.min_id.
Qed.

Lemma get_top_players_idempotent_witness :
  0 <= 2 /\
  get_top_players (get_top_players trio_lineup "RB" 2) "RB" 2
  = get_top_players trio_lineup "RB" 2.
Proof.
  split; [lia|]. apply (get_top_players_idempotent trio_lineup "RB" 2). lia.
Defined.

Lemma assigned_fielded (lineup : list Player) :
  assigned (fielded lineup) = filter is_starter lineup.
Proof.
  unfold assigned, fielded. rewrite map_map. simpl. apply map_id.
Qed.

Lemma exact_sum_nonneg (l : list Q) :
  (forall x, In x l -> (0 <= x)%Q) -> (0 <= exact_sum l)%Q.
Proof.
  induction l as [|x l IH]; intros H; simpl; [apply Qle_refl|].
  specialize (H x (or_introl eq_refl)) as Hx.
  assert (Hl : (0 <= exact_sum l)%Q) by (apply IH; intros; apply H; simpl; auto).
  lra.
Qed.

(** The rounding factor of a sum of at most [bound] numbers. *)
Lemma rounding_factor (n bound : nat) :
  (n <= bound)%nat -> Z.of_nat bound < 2 ^ 53 ->
  (0 < 1 - inject_Z (Z.of_nat bound) * eps
   <= 1 - inject_Z (Z.of_nat n) * eps)%Q.
Proof.
  intros Hn Hb. change (2 ^ 53) with 9007199254740992 in Hb.
  assert (H1 : (inject_Z (Z.of_nat n) <= inject_Z (Z.of_nat bound))%Q)
    by (rewrite <- Zle_Qle; lia).
  assert (H2 : (inject_Z (Z.of_nat bound) < 9007199254740992)%Q).
  { change 9007199254740992%Q with (inject_Z 9007199254740992).
    now rewrite <- Zlt_Qlt. }
  unfold eps. split.
  - set (b := inject_Z (Z.of_nat bound)) in *.
    assert (E : (b * (1 # 9007199254740992) == b / 9007199254740992)%Q)
      by (field).
    rewrite E.
    assert (Hd : (b / 9007199254740992 * 9007199254740992 == b)%Q) by field.
    lra.
  - lra.
Qed.

Lemma flex_specific_first : specific_first flex_league flex_lineup.
Proof.
  unfold specific_first.
  change (sorted_slots flex_league) with ["RB"; "RB/WR/TE"]%string.
  repeat constructor.
  intros _ p Hp. simpl in Hp.
  destruct Hp as [<-|[<-|[<-|[]]]]; intros H;
    first [reflexivity | discriminate H].
Qed.

Lemma flex_fielded_legal :
  legal_assignment flex_league flex_lineup (fielded flex_lineup).
Proof.
  split; [|split].
  - intros p slot Hin. simpl in Hin.
    destruct Hin as [E|[E|[]]]; inversion E; reflexivity.
  - apply uses_required_check; reflexivity.
  - exists [mkPlayer 3 7 ["WR"; "RB/WR/TE"; "BE"; "IR"]%string "BE"].
    apply Permutation_refl.
Qed.

(** X2: with a best total that is not zero, [get_lineup_efficiency]
    returns a finite number: not below zero when the best total is
    above zero and no starter scored below zero, and exactly 1 when
    the starters, in the order of the lineup, are the players
    [get_best_lineup] selects, in the order of selection.  When the
    lineup as fielded is a legal assignment, the points are floats not
    below zero and the slots are specific before generic, it exceeds 1
    by the rounding of the two sums at most: for a lineup of [n]
    players it is at most [1 / (1 - n * eps)^2]. *)
Theorem lineup_efficiency_range (league : League) (lineup : list Player)
    (max_score : Q) :
  get_best_lineup league lineup = Ok max_score ->
  ~ (max_score == 0)%Q ->
  exists e : Q,
    get_lineup_efficiency league lineup = Ok (Fin e) /\
    ((0 < max_score)%Q ->
     (forall p, In p lineup -> is_starter p = true -> (0 <= points p)%Q) ->
     (0 <= e)%Q) /\
    ((forall p, In p lineup -> is_float (points p) /\ (0 <= points p)%Q) ->
     specific_first league lineup ->
     legal_assignment league lineup (fielded lineup) ->
     Z.of_nat (List.length lineup) < 2 ^ 53 ->
     let r := (1 - inject_Z (Z.of_nat (List.length lineup)) * eps)%Q in
     (0 <= e)%Q /\ (e * (r * r) <= 1)%Q) /\
    (best_lineup_players league lineup = Ok (filter is_starter lineup) ->
     (e == 1)%Q).
Proof.
  intros Hmax Hnz. unfold get_lineup_efficiency. rewrite Hmax. cbn [bind].
  unfold fdiv.
  destruct (Qeq_bool max_score 0) eqn:E;
    [apply Qeq_bool_iff in E; contradiction|].
  set (starters := filter is_starter lineup).
  eexists. split; [reflexivity|]. split; [|split].
  - intros Hgt Hpos.
    apply Qle_shift_div_l; [exact Hgt|]. rewrite Qmult_0_l.
    apply np_sum_nonneg. intros x Hx. apply in_map_iff in Hx.
    destruct Hx as [p [<- Hp]]. apply filter_In in Hp.
    now apply Hpos.
  - intros Hfl Hspec (Hel & Hreq & Hsub) Hlen.
    assert (Hkeys : forall s, In s (sorted_slots league) ->
                              In s (dict_keys (starting_roster_slots league)))
      by (intros s Hs;
          now apply (Permutation_in _ (sorted_slots_perm league))).
    destruct (best_lineup_loop_greedy (starting_roster_slots league)
                (sorted_slots league) Hkeys lineup [])
      as (picks & _ & _ & _ & [rest Hperm] & Hloop).
    set (picked := selected picks) in *.
    assert (Hin : forall p, In p picked -> In p lineup).
    { intros p Hp. apply (Permutation_in _ (Permutation_sym Hperm)).
      apply in_or_app. now left. }
    assert (Hopt : (total_points starters <= total_points picked)%Q).
    { unfold starters. rewrite <- assigned_fielded.
      apply (best_lineup_loop_optimal (starting_roster_slots league)
               (sorted_slots league) lineup [] picked (fielded lineup));
        try assumption.
      - intros p Hp. exact (proj2 (Hfl p (Hin p Hp))).
      - intros j Hj.
        apply (Permutation_in _
                 (Permutation_sym (sorted_slots_perm league))).
        now apply uses_required_key with (fielded lineup). }
    assert (Hbest : max_score = np_sum (map points picked)).
    { unfold get_best_lineup, best_lineup_players in Hmax.
      simpl app in Hloop. rewrite Hloop in Hmax. cbn [bind] in Hmax.
      now injection Hmax as <-. }
    assert (Hgt : (0 < max_score)%Q).
    { assert (H0 : (0 <= max_score)%Q).
      { rewrite Hbest. apply np_sum_nonneg. intros x Hx.
        apply in_map_iff in Hx. destruct Hx as [p [<- Hp]].
        exact (proj2 (Hfl p (Hin p Hp))). }
      apply Qle_lteq in H0. destruct H0 as [H0|H0]; [exact H0|].
      exfalso. apply Hnz. now symmetry. }
    destruct (np_sum_bounds (map points picked)) as [Hlo _].
    { intros x Hx. apply in_map_iff in Hx. destruct Hx as [p [<- Hp]].
      exact (Hfl p (Hin p Hp)). }
    destruct (np_sum_bounds (map points starters)) as [_ Hhi].
    { intros x Hx. apply in_map_iff in Hx. destruct Hx as [p [<- Hp]].
      unfold starters in Hp. apply filter_In in Hp.
      exact (Hfl p (proj1 Hp)). }
    cbv zeta in Hlo, Hhi. rewrite length_map in Hlo, Hhi.
    fold (total_points picked) in Hlo. fold (total_points starters) in Hhi.
    rewrite <- Hbest in Hlo.
    assert (Hn : (List.length picked <= List.length lineup)%nat).
    { rewrite (Permutation_length Hperm), length_app. lia. }
    assert (Hm : (List.length starters <= List.length lineup)%nat)
      by apply filter_length_le.
    destruct (rounding_factor _ _ Hn Hlen) as [Hr Hrn].
    destruct (rounding_factor _ _ Hm Hlen) as [_ Hrm].
    assert (Hpos : forall x, In x (map points starters) -> (0 <= x)%Q).
    { intros x Hx. apply in_map_iff in Hx. destruct Hx as [p [<- Hp]].
      unfold starters in Hp. apply filter_In in Hp.
      exact (proj2 (Hfl p (proj1 Hp))). }
    pose proof (np_sum_nonneg _ Hpos) as Hreal.
    pose proof (exact_sum_nonneg _ Hpos) as Hts.
    fold (total_points starters) in Hts.
    cbv zeta. split.
    { apply Qle_shift_div_l; [exact Hgt|]. now rewrite Qmult_0_l. }
    set (r := (1 - inject_Z (Z.of_nat (List.length lineup)) * eps)%Q) in *.
    set (rn := (1 - inject_Z (Z.of_nat (List.length picked)) * eps)%Q) in *.
    set (rm := (1 - inject_Z (Z.of_nat (List.length starters)) * eps)%Q)
      in *.
    set (real := np_sum (map points starters)) in *.
    assert (Er : (real / max_score * (r * r) == real * (r * r) / max_score)%Q)
      by (field; exact Hnz).
    rewrite Er. apply Qle_shift_div_r; [exact Hgt|]. rewrite Qmult_1_l.
    clearbody r rn rm real.
    generalize dependent (total_points picked).
    generalize dependent (total_points starters).
    intros ts Hhi Hts tp Hopt Hlo.
    assert (H1 : (0 <= real * r * (rm - r))%Q)
      by (apply Qmult_le_0_compat; [apply Qmult_le_0_compat|]; lra).
    apply Qle_trans with (rn * tp)%Q; [|exact Hlo].
    apply Qle_trans with (r * tp)%Q;
      [|apply Qmult_le_compat_r; [exact Hrn | lra]].
    apply Qle_trans with (r * ts)%Q;
      [|rewrite !(Qmult_comm r); apply Qmult_le_compat_r; lra].
    apply Qle_trans with (r * (rm * real))%Q;
      [|rewrite !(Qmult_comm r); apply Qmult_le_compat_r; lra].
    lra.
  - intros Hbest. unfold get_best_lineup in Hmax. rewrite Hbest in Hmax.
    cbn [bind] in Hmax. injection Hmax as <-. now field.
Qed.

Lemma lineup_efficiency_range_witness :
  get_best_lineup flex_league flex_lineup = Ok 21%Q /\
  ~ (21 == 0)%Q /\
  (0 < 21)%Q /\
  (forall p, In p flex_lineup ->
             is_float (points p) /\ (0 <= points p)%Q) /\
  specific_first flex_league flex_lineup /\
  legal_assignment flex_league flex_lineup (fielded flex_lineup) /\
  Z.of_nat (List.length flex_lineup) < 2 ^ 53 /\
  best_lineup_players flex_league flex_lineup
  = Ok (filter is_starter flex_lineup) /\
  exists e : Q,
    get_lineup_efficiency flex_league flex_lineup = Ok (Fin e) /\
    (0 <= e)%Q /\
    (e * ((1 - 3 * eps) * (1 - 3 * eps)) <= 1)%Q /\
    (e == 1)%Q.
Proof.
  assert (Hmax : get_best_lineup flex_league flex_lineup = Ok 21%Q)
    by (vm_compute; reflexivity).
  assert (Hnz : ~ (21 == 0)%Q) by discriminate.
  assert (Hgt : (0 < 21)%Q) by reflexivity.
  assert (Hfl : forall p, In p flex_lineup ->
                          is_float (points p) /\ (0 <= points p)%Q).
  { intros p Hp. simpl in Hp.
    destruct Hp as [<-|[<-|[<-|[]]]]; (split; [|discriminate]).
    - exists 12, 0. split; reflexivity.
    - exists 9, 0. split; reflexivity.
    - exists 7, 0. split; reflexivity. }
  assert (Hpos : forall p, In p flex_lineup -> is_starter p = true ->
                           (0 <= points p)%Q)
    by (intros p Hp _; exact (proj2 (Hfl p Hp))).
  assert (Hlen : Z.of_nat (List.length flex_lineup) < 2 ^ 53)
    by reflexivity.
  assert (Hbest : best_lineup_players flex_league flex_lineup
                  = Ok (filter is_starter flex_lineup)).
  { vm_compute. reflexivity. }
  split; [exact Hmax|]. split; [exact Hnz|]. split; [exact Hgt|].
  split; [exact Hfl|]. split; [exact flex_specific_first|].
  split; [exact flex_fielded_legal|]. split; [exact Hlen|].
  split; [exact Hbest|].
  destruct (lineup_efficiency_range flex_league flex_lineup 21 Hmax Hnz)
    as (e & He & Hsign & Hup & Hone).
  exists e. split; [exact He|].
  split; [exact (Hsign Hgt Hpos)|].
  split; [|exact (Hone Hbest)].
  exact (proj2 (Hup Hfl flex_specific_first flex_fielded_legal Hlen)).
Defined.

(* ================================================================== *)
(** ** Further properties of the weekly finish *)
(* ================================================================== *)

Lemma filter_length_mono {A : Type} (f g : A -> bool) (l : list A) :
  (forall x, In x l -> f x = true -> g x = true) ->
  (List.length (filter f l) <= List.length (filter g l))%nat.
Proof.
  induction l as [|x l IH]; intros H; simpl; [lia|].
  assert (IH' : (List.length (filter f l) <= List.length (filter g l))%nat)
    by (apply IH; intros; apply H; simpl; auto).
  destruct (f x) eqn:Ef.
  - rewrite (H x) by (simpl; auto). simpl. lia.
  - destruct (g x); simpl; lia.
Qed.

Lemma filter_length_strict {A : Type} (f g : A -> bool) (l : list A) (y : A) :
  (forall x, In x l -> f x = true -> g x = true) ->
  In y l -> f y = false -> g y = true ->
  (List.length (filter f l) < List.length (filter g l))%nat.
Proof.
  induction l as [|x l IH]; intros H Hy Hf Hg; [destruct Hy|]. simpl.
  assert (Hmono : (List.length (filter f l) <= List.length (filter g l))%nat)
    by (apply filter_length_mono; intros; apply H; simpl; auto).
  destruct Hy as [->|Hy].
  - rewrite Hf, Hg. simpl. lia.
  - assert (IH' : (List.length (filter f l) < List.length (filter g l))%nat)
      by (apply IH; auto; intros; apply H; simpl; auto).
    destruct (f x) eqn:Ef.
    + rewrite (H x) by (simpl; auto). simpl. lia.
    + destruct (g x); simpl; lia.
Qed.

Lemma outscored_by_lt (league : League) (week : Z) (t : Team) :
  member league t ->
  (outscored_by league week (score_at t week)
   < List.length (teams league))%nat.
Proof.
  intros [tm [Hin [_ Hsc]]]. unfold outscored_by.
  rewrite <- (filter_all (fun _ => true) (teams league)) at 2
    by reflexivity.
  apply filter_length_strict with tm; auto.
  apply Qltb_ge. unfold score_at. rewrite Hsc. apply Qle_refl.
Qed.

Lemma member_rank (league : League) (t : Team) (week : Z) :
  all_scored league week -> member league t ->
  exists rank,
    get_weekly_finish league t week = Ok rank /\
    1 <= rank <= Z.of_nat (List.length (teams league)).
Proof.
  intros Hall Hm. eexists. split.
  - now apply get_weekly_finish_member.
  - pose proof (outscored_by_lt league week t Hm). lia.
Qed.

(** X3: in a week for which every team has a score, the weekly finish
    of a team of the league is a rank between 1 and the number of
    teams. *)
Theorem get_weekly_finish_bounds (league : League) (team : Team) (week : Z) :
  all_scored league week ->
  In team (teams league) ->
  exists rank,
    get_weekly_finish league team week = Ok rank /\
    1 <= rank <= Z.of_nat (List.length (teams league)).
Proof.
  intros Hall Hin. apply member_rank; [exact Hall|]. now apply In_member.
Qed.

Lemma get_weekly_finish_bounds_witness :
  all_scored finish_example 1 /\
  In (mkTeam 4 [80%Q] []) (teams finish_example) /\
  exists rank,
    get_weekly_finish finish_example (mkTeam 4 [80%Q] []) 1 = Ok rank /\
    1 <= rank <= 4.
Proof.
  assert (Hall : all_scored finish_example 1).
  { intros tm Htm. simpl in Htm.
    destruct Htm as [<-|[<-|[<-|[<-|[]]]]]; simpl; lia. }
  assert (Hin : In (mkTeam 4 [80%Q] []) (teams finish_example))
    by (simpl; auto).
  split; [exact Hall|]. split; [exact Hin|].
  exact (get_weekly_finish_bounds finish_example _ 1 Hall Hin).
Defined.

(** X4: the weekly finish follows the scores: of two teams of the
    league, the one with the strictly higher score of the week has the
    strictly better (smaller) rank, and teams with equal scores have
    the same rank. *)
Theorem get_weekly_finish_order (league : League) (a b : Team) (week : Z) :
  all_scored league week ->
  In a (teams league) -> In b (teams league) ->
  exists rank_a rank_b,
    get_weekly_finish league a week = Ok rank_a /\
    get_weekly_finish league b week = Ok rank_b /\
    ((score_at a week < score_at b week)%Q -> rank_b < rank_a) /\
    ((score_at a week == score_at b week)%Q -> rank_a = rank_b).
Proof.
  intros Hall Ha Hb.
  exists (1 + Z.of_nat (outscored_by league week (score_at a week))),
         (1 + Z.of_nat (outscored_by league week (score_at b week))).
  split; [now apply get_weekly_finish_rank|].
  split; [now apply get_weekly_finish_rank|]. split.
  - intros Hlt.
    assert (H : (outscored_by league week (score_at b week)
                 < outscored_by league week (score_at a week))%nat).
    { unfold outscored_by. apply filter_length_strict with b.
      - intros x _ Hx. apply Qltb_lt in Hx. apply Qltb_lt.
        now apply Qlt_trans with (score_at b week).
      - exact Hb.
      - apply Qltb_ge. apply Qle_refl.
      - now apply Qltb_lt. }
    lia.
  - intros Heq. f_equal. f_equal. unfold outscored_by. f_equal.
    apply filter_ext. intros x.
    destruct (Qltb (score_at b week) (score_at x week)) eqn:E.
    + apply Qltb_lt. apply Qltb_lt in E. now rewrite Heq.
    + apply Qltb_ge. apply Qltb_ge in E. now rewrite Heq.
Qed.

Lemma get_weekly_finish_order_witness :
  all_scored finish_example 1 /\
  In (mkTeam 4 [80%Q] []) (teams finish_example) /\
  In (mkTeam 2 [90%Q] []) (teams finish_example) /\
  exists rank_a rank_b,
    get_weekly_finish finish_example (mkTeam 4 [80%Q] []) 1 = Ok rank_a /\
    get_weekly_finish finish_example (mkTeam 2 [90%Q] []) 1 = Ok rank_b /\
    ((80 < 90)%Q -> rank_b < rank_a) /\
    ((80 == 90)%Q -> rank_a = rank_b).
Proof.
  assert (Hall : all_scored finish_example 1).
  { intros tm Htm. simpl in Htm.
    destruct Htm as [<-|[<-|[<-|[<-|[]]]]]; simpl; lia. }
  assert (Ha : In (mkTeam 4 [80%Q] []) (teams finish_example))
    by (simpl; auto).
  assert (Hb : In (mkTeam 2 [90%Q] []) (teams finish_example))
    by (simpl; auto).
  split; [exact Hall|]. split; [exact Ha|]. split; [exact Hb|].
  exact (get_weekly_finish_order finish_example _ _ 1 Hall Ha Hb).
Defined.

Lemma getitem_cases {A : Type} (l : list A) (i : Z) :
  (exists x, getitem l i = Ok x) \/ getitem l i = Raise IndexError.
Proof.
  unfold getitem.
  destruct ((_ <? 0) || (_ <=? _)); [now right|].
  destruct (nth_error l _); [left; eauto | now right].
Qed.

Lemma getitem_short {A : Type} (l : list A) (week : Z) :
  1 <= week -> Z.of_nat (List.length l) < week ->
  getitem l (week - 1) = Raise IndexError.
Proof.
  intros H1 H2. unfold getitem.
  destruct (week - 1 <? 0) eqn:E; [apply Z.ltb_lt in E; lia|].
  destruct (week - 1 <? 0) eqn:E1; [discriminate|]. simpl.
  destruct (Z.of_nat (List.length l) <=? week - 1) eqn:E2; [reflexivity|].
  apply Z.leb_gt in E2. lia.
Qed.

Lemma mapM_raise {A B : Type} (f : A -> result B) (e : exn) (l : list A) :
  (forall x, In x l -> (exists y, f x = Ok y) \/ f x = Raise e) ->
  (exists x, In x l /\ f x = Raise e) ->
  mapM f l = Raise e.
Proof.
  induction l as [|x l IH]; intros Hc [y [Hy Hr]]; [destruct Hy|]. simpl.
  destruct (Hc x (or_introl eq_refl)) as [[v Hv]|Hx].
  - rewrite Hv. cbn [bind].
    destruct Hy as [->|Hy]; [congruence|].
    rewrite IH; [reflexivity | intros; apply Hc; simpl; auto | eauto].
  - now rewrite Hx.
Qed.

Lemma list_index_absent {A : Type} (eqb : A -> A -> bool) (x : A)
    (l : list A) :
  (forall y, In y l -> eqb y x = false) ->
  list_index eqb x l = Raise ValueError.
Proof.
  induction l as [|y l IH]; intros H; simpl; [reflexivity|].
  rewrite (H y) by (simpl; auto).
  now rewrite IH by (intros; apply H; simpl; auto).
Qed.

(** X5: how [get_weekly_finish] fails.  For a week [>= 1] that some
    team of the league has no score for, it raises [IndexError]; when
    every team has a score but none equals the score of the given team
    (a team that is not in the league), it raises [ValueError]. *)
Theorem get_weekly_finish_errors (league : League) (team : Team) (week : Z) :
  (1 <= week ->
   (exists tm, In tm (teams league) /\
               Z.of_nat (List.length (scores tm)) < week) ->
   get_weekly_finish league team week = Raise IndexError) /\
  (all_scored league week ->
   1 <= week <= Z.of_nat (List.length (scores team)) ->
   (forall tm, In tm (teams league) ->
               ~ (score_at tm week == score_at team week)%Q) ->
   get_weekly_finish league team week = Raise ValueError).
Proof.
  split.
  - intros Hweek [tm [Hin Hshort]]. unfold get_weekly_finish.
    rewrite (mapM_raise _ IndexError); [reflexivity| |].
    + intros x _. apply getitem_cases.
    + exists tm. split; [exact Hin|]. now apply getitem_short.
  - intros Hall Hteam Habsent. unfold get_weekly_finish.
    rewrite (mapM_ok _ (fun tm => score_at tm week)).
    2:{ intros tm Htm. apply getitem_week. now apply Hall. }
    cbn [bind]. rewrite (getitem_week _ _ 0%Q) by exact Hteam.
    cbn [bind]. fold (score_at team week).
    rewrite list_index_absent; [reflexivity|].
    intros y Hy.
    apply (Permutation_in _ (sorted_desc_perm (fun x : Q => x) _)) in Hy.
    apply in_map_iff in Hy. destruct Hy as [tm [<- Htm]].
    apply Qeq_bool_false. now apply Habsent.
Qed.

Lemma get_weekly_finish_errors_witness :
  (1 <= 2 /\
   (exists tm, In tm (teams finish_example) /\
               Z.of_nat (List.length (scores tm)) < 2) /\
   get_weekly_finish finish_example (mkTeam 1 [100%Q] []) 2
   = Raise IndexError) /\
  (all_scored finish_example 1 /\
   1 <= 1 <= Z.of_nat (List.length (scores (mkTeam 9 [85%Q] []))) /\
   (forall tm, In tm (teams finish_example) ->
               ~ (score_at tm 1 == score_at (mkTeam 9 [85%Q] []) 1)%Q) /\
   get_weekly_finish finish_example (mkTeam 9 [85%Q] []) 1
   = Raise ValueError).
Proof.
  assert (Hshort : exists tm, In tm (teams finish_example) /\
                              Z.of_nat (List.length (scores tm)) < 2).
  { exists (mkTeam 1 [100%Q] []). split; [simpl; auto | simpl; lia]. }
  assert (Hall : all_scored finish_example 1).
  { intros tm Htm. simpl in Htm.
    destruct Htm as [<-|[<-|[<-|[<-|[]]]]]; simpl; lia. }
  assert (Hlen : 1 <= 1 <= Z.of_nat (List.length (scores (mkTeam 9 [85%Q] []))))
    by (simpl; lia).
  assert (Habs : forall tm, In tm (teams finish_example) ->
                   ~ (score_at tm 1 == score_at (mkTeam 9 [85%Q] []) 1)%Q).
  { intros tm Htm. simpl in Htm.
    destruct Htm as [<-|[<-|[<-|[<-|[]]]]]; discriminate. }
  split.
  - split; [lia|]. split; [exact Hshort|].
    apply (proj1 (get_weekly_finish_errors finish_example _ 2));
      [lia | exact Hshort].
  - split; [exact Hall|]. split; [exact Hlen|]. split; [exact Habs|].
    exact (proj2 (get_weekly_finish_errors finish_example _ 1)
             Hall Hlen Habs).
Defined.

(* ================================================================== *)
(** ** Further properties of the weekly luck index *)
(* ================================================================== *)

(** The schedule luck in closed form, branch by branch. *)
Lemma schedule_luck_value (w n rank opp_rank : Z) :
  n <> 1 ->
  schedule_luck w n rank opp_rank
  = Ok (if rank <? opp_rank then win_term w n rank
        else if opp_rank <? rank then loss_term w n rank
        else if 2 * rank <? n
             then (inject_Z (- w) / 2 * inject_Z (n - rank - 1)
                   / inject_Z (n - 1))%Q
             else (inject_Z w / 2 * inject_Z (rank - 1)
                   / inject_Z (n - 1))%Q).
Proof.
  intros Hn. pose proof (inject_Z_pred_nonzero n Hn) as Hd.
  unfold schedule_luck, win_term, loss_term.
  destruct (rank <? opp_rank); [now rewrite truediv_ok|].
  destruct (opp_rank <? rank); [now rewrite truediv_ok|].
  rewrite (truediv_ok _ 2) by discriminate. cbn [bind].
  rewrite below_half.
  destruct (2 * rank <? n);
    rewrite (truediv_ok _ 2) by discriminate; cbn [bind];
    now rewrite truediv_ok.
Qed.

(** The schedule luck of ranks within the league stays within the
    weight 7, with the sign of the outcome. *)
Lemma schedule_luck_bounds (n rank opp_rank : Z) :
  2 <= n -> 1 <= rank <= n -> 1 <= opp_rank <= n ->
  exists v,
    schedule_luck 7 n rank opp_rank = Ok v /\
    (- (7) < v < 7)%Q /\
    (rank < opp_rank -> (0 <= v)%Q) /\
    (opp_rank < rank -> (v <= 0)%Q).
Proof.
  intros Hn Hr Ho.
  rewrite schedule_luck_value by lia.
  eexists. split; [reflexivity|].
  assert (Hd : (0 < inject_Z (n - 1))%Q).
  { change 0%Q with (inject_Z 0). rewrite <- Zlt_Qlt. lia. }
  assert (Hdiv : forall a : Q, (a / inject_Z (n - 1) * inject_Z (n - 1) == a)%Q).
  { intros a. field. intros E. rewrite E in Hd. now apply Qlt_irrefl in Hd. }
  assert (Hsub : forall a b : Z,
             (inject_Z (a - b) == inject_Z a - inject_Z b)%Q).
  { intros a b. unfold Z.sub. now rewrite inject_Z_plus, inject_Z_opp. }
  assert (Hrq : (1 <= inject_Z rank)%Q)
    by (change 1%Q with (inject_Z 1); rewrite <- Zle_Qle; lia).
  assert (Hrn : (inject_Z rank <= inject_Z n)%Q)
    by (rewrite <- Zle_Qle; lia).
  assert (Hn2 : (2 <= inject_Z n)%Q)
    by (change 2%Q with (inject_Z 2); rewrite <- Zle_Qle; lia).
  assert (Hd1 : (inject_Z (n - 1) == inject_Z n - 1)%Q)
    by (rewrite Hsub; reflexivity).
  unfold win_term, loss_term.
  destruct (rank <? opp_rank) eqn:E1.
  - apply Z.ltb_lt in E1.
    assert (Hlt : (inject_Z rank < inject_Z n)%Q) by (rewrite <- Zlt_Qlt; lia).
    set (v := (inject_Z (7 * (rank - 1)) / inject_Z (n - 1))%Q).
    assert (Hv : (v * inject_Z (n - 1) == 7 * (inject_Z rank - 1))%Q).
    { unfold v. rewrite Hdiv, inject_Z_mult, Hsub. reflexivity. }
    split; [|split; [|lia]].
    + split; nra.
    + intros _. nra.
  - apply Z.ltb_ge in E1.
    destruct (opp_rank <? rank) eqn:E2.
    + apply Z.ltb_lt in E2.
      assert (Hgt : (2 <= inject_Z rank)%Q)
        by (change 2%Q with (inject_Z 2); rewrite <- Zle_Qle; lia).
      set (v := (inject_Z (- (7) * (n - rank)) / inject_Z (n - 1))%Q).
      assert (Hv : (v * inject_Z (n - 1)
                    == - (7) * (inject_Z n - inject_Z rank))%Q).
      { unfold v. rewrite Hdiv, inject_Z_mult, Hsub. reflexivity. }
      split; [|split; [lia|]].
      * split; nra.
      * intros _. nra.
    + apply Z.ltb_ge in E2.
      destruct (2 * rank <? n) eqn:E3.
      * apply Z.ltb_lt in E3.
        assert (Hlt : (2 * inject_Z rank < inject_Z n)%Q).
        { change 2%Q with (inject_Z 2). rewrite <- inject_Z_mult.
          rewrite <- Zlt_Qlt. lia. }
        set (v := (inject_Z (- (7)) / 2 * inject_Z (n - rank - 1)
                   / inject_Z (n - 1))%Q).
        assert (Hv : (v * inject_Z (n - 1)
                      == - (7 # 2) * (inject_Z n - inject_Z rank - 1))%Q).
        { unfold v. rewrite Hdiv, !Hsub.
          change (inject_Z (- (7))) with (- (7))%Q.
          change (inject_Z 1) with 1%Q. field. }
        split; [|split; lia].
        split; nra.
      * apply Z.ltb_ge in E3.
        set (v := (inject_Z 7 / 2 * inject_Z (rank - 1)
                   / inject_Z (n - 1))%Q).
        assert (Hv : (v * inject_Z (n - 1)
                      == (7 # 2) * (inject_Z rank - 1))%Q).
        { unfold v. rewrite Hdiv, Hsub.
          change (inject_Z 7) with 7%Q.
          change (inject_Z 1) with 1%Q. field. }
        split; [|split; lia].
        split; nra.
Qed.

(** X6: on ready inputs on which the standard deviation of the team's
    scores of weeks 1..week is zero, the weekly luck index is a finite
    number strictly between -0.7 and 0.7; it is not negative when the
    team finished the week ahead of its opponent and not positive when
    it finished behind. *)
Theorem luck_index_flat_bounds (np_sqrt : Q -> Q) (league : League)
    (team : Team) (week : Z) :
  luck_ready league team week ->
  fne0 (np_std np_sqrt (slice_to (scores team) week)) = false ->
  exists rank opp_rank v,
    get_weekly_finish league team week = Ok rank /\
    get_weekly_finish league (opponent team week) week = Ok opp_rank /\
    get_weekly_luck_index np_sqrt league team week = Ok (Fin v) /\
    (- (7 # 10) < v < 7 # 10)%Q /\
    (rank < opp_rank -> (0 <= v)%Q) /\
    (opp_rank < rank -> (v <= 0)%Q).
Proof.
  intros Hready Hflat.
  destruct (luck_index_blocks np_sqrt league team week Hready)
    as (rank & opp_rank & sched & Hr & Ho & Hs & Hluck).
  destruct Hready as (_ & Hall & Hteam & Hopp & Hn).
  destruct (member_rank league team week Hall Hteam) as (r & Hr' & Hrb).
  destruct (member_rank league _ week Hall Hopp) as (o & Ho' & Hob).
  assert (r = rank) by congruence. assert (o = opp_rank) by congruence.
  subst r o.
  destruct (schedule_luck_bounds (Z.of_nat (List.length (teams league)))
              rank opp_rank) as (v & Hv & Hb & Hwin & Hloss);
    [lia | lia | lia |].
  assert (v = sched) by congruence. subst v.
  exists rank, opp_rank, (sched / 10)%Q.
  split; [exact Hr|]. split; [exact Ho|]. split.
  - rewrite Hluck. cbv zeta. rewrite Hflat. reflexivity.
  - assert (E : (sched / 10 * 10 == sched)%Q) by field.
    split; [split; lra|].
    split; intros H; [specialize (Hwin H) | specialize (Hloss H)]; lra.
Qed.

Lemma luck_index_flat_bounds_witness :
  luck_ready luck_example luck_team2 2 /\
  fne0 (np_std approx_sqrt (slice_to (scores luck_team2) 2)) = false /\
  exists rank opp_rank v,
    get_weekly_finish luck_example luck_team2 2 = Ok rank /\
    get_weekly_finish luck_example (opponent luck_team2 2) 2 = Ok opp_rank /\
    get_weekly_luck_index approx_sqrt luck_example luck_team2 2
    = Ok (Fin v) /\
    (- (7 # 10) < v < 7 # 10)%Q /\
    (rank < opp_rank -> (0 <= v)%Q) /\
    (opp_rank < rank -> (v <= 0)%Q).
Proof.
  split; [exact luck_example_ready2|]. split; [reflexivity|].
  exact (luck_index_flat_bounds approx_sqrt luck_example luck_team2 2
           luck_example_ready2 eq_refl).
Defined.

Lemma schedule_luck_single (w rank opp_rank : Z) :
  schedule_luck w 1 rank opp_rank = Raise ZeroDivisionError.
Proof.
  unfold schedule_luck.
  destruct (rank <? opp_rank); [reflexivity|].
  destruct (opp_rank <? rank); [reflexivity|].
  change (truediv (inject_Z 1) 2) with (Ok (inject_Z 1 / 2)%Q). cbn [bind].
  destruct (Qltb (inject_Z rank) (inject_Z 1 / 2));
    rewrite (truediv_ok _ 2) by discriminate; reflexivity.
Qed.

(** X7: in a league of a single team the weekly luck index cannot be
    computed: once the two weekly finishes are found, the schedule luck
    divides by [num_teams - 1 = 0] and [get_weekly_luck_index] raises
    [ZeroDivisionError]. *)
Theorem luck_index_single_team (np_sqrt : Q -> Q) (league : League)
    (team : Team) (week : Z) :
  List.length (teams league) = 1%nat ->
  1 <= week <= Z.of_nat (List.length (schedule team)) ->
  all_scored league week ->
  member league team ->
  member league (opponent team week) ->
  get_weekly_luck_index np_sqrt league team week = Raise ZeroDivisionError.
Proof.
  intros Hone Hweek Hall Hteam Hopp.
  unfold get_weekly_luck_index.
  rewrite (getitem_week _ _ team) by exact Hweek.
  fold (opponent team week). cbn [bind].
  rewrite (get_weekly_finish_member league team week Hall Hteam).
  cbn [bind].
  rewrite (get_weekly_finish_member league _ week Hall Hopp).
  cbn [bind]. rewrite Hone.
  change (Z.of_nat 1) with 1. now rewrite schedule_luck_single.
Qed.

Lemma luck_index_single_team_witness :
  List.length (teams solo_league) = 1%nat /\
  1 <= 1 <= Z.of_nat (List.length (schedule solo_team)) /\
  all_scored solo_league 1 /\
  member solo_league solo_team /\
  member solo_league (opponent solo_team 1) /\
  get_weekly_luck_index approx_sqrt solo_league solo_team 1
  = Raise ZeroDivisionError.
Proof.
  assert (Hweek : 1 <= 1 <= Z.of_nat (List.length (schedule solo_team)))
    by (simpl; lia).
  assert (Hall : all_scored solo_league 1).
  { intros tm Htm. simpl in Htm. destruct Htm as [<-|[]]. simpl. lia. }
  assert (Hteam : member solo_league solo_team).
  { exists solo_team. repeat split. simpl. auto. }
  assert (Hopp : member solo_league (opponent solo_team 1)).
  { exists solo_team. repeat split. simpl. auto. }
  split; [reflexivity|]. split; [exact Hweek|]. split; [exact Hall|].
  split; [exact Hteam|]. split; [exact Hopp|].
  exact (luck_index_single_team approx_sqrt solo_league solo_team 1
           eq_refl Hweek Hall Hteam Hopp).
Defined.

(* ================================================================== *)
(** ** Further properties of the season luck indices *)
(* ================================================================== *)

Lemma dict_set_fresh (d : list (Z * npfloat)) (k : Z) (v : npfloat) :
  ~ In k (map fst d) -> dict_set Z.eqb d k v = d ++ [(k, v)].
Proof.
  induction d as [|[k' v'] d IH]; intros H; simpl; [reflexivity|].
  destruct (Z.eqb k' k) eqn:E.
  - apply Z.eqb_eq in E. exfalso. apply H. simpl. auto.
  - rewrite IH; [reflexivity|]. intros Hin. apply H. simpl. auto.
Qed.

Lemma dict_get_hit (pre rest : list (Z * npfloat)) (k : Z) (v : npfloat) :
  ~ In k (map fst pre) ->
  dict_get Z.eqb (pre ++ (k, v) :: rest) k = Ok v.
Proof.
  induction pre as [|[k' v'] pre IH]; intros H; simpl.
  - now rewrite Z.eqb_refl.
  - destruct (Z.eqb k' k) eqn:E.
    + apply Z.eqb_eq in E. exfalso. apply H. simpl. auto.
    + apply IH. intros Hin. apply H. simpl. auto.
Qed.

Lemma dict_set_hit (pre rest : list (Z * npfloat)) (k : Z)
    (v v' : npfloat) :
  ~ In k (map fst pre) ->
  dict_set Z.eqb (pre ++ (k, v) :: rest) k v' = pre ++ (k, v') :: rest.
Proof.
  induction pre as [|[k' w] pre IH]; intros H; simpl.
  - now rewrite Z.eqb_refl.
  - destruct (Z.eqb k' k) eqn:E.
    + apply Z.eqb_eq in E. exfalso. apply H. simpl. auto.
    + rewrite IH; [reflexivity|]. intros Hin. apply H. simpl. auto.
Qed.

Lemma luck_table_keys (f : Team -> npfloat) (tms : list Team) :
  map fst (luck_table f tms) = map team_id tms.
Proof. unfold luck_table. rewrite map_map. reflexivity. Qed.

Lemma initial_table (tms : list Team) :
  forall pre : list (Z * npfloat),
    NoDup (map fst pre ++ map team_id tms) ->
    fold_left (fun d team => dict_set Z.eqb d (team_id team) (Fin 0)) tms pre
    = pre ++ luck_table (fun _ => Fin 0) tms.
Proof.
  induction tms as [|t tms IH]; intros pre Hnd; simpl.
  - now rewrite app_nil_r.
  - rewrite dict_set_fresh.
    + rewrite IH.
      * now rewrite <- app_assoc.
      * rewrite map_app, <- app_assoc. exact Hnd.
    + apply NoDup_remove_2 in Hnd. intros Hin. apply Hnd.
      apply in_or_app. now left.
Qed.

Section SeasonFacts.
Variable np_sqrt : Q -> Q.
Variables (league : League) (week : Z).

Lemma season_team_loop_app (pre rest : list Team) (d : list (Z * npfloat)) :
  season_team_loop np_sqrt league week (pre ++ rest) d
  = (d' <- season_team_loop np_sqrt league week pre d ;;
     season_team_loop np_sqrt league week rest d').
Proof.
  revert d. induction pre as [|t pre IH]; intros d; simpl; [reflexivity|].
  destruct (dict_get Z.eqb d (team_id t)); cbn [bind]; [|reflexivity].
  destruct (get_weekly_luck_index np_sqrt league t week); cbn [bind];
    [apply IH | reflexivity].
Qed.

Variable luck : Team -> npfloat.

(** One pass over the teams adds each team's index to its entry. *)
Lemma season_team_loop_table (tms : list Team) (f : Team -> npfloat)
    (rest : list (Z * npfloat)) :
  forall pre : list (Z * npfloat),
    NoDup (map fst pre ++ map team_id tms) ->
    (forall t, In t tms ->
               get_weekly_luck_index np_sqrt league t week = Ok (luck t)) ->
    season_team_loop np_sqrt league week tms (pre ++ luck_table f tms ++ rest)
    = Ok (pre ++ luck_table (fun t => fadd (f t) (luck t)) tms ++ rest).
Proof.
  induction tms as [|t tms IH]; intros pre Hnd Hluck; [reflexivity|].
  assert (Hfresh : ~ In (team_id t) (map fst pre)).
  { apply NoDup_remove_2 in Hnd. intros Hin. apply Hnd.
    apply in_or_app. now left. }
  simpl. rewrite dict_get_hit by exact Hfresh. cbn [bind].
  rewrite (Hluck t) by (simpl; auto). cbn [bind].
  rewrite dict_set_hit by exact Hfresh.
  change (pre ++ (team_id t, fadd (f t) (luck t))
            :: luck_table f tms ++ rest)
    with (pre ++ [(team_id t, fadd (f t) (luck t))]
            ++ luck_table f tms ++ rest).
  rewrite app_assoc, IH.
  - now rewrite <- app_assoc.
  - rewrite map_app, <- app_assoc. exact Hnd.
  - intros u Hu. apply Hluck. simpl. auto.
Qed.

Lemma season_week_loop_table (wks : list Z) :
  forall f : Team -> npfloat,
    NoDup (map team_id (teams league)) ->
    (forall t, In t (teams league) ->
               get_weekly_luck_index np_sqrt league t week = Ok (luck t)) ->
    season_week_loop np_sqrt league week wks (luck_table f (teams league))
    = Ok (luck_table
            (fun t => Nat.iter (List.length wks)
                               (fun a => fadd a (luck t)) (f t))
            (teams league)).
Proof.
  induction wks as [|wk wks IH]; intros f Hnd Hluck; [reflexivity|].
  simpl season_week_loop.
  pose proof (season_team_loop_table (teams league) f [] [] Hnd Hluck)
    as Hpass.
  rewrite !app_nil_r in Hpass. cbn [app] in Hpass. rewrite Hpass.
  cbn [bind]. rewrite IH by assumption. f_equal.
  unfold luck_table. apply map_ext. intros t. f_equal.
  simpl List.length. now rewrite Nat.iter_succ_r.
Qed.

End SeasonFacts.

Lemma range_length (lo hi : Z) : List.length (range lo hi) = Z.to_nat (hi - lo).
Proof. unfold range. now rewrite length_map, length_seq. Qed.

(** X8: [get_season_luck_indices] adds the index of the bound [week]
    once per week of the range.  When the teams are distinct objects
    and the weekly index of every team at [week] is [luck t], every
    team gets [week] copies of [luck t], added up from 0, in the order
    of the teams of the league. *)
Theorem season_luck_copies (np_sqrt : Q -> Q) (league : League) (week : Z)
    (luck : Team -> npfloat) :
  NoDup (map team_id (teams league)) ->
  (forall t, In t (teams league) ->
             get_weekly_luck_index np_sqrt league t week = Ok (luck t)) ->
  get_season_luck_indices np_sqrt league week
  = Ok (map (fun t => (team_id t,
                       Nat.iter (Z.to_nat week)
                                (fun a => fadd a (luck t)) (Fin 0)))
            (teams league)).
Proof.
  intros Hnd Hluck. unfold get_season_luck_indices.
  rewrite (initial_table (teams league) []) by exact Hnd.
  cbn [app].
  rewrite (season_week_loop_table np_sqrt league week luck) by assumption.
  rewrite range_length.
  replace (week + 1 - 1) with week by lia. reflexivity.
Qed.

Lemma season_luck_copies_witness :
  let luck := fun t =>
    match get_weekly_luck_index approx_sqrt season_example t 2 with
    | Ok v => v
    | Raise _ => NaN
    end in
  NoDup (map team_id (teams season_example)) /\
  (forall t, In t (teams season_example) ->
             get_weekly_luck_index approx_sqrt season_example t 2
             = Ok (luck t)) /\
  get_season_luck_indices approx_sqrt season_example 2
  = Ok (map (fun t => (team_id t,
                       Nat.iter (Z.to_nat 2)
                                (fun a => fadd a (luck t)) (Fin 0)))
            (teams season_example)).
Proof.
  intros luck.
  assert (Hnd : NoDup (map team_id (teams season_example))).
  { simpl. repeat constructor; simpl; intuition discriminate. }
  assert (Hluck : forall t, In t (teams season_example) ->
            get_weekly_luck_index approx_sqrt season_example t 2
            = Ok (luck t)).
  { intros t Ht. simpl in Ht.
    destruct Ht as [<-|[<-|[<-|[<-|[]]]]]; vm_compute; reflexivity. }
  split; [exact Hnd|]. split; [exact Hluck|].
  exact (season_luck_copies approx_sqrt season_example 2 luck Hnd Hluck).
Defined.

(** X9: for a bound [week] below 1 the range of weeks is empty:
    [get_season_luck_indices] computes no weekly index and returns 0
    for every team, whatever the scores and schedules. *)
Theorem season_luck_no_weeks (np_sqrt : Q -> Q) (league : League) (week : Z) :
  week < 1 ->
  NoDup (map team_id (teams league)) ->
  get_season_luck_indices np_sqrt league week
  = Ok (map (fun t => (team_id t, Fin 0)) (teams league)).
Proof.
  intros Hweek Hnd. unfold get_season_luck_indices.
  rewrite (initial_table (teams league) []) by exact Hnd.
  unfold range. replace (Z.to_nat (week + 1 - 1)) with 0%nat by lia.
  reflexivity.
Qed.

Lemma season_luck_no_weeks_witness :
  0 < 1 /\
  NoDup (map team_id (teams season_example)) /\
  get_season_luck_indices approx_sqrt season_example 0
  = Ok (map (fun t => (team_id t, Fin 0)) (teams season_example)).
Proof.
  assert (Hnd : NoDup (map team_id (teams season_example))).
  { simpl. repeat constructor; simpl; intuition discriminate. }
  split; [lia|]. split; [exact Hnd|].
  apply (season_luck_no_weeks approx_sqrt season_example 0); [lia|exact Hnd].
Defined.

(** X10: the season indices are all or nothing.  For a bound
    [week >= 1], when the weekly index of some team raises an exception
    and the teams before it in the league return, the whole call raises
    that exception. *)
Theorem season_luck_raises (np_sqrt : Q -> Q) (league : League) (week : Z)
    (pre post : list Team) (t : Team) (e : exn) (luck : Team -> npfloat) :
  1 <= week ->
  teams league = pre ++ t :: post ->
  NoDup (map team_id (teams league)) ->
  (forall u, In u pre ->
             get_weekly_luck_index np_sqrt league u week = Ok (luck u)) ->
  get_weekly_luck_index np_sqrt league t week = Raise e ->
  get_season_luck_indices np_sqrt league week = Raise e.
Proof.
  intros Hweek Hteams Hnd Hpre Ht. unfold get_season_luck_indices.
  rewrite (initial_table (teams league) []) by exact Hnd. cbn [app].
  unfold range.
  replace (Z.to_nat (week + 1 - 1)) with (S (Z.to_nat (week - 1))) by lia.
  simpl season_week_loop. rewrite Hteams in *.
  rewrite season_team_loop_app.
  unfold luck_table at 1. rewrite map_app.
  fold (luck_table (fun _ => Fin 0) pre).
  rewrite map_app in Hnd.
  pose proof (season_team_loop_table np_sqrt league week luck pre
                (fun _ => Fin 0)
                (map (fun u => (team_id u, Fin 0)) (t :: post)) []) as Hpass.
  cbn [app] in Hpass. rewrite Hpass.
  - cbn [bind]. simpl season_team_loop.
    rewrite dict_get_hit.
    + cbn [bind]. now rewrite Ht.
    + rewrite luck_table_keys. apply NoDup_remove_2 in Hnd.
      intros Hin. apply Hnd. apply in_or_app. now left.
  - apply NoDup_app_remove_r in Hnd. exact Hnd.
  - exact Hpre.
Qed.

Lemma season_luck_raises_witness :
  let luck := fun u =>
    match get_weekly_luck_index approx_sqrt unscheduled_example u 1 with
    | Ok v => v
    | Raise _ => NaN
    end in
  1 <= 1 /\
  teams unscheduled_example
  = [mkTeam 1 [20%Q] [mkTeam 2 [30%Q] []]] ++ mkTeam 2 [30%Q] [] :: [] /\
  NoDup (map team_id (teams unscheduled_example)) /\
  (forall u, In u [mkTeam 1 [20%Q] [mkTeam 2 [30%Q] []]] ->
             get_weekly_luck_index approx_sqrt unscheduled_example u 1
             = Ok (luck u)) /\
  get_weekly_luck_index approx_sqrt unscheduled_example
    (mkTeam 2 [30%Q] []) 1 = Raise IndexError /\
  get_season_luck_indices approx_sqrt unscheduled_example 1
  = Raise IndexError.
Proof.
  intros luck.
  assert (Hnd : NoDup (map team_id (teams unscheduled_example))).
  { simpl. repeat constructor; simpl; intuition discriminate. }
  assert (Hpre : forall u, In u [mkTeam 1 [20%Q] [mkTeam 2 [30%Q] []]] ->
             get_weekly_luck_index approx_sqrt unscheduled_example u 1
             = Ok (luck u)).
  { intros u Hu. simpl in Hu. destruct Hu as [<-|[]].
    vm_compute. reflexivity. }
  split; [lia|]. split; [reflexivity|]. split; [exact Hnd|].
  split; [exact Hpre|]. split; [reflexivity|].
  apply (season_luck_raises approx_sqrt unscheduled_example 1
           [mkTeam 1 [20%Q] [mkTeam 2 [30%Q] []]] [] (mkTeam 2 [30%Q] [])
           IndexError luck); [lia | reflexivity | exact Hnd | exact Hpre |].
  reflexivity.
Defined.

(* ================================================================== *)
(** ** Slot averages and ordinals *)
(* ================================================================== *)

(** X11: [avg_slot_score] is not-a-number exactly when no player of
    the lineup was played in the slot.  Otherwise it is a finite
    number: not below zero when none of these players scored below
    zero, and the score of the player when there is one, with a float
    for a score. *)
Theorem avg_slot_score_mean (league : League) (lineup : list Player)
    (slot : string) :
  (played_in slot lineup = [] <-> avg_slot_score league lineup slot = NaN) /\
  (played_in slot lineup <> [] ->
   exists m : Q,
     avg_slot_score league lineup slot = Fin m /\
     ((forall p, In p (played_in slot lineup) -> (0 <= points p)%Q) ->
      (0 <= m)%Q) /\
     (forall p, played_in slot lineup = [p] -> is_float (points p) ->
                (m == points p)%Q)).
Proof.
  unfold avg_slot_score. fold (played_in slot lineup).
  set (played := played_in slot lineup). split.
  - split; [intros ->; reflexivity|].
    destruct played; [reflexivity | discriminate].
  - intros Hne.
    assert (Hne' : map points played <> [])
      by (destruct played; [contradiction | discriminate]).
    exists (float64 (np_sum (map points played) / qlen (map points played))).
    split; [destruct played; [contradiction | reflexivity]|]. split.
    + intros Hpos. apply float64_nonneg.
      apply Qle_shift_div_l; [now apply qlen_pos|]. rewrite Qmult_0_l.
      apply np_sum_nonneg. intros x Hx. apply in_map_iff in Hx.
      destruct Hx as [p [<- Hp]]. now apply Hpos.
    + intros p -> Hf. destruct (np_mean_single (points p) Hf) as [m [Hm E]].
      simpl map. injection Hm as <-. exact E.
Qed.

Lemma avg_slot_score_mean_witness :
  played_in "RB" flex_lineup <> [] /\
  played_in "K" flex_lineup = [] /\
  avg_slot_score flex_league flex_lineup "K" = NaN /\
  exists m : Q,
    avg_slot_score flex_league flex_lineup "RB" = Fin m /\
    (0 <= m)%Q /\ (m == 9)%Q.
Proof.
  assert (Hne : played_in "RB" flex_lineup <> []) by discriminate.
  assert (He : played_in "K" flex_lineup = []) by reflexivity.
  split; [exact Hne|]. split; [exact He|].
  destruct (avg_slot_score_mean flex_league flex_lineup "K") as [Hnan _].
  split; [exact (proj1 Hnan He)|].
  destruct (avg_slot_score_mean flex_league flex_lineup "RB") as [_ Hm].
  destruct (Hm Hne) as (m & Hv & Hsign & Hone).
  exists m. split; [exact Hv|]. split.
  - apply Hsign. intros p Hp. simpl in Hp. destruct Hp as [<-|[]].
    discriminate.
  - apply (Hone (nth 1 flex_lineup (mkPlayer 0 0 [] ""))); [reflexivity|].
    exists 9, 0. split; reflexivity.
Defined.

(** X13: [make_ordinal] never fails on its suffix table and appends
    the English ordinal suffix to the decimal form of the number: "th"
    for numbers ending in 11, 12 or 13, otherwise "st", "nd", "rd" for
    the last digits 1, 2, 3, and "th" for the rest (the remainders are
    Python's, so -1 gives "-1th"); 3, 122 and 213 give "3rd", "122nd"
    and "213th". *)
Theorem make_ordinal_suffix :
  (forall n : Z, make_ordinal n = Ok (str n ++ ordinal_suffix n)%string) /\
  map make_ordinal [3; 122; 213; -1]
  = [Ok "3rd"; Ok "122nd"; Ok "213th"; Ok "-1th"]%string.
Proof.
  split; [|reflexivity].
  intros n. unfold make_ordinal, ordinal_suffix.
  pose proof (Z.mod_pos_bound n 10 ltac:(lia)) as H10.
  set (c := n mod 100) in *. set (m := n mod 10) in *.
  destruct ((11 <=? c) && (c <=? 13)) eqn:E.
  - apply andb_true_iff in E. destruct E as [E1 E2].
    apply Z.leb_le in E1, E2.
    assert (Hc : c = 11 \/ c = 12 \/ c = 13) by lia.
    destruct Hc as [-> | [-> | ->]]; reflexivity.
  - assert (Hc : (c =? 11) || (c =? 12) || (c =? 13) = false).
    { apply andb_false_iff in E.
      rewrite !orb_false_iff, !Z.eqb_neq.
      destruct E as [E|E]; [apply Z.leb_gt in E | apply Z.leb_gt in E]; lia. }
    rewrite Hc.
    assert (Hm : m = 0 \/ m = 1 \/ m = 2 \/ m = 3 \/ m = 4 \/ m = 5 \/
                 m = 6 \/ m = 7 \/ m = 8 \/ m = 9) by lia.
    destruct Hm as [-> | [-> | [-> | [-> | [-> | [-> | [-> | [-> | [-> | ->]]]]]]]]];
      reflexivity.
Qed.

(* ================================================================== *)
(** ** get_leader_str *)
(* ================================================================== *)

(** [sorted] on rational keys, for both directions. *)
Section SortedQ.
Context {A : Type} (key : A -> Q) (reverse : bool).

Lemma sorted_Q_perm (l : list A) :
  Permutation (sorted Qltb key reverse l) l.
Proof. apply sort_by_perm. Qed.

Lemma sorted_Q_sorted (l : list A) :
  StronglySorted (fun a b => at_least reverse (key a) (key b))
                 (sorted Qltb key reverse l).
Proof.
  unfold sorted.
  set (before := fun y x : A => if reverse then Qltb (key x) (key y)
                                else Qltb (key y) (key x)).
  assert (H : StronglySorted (in_order before) (sort_by before l)).
  { apply sort_by_sorted; unfold before; destruct reverse.
    - intros x y H. apply Qltb_lt in H. apply Qltb_ge. now apply Qlt_le_weak.
    - intros x y H. apply Qltb_lt in H. apply Qltb_ge. now apply Qlt_le_weak.
    - intros x y z H1 H2. apply Qltb_ge in H1, H2. apply Qltb_ge.
      now apply Qle_trans with (key y).
    - intros x y z H1 H2. apply Qltb_ge in H1, H2. apply Qltb_ge.
      now apply Qle_trans with (key y). }
  induction H as [|a l' Hl IH Ha]; constructor; [exact IH|].
  rewrite Forall_forall in *. intros b Hb.
  specialize (Ha b Hb). unfold in_order, before in Ha.
  unfold at_least. destruct reverse; now apply Qltb_ge in Ha.
Qed.

Lemma sorted_Q_stable (v : Q) (l : list A) :
  filter (fun p => Qeq_bool (key p) v) (sorted Qltb key reverse l)
  = filter (fun p => Qeq_bool (key p) v) l.
Proof.
  apply sort_by_stable. intros x y Hx Hy.
  apply Qeq_bool_iff in Hx, Hy.
  destruct reverse; apply Qltb_ge; rewrite Hx, Hy; apply Qle_refl.
Qed.
End SortedQ.

Lemma filter_none {A : Type} (f : A -> bool) (l : list A) :
  (forall x, In x l -> f x = false) -> filter f l = [].
Proof.
  intros H. induction l as [|x l IH]; simpl; [reflexivity|].
  rewrite (H x) by (simpl; auto). apply IH. intros; apply H; simpl; auto.
Qed.

Lemma Qeq_bool_right (a b c : Q) :
  (b == c)%Q -> Qeq_bool a b = Qeq_bool a c.
Proof.
  intros H. destruct (Qeq_bool a c) eqn:E.
  - apply Qeq_bool_iff. apply Qeq_bool_iff in E. now rewrite H.
  - apply Qeq_bool_false. apply Qeq_bool_false in E. now rewrite H.
Qed.

Lemma getitem_middle {A : Type} (pre suf : list A) (x : A) :
  getitem (pre ++ x :: suf) (Z.of_nat (List.length pre)) = Ok x.
Proof.
  unfold getitem. rewrite length_app. simpl List.length.
  destruct (Z.of_nat (List.length pre) <? 0) eqn:E;
    [apply Z.ltb_lt in E; lia|].
  rewrite E. simpl orb.
  destruct (_ <=? _) eqn:E2; [apply Z.leb_le in E2; lia|].
  rewrite Nat2Z.id, nth_error_app2 by lia.
  now rewrite Nat.sub_diag.
Qed.

Lemma range_cons (lo hi : Z) :
  lo < hi -> range lo hi = lo :: range (lo + 1) hi.
Proof.
  intros H. unfold range.
  replace (Z.to_nat (hi - lo)) with (S (Z.to_nat (hi - (lo + 1)))) by lia.
  simpl seq. simpl map. f_equal; [lia|].
  rewrite <- seq_shift, map_map. apply map_ext. intros i. lia.
Qed.

Lemma range_empty (lo hi : Z) : hi <= lo -> range lo hi = [].
Proof.
  intros H. unfold range. now replace (Z.to_nat (hi - lo)) with 0%nat by lia.
Qed.

(** The loop, by indices, scans the entries behind the first ones. *)
Lemma leader_loop_scan (first : string * Q) (suf : list (string * Q)) :
  forall (pre : list (string * Q)) (prev : string * Q) (leaders : list string),
    getitem ((pre ++ [prev]) ++ suf) 0 = Ok first ->
    leader_loop ((pre ++ [prev]) ++ suf)
      (range (Z.of_nat (List.length (pre ++ [prev])))
             (Z.of_nat (List.length ((pre ++ [prev]) ++ suf))))
      leaders
    = leader_scan first prev suf leaders.
Proof.
  induction suf as [|cur suf IH]; intros pre prev leaders Hfirst.
  - rewrite app_nil_r, range_empty by lia. reflexivity.
  - rewrite range_cons by (rewrite (length_app (pre ++ [prev])); simpl; lia).
    cbn [leader_loop leader_scan].
    rewrite getitem_middle. cbn [bind].
    replace (Z.of_nat (List.length (pre ++ [prev])) - 1)
      with (Z.of_nat (List.length pre))
      by (rewrite length_app; simpl; lia).
    rewrite <- (app_assoc pre [prev]). simpl app.
    rewrite getitem_middle. cbn [bind].
    destruct (Qeq_bool (snd cur) (snd prev)).
    + specialize (IH (pre ++ [prev]) cur (leaders ++ [fst cur])).
      rewrite <- !app_assoc in IH. simpl app in IH.
      rewrite <- IH.
      * f_equal. rewrite !length_app. simpl List.length.
        f_equal. lia.
      * rewrite <- (app_assoc pre [prev]) in Hfirst. exact Hfirst.
    + rewrite <- (app_assoc pre [prev]) in Hfirst. simpl app in Hfirst.
      now rewrite Hfirst.
Qed.

(** On entries sorted best first, the scan collects the owners of the
    entries that tie the previous one, and finds nothing to return when
    all of them do. *)
Lemma leader_scan_sorted (hf : bool) (first : string * Q) (v : Q)
    (suf : list (string * Q)) :
  forall (prev : string * Q) (leaders : list string),
    (snd prev == v)%Q ->
    StronglySorted (fun a b => at_least hf (snd a) (snd b)) suf ->
    (forall x, In x suf -> at_least hf v (snd x)) ->
    ((forall x, In x suf -> (snd x == v)%Q) ->
     leader_scan first prev suf leaders = Ok None) /\
    ((exists x, In x suf /\ ~ (snd x == v)%Q) ->
     leader_scan first prev suf leaders
     = Ok (Some (snd first,
                 String.concat ", " (leaders ++ owners_at v suf)))).
Proof.
  induction suf as [|cur suf IH]; intros prev leaders Hprev Hs Hv.
  - split; [reflexivity | intros [x [[] _]]].
  - cbn [leader_scan]. rewrite (Qeq_bool_right _ _ _ Hprev).
    inversion Hs as [|? ? Hs' Hcur]; subst.
    rewrite Forall_forall in Hcur.
    unfold owners_at. simpl filter.
    destruct (Qeq_bool (snd cur) v) eqn:E.
    + apply Qeq_bool_iff in E.
      destruct (IH cur (leaders ++ [fst cur]) E Hs')
        as [Hnone Hsome]; [intros; apply Hv; simpl; auto|].
      split.
      * intros Hall. apply Hnone. intros x Hx. apply Hall. simpl; auto.
      * intros [x [[<-|Hx] Hne]]; [contradiction|].
        rewrite Hsome by eauto. unfold owners_at. simpl map.
        now rewrite <- app_assoc.
    + apply Qeq_bool_false in E. split.
      * intros Hall. exfalso. apply E. apply Hall. simpl; auto.
      * intros _.
        assert (Hnone : filter (fun e => Qeq_bool (snd e) v) suf = []).
        { apply filter_none.
          intros x Hx. apply Qeq_bool_false. intros Hxv.
          specialize (Hcur x Hx). specialize (Hv cur (or_introl eq_refl)).
          apply E. unfold at_least in *.
          destruct hf; apply Qle_antisym;
            first [assumption | rewrite <- Hxv; assumption]. }
        rewrite Hnone. simpl. now rewrite app_nil_r.
Qed.

(** Behind an entry that is strictly worse than [v], sorted entries no
    longer reach [v]. *)
Lemma worse_tail (hf : bool) (v : Q) (cur : string * Q)
    (suf : list (string * Q)) :
  StronglySorted (fun a b => at_least hf (snd a) (snd b)) (cur :: suf) ->
  at_least hf v (snd cur) -> ~ (snd cur == v)%Q ->
  filter (fun e => Qeq_bool (snd e) v) (cur :: suf) = [].
Proof.
  intros Hs Hv E. inversion Hs as [|? ? _ Hcur]; subst.
  rewrite Forall_forall in Hcur. apply filter_none.
  intros x [<-|Hx]; apply Qeq_bool_false; [exact E|].
  intros Hxv. specialize (Hcur x Hx). apply E. unfold at_least in *.
  destruct hf; apply Qle_antisym;
    first [assumption | rewrite <- Hxv; assumption].
Qed.

Lemma getitem_1 {A : Type} (a b : A) (l : list A) :
  getitem (a :: b :: l) 1 = Ok b.
Proof. exact (getitem_middle [a] l b). Qed.

(** The two outcomes of [get_leader_str] on at least two entries. *)
Lemma get_leader_str_cases (stats_list : list (string * Q)) (hf : bool) :
  (2 <= List.length stats_list)%nat ->
  ((forall e e', In e stats_list -> In e' stats_list ->
                 (snd e == snd e')%Q) ->
   get_leader_str stats_list hf = Ok None) /\
  ((exists e e', In e stats_list /\ In e' stats_list /\
                 ~ (snd e == snd e')%Q) ->
   exists best,
     best_value hf stats_list best /\
     get_leader_str stats_list hf
     = Ok (Some (best, String.concat ", " (owners_at best stats_list)))).
Proof.
  intros Hlen. unfold get_leader_str.
  pose proof (sorted_Q_perm snd hf stats_list) as Hperm.
  pose proof (sorted_Q_sorted snd hf stats_list) as Hsort.
  pose proof (fun v => sorted_Q_stable snd hf v stats_list) as Hstable.
  pose proof (Permutation_length Hperm) as Hl.
  destruct (sorted Qltb snd hf stats_list) as [|a [|b rest]];
    [simpl in Hl; lia | simpl in Hl; lia |].
  rewrite getitem_0, getitem_1. cbn [bind].
  assert (Hin : forall e, In e stats_list <-> In e (a :: b :: rest)).
  { intros e. split; intros H.
    - now apply (Permutation_in _ (Permutation_sym Hperm)).
    - now apply (Permutation_in _ Hperm). }
  inversion Hsort as [|? ? Htail Ha]; subst.
  rewrite Forall_forall in Ha.
  assert (Hbest : best_value hf stats_list (snd a)).
  { split.
    - exists a. split; [apply Hin; simpl; auto | reflexivity].
    - intros e He. apply Hin in He. destruct He as [<-|He].
      + unfold at_least. destruct hf; apply Qle_refl.
      + now apply Ha. }
  assert (Howners : owners_at (snd a) stats_list
                    = fst a :: owners_at (snd a) (b :: rest)).
  { unfold owners_at. rewrite <- Hstable. simpl filter at 1.
    now rewrite Qeq_bool_refl. }
  destruct (Qeq_bool (snd a) (snd b)) eqn:E; simpl negb; cbv iota.
  - apply Qeq_bool_iff in E.
    change (a :: b :: rest) with (([] ++ [a]) ++ b :: rest).
    change 1 with (Z.of_nat (List.length (@nil (string * Q) ++ [a]))).
    rewrite (leader_loop_scan a) by reflexivity.
    destruct (leader_scan_sorted hf a (snd a) (b :: rest) a [fst a])
      as [Hnone Hsome];
      [reflexivity | exact Htail | exact Ha |].
    split.
    + intros Hall. apply Hnone. intros x Hx.
      apply Hall; apply Hin; simpl; auto.
    + intros (e & e' & He & He' & Hne).
      exists (snd a). split; [exact Hbest|].
      rewrite Hsome, Howners; [reflexivity|].
      assert (Hone : forall x, In x stats_list -> ~ (snd x == snd a)%Q ->
                               In x (b :: rest)).
      { intros x Hx Hxa. apply Hin in Hx. destruct Hx as [<-|Hx];
          [exfalso; apply Hxa; reflexivity | exact Hx]. }
      destruct (Qeq_bool (snd e) (snd a)) eqn:Ee.
      * apply Qeq_bool_iff in Ee. exists e'. split.
        -- apply Hone; [exact He'|]. intros H. apply Hne.
           now rewrite Ee, H.
        -- intros H. apply Hne. now rewrite Ee, H.
      * apply Qeq_bool_false in Ee. exists e. split; [|exact Ee].
        now apply Hone.
  - apply Qeq_bool_false in E. split.
    + intros Hall. exfalso. apply E. apply Hall; apply Hin; simpl; auto.
    + intros _. exists (snd a). split; [exact Hbest|].
      rewrite Howners. unfold owners_at.
      rewrite (worse_tail hf (snd a) b rest Htail).
      * reflexivity.
      * apply Ha. simpl; auto.
      * intros H. apply E. now symmetry.
Qed.

(** X14: [get_leader_str] needs two entries: on an empty list and on a
    list of one entry it raises [IndexError]. *)
Theorem get_leader_str_short (stats_list : list (string * Q)) (hf : bool) :
  (List.length stats_list < 2)%nat ->
  get_leader_str stats_list hf = Raise IndexError.
Proof.
  intros Hlen. unfold get_leader_str.
  pose proof (Permutation_length (sorted_Q_perm snd hf stats_list)) as Hl.
  destruct (sorted Qltb snd hf stats_list) as [|a [|b rest]].
  - reflexivity.
  - reflexivity.
  - simpl in Hl. lia.
Qed.

Lemma get_leader_str_short_witness :
  (List.length [("Team 1"%string, 5%Q)] < 2)%nat /\
  get_leader_str [("Team 1"%string, 5%Q)] true = Raise IndexError.
Proof.
  split; [simpl; lia|]. apply get_leader_str_short. simpl. lia.
Defined.

(** X15: when all the entries, two or more, have the same value,
    [get_leader_str] runs off the end of its loop and returns [None]
    instead of the value and its owners. *)
Theorem get_leader_str_all_tied (stats_list : list (string * Q)) (hf : bool) :
  (2 <= List.length stats_list)%nat ->
  (forall e e', In e stats_list -> In e' stats_list -> (snd e == snd e')%Q) ->
  get_leader_str stats_list hf = Ok None.
Proof.
  intros Hlen Hall.
  now apply (proj1 (get_leader_str_cases stats_list hf Hlen)).
Qed.

Lemma get_leader_str_all_tied_witness :
  (2 <= List.length stats_level)%nat /\
  (forall e e', In e stats_level -> In e' stats_level ->
                (snd e == snd e')%Q) /\
  get_leader_str stats_level true = Ok None.
Proof.
  assert (Hall : forall e e', In e stats_level -> In e' stats_level ->
                              (snd e == snd e')%Q).
  { intros e e' He He'. simpl in He, He'.
    destruct He as [<-|[<-|[]]]; destruct He' as [<-|[<-|[]]]; reflexivity. }
  split; [simpl; lia|]. split; [exact Hall|].
  apply get_leader_str_all_tied; [simpl; lia | exact Hall].
Defined.

(** X16: on two or more entries that are not all tied,
    [get_leader_str] returns the best value (the highest when
    [high_first], the lowest otherwise) and the owners of all the
    entries of that value, in the order of the list, joined by a comma
    and a space. *)
Theorem get_leader_str_leaders (stats_list : list (string * Q)) (hf : bool) :
  (2 <= List.length stats_list)%nat ->
  (exists e e', In e stats_list /\ In e' stats_list /\
                ~ (snd e == snd e')%Q) ->
  exists best,
    best_value hf stats_list best /\
    get_leader_str stats_list hf
    = Ok (Some (best, String.concat ", " (owners_at best stats_list))).
Proof.
  intros Hlen Hne.
  now apply (proj2 (get_leader_str_cases stats_list hf Hlen)).
Qed.

Lemma get_leader_str_leaders_witness :
  (2 <= List.length stats_shared)%nat /\
  (exists e e', In e stats_shared /\ In e' stats_shared /\
                ~ (snd e == snd e')%Q) /\
  (exists best,
     best_value true stats_shared best /\
     get_leader_str stats_shared true
     = Ok (Some (best, String.concat ", " (owners_at best stats_shared)))) /\
  get_leader_str stats_shared true = Ok (Some (9%Q, "Team 2, Team 4"%string)) /\
  get_leader_str stats_example false = Ok (Some (837 # 10, "Team 2"%string)).
Proof.
  assert (Hne : exists e e', In e stats_shared /\ In e' stats_shared /\
                             ~ (snd e == snd e')%Q).
  { exists ("Team 1"%string, 7%Q), ("Team 2"%string, 9%Q).
    split; [simpl; auto|]. split; [simpl; auto|]. discriminate. }
  assert (Hlen : (2 <= List.length stats_shared)%nat) by (simpl; lia).
  split; [exact Hlen|]. split; [exact Hne|].
  split; [exact (get_leader_str_leaders stats_shared true Hlen Hne)|].
  split; reflexivity.
Defined.

(* ================================================================== *)
(** ** Teams, divisions and lineups by box score *)
(* ================================================================== *)

(** X17: [get_team] returns the first team of the league whose owner
    is the one asked for, and raises the exception "Owner ... not in
    league." exactly when no team has that owner. *)
Theorem get_team_found (owner : Team -> string) (league : League)
    (team_owner : string) :
  ((forall t, In t (teams league) -> owner t <> team_owner) ->
   get_team owner league team_owner
   = inr ("Owner " ++ team_owner ++ " not in league.")%string) /\
  ((exists t, In t (teams league) /\ owner t = team_owner) ->
   exists t before after,
     teams league = before ++ t :: after /\
     owner t = team_owner /\
     (forall u, In u before -> owner u <> team_owner) /\
     get_team owner league team_owner = inl t).
Proof.
  unfold get_team. generalize (teams league) as tms.
  induction tms as [|t tms [IHnone IHsome]]; split.
  - reflexivity.
  - intros [t [[] _]].
  - intros Hnone. simpl.
    destruct (String.eqb (owner t) team_owner) eqn:E.
    + apply String.eqb_eq in E. exfalso. apply (Hnone t); simpl; auto.
    + apply IHnone. intros u Hu. apply Hnone. simpl. auto.
  - intros [u [Hu Hou]]. simpl.
    destruct (String.eqb (owner t) team_owner) eqn:E.
    + apply String.eqb_eq in E. exists t, [], tms.
      split; [reflexivity|]. split; [exact E|].
      split; [intros ? []|reflexivity].
    + apply String.eqb_neq in E.
      destruct Hu as [->|Hu]; [contradiction|].
      destruct IHsome as (t' & before & after & Ht & Ho & Hb & Hget);
        [eauto|].
      exists t', (t :: before), after.
      split; [simpl; now rewrite Ht|]. split; [exact Ho|].
      split; [|exact Hget].
      intros v [<-|Hv]; [exact E | now apply Hb].
Qed.

Lemma get_team_found_witness :
  let owner := fun t => str (team_id t) in
  (forall t, In t (teams finish_example) -> owner t <> "9"%string) /\
  get_team owner finish_example "9"
  = inr "Owner 9 not in league."%string /\
  (exists t, In t (teams finish_example) /\ owner t = "3"%string) /\
  exists t before after,
    teams finish_example = before ++ t :: after /\
    owner t = "3"%string /\
    (forall u, In u before -> owner u <> "3"%string) /\
    get_team owner finish_example "3" = inl t.
Proof.
  intros owner.
  assert (Hnone : forall t, In t (teams finish_example) ->
                            owner t <> "9"%string).
  { intros t Ht. simpl in Ht.
    destruct Ht as [<-|[<-|[<-|[<-|[]]]]]; discriminate. }
  assert (Hsome : exists t, In t (teams finish_example) /\
                            owner t = "3"%string).
  { exists (mkTeam 3 [90%Q] []). split; [simpl; auto | reflexivity]. }
  split; [exact Hnone|].
  split; [exact (proj1 (get_team_found owner finish_example "9") Hnone)|].
  split; [exact Hsome|].
  exact (proj2 (get_team_found owner finish_example "3") Hsome).
Defined.

Lemma dict_get_set_string {V : Type} (d : list (string * V)) (k k' : string)
    (v : V) :
  dict_get String.eqb (dict_set String.eqb d k v) k'
  = if String.eqb k k' then Ok v else dict_get String.eqb d k'.
Proof.
  induction d as [|[k0 v0] d IH]; simpl.
  - destruct (String.eqb k k'); reflexivity.
  - destruct (String.eqb k0 k) eqn:E0; simpl.
    + apply String.eqb_eq in E0. subst k0.
      destruct (String.eqb k k'); reflexivity.
    + destruct (String.eqb k0 k') eqn:E1.
      * apply String.eqb_eq in E1. subst k0.
        now rewrite (String.eqb_sym k k'), E0.
      * exact IH.
Qed.

(** A dictionary filled key by key with values that depend on the key
    only. *)
Lemma dict_fill_get {V : Type} (g : string -> V) (keys : list string) :
  forall (acc : list (string * V)) (k : string),
    dict_get String.eqb
      (fold_left (fun d key => dict_set String.eqb d key (g key)) keys acc) k
    = if existsb (String.eqb k) keys then Ok (g k)
      else dict_get String.eqb acc k.
Proof.
  induction keys as [|k0 keys IH]; intros acc k; simpl; [reflexivity|].
  rewrite IH, dict_get_set_string.
  destruct (existsb (String.eqb k) keys); [now rewrite orb_true_r|].
  rewrite orb_false_r, (String.eqb_sym k k0).
  destruct (String.eqb k0 k) eqn:E; [|reflexivity].
  apply String.eqb_eq in E. now subst.
Qed.

Lemma sorted_Z_ascending {A : Type} (key : A -> Z) (l : list A) :
  StronglySorted (fun a b => key a <= key b) (sorted Z.ltb key false l).
Proof.
  unfold sorted.
  set (before := fun y x : A => key y <? key x).
  assert (H : StronglySorted (in_order before) (sort_by before l)).
  { apply sort_by_sorted; unfold before.
    - intros x y H. apply Z.ltb_lt in H. apply Z.ltb_ge. lia.
    - intros x y z H1 H2. apply Z.ltb_ge in H1, H2. apply Z.ltb_ge. lia. }
  induction H as [|a l' Hl IH Ha]; constructor; [exact IH|].
  rewrite Forall_forall in *. intros b Hb.
  specialize (Ha b Hb). unfold in_order, before in Ha.
  now apply Z.ltb_ge in Ha.
Qed.

(** X18: [get_division_standings] has an entry for exactly the division
    names of the division map; the entry of a division holds the teams
    of the league of that division, each once, in ascending order of
    their standing. *)
Theorem get_division_standings_sorted (division_name : Team -> string)
    (standing : Team -> Z) (division_map : League -> list (Z * string))
    (league : League) (division : string) :
  let standings :=
    get_division_standings division_name standing division_map league in
  (In division (map snd (division_map league)) ->
   exists tms,
     dict_get String.eqb standings division = Ok tms /\
     Permutation tms
       (filter (fun team => String.eqb (division_name team) division)
               (teams league)) /\
     StronglySorted (fun a b => standing a <= standing b) tms) /\
  (~ In division (map snd (division_map league)) ->
   dict_get String.eqb standings division = Raise KeyError).
Proof.
  cbv zeta. unfold get_division_standings.
  rewrite (dict_fill_get
             (fun d => sorted Z.ltb standing false
                         (filter (fun team =>
                                    String.eqb (division_name team) d)
                                 (teams league)))).
  split.
  - intros Hin.
    assert (E : existsb (String.eqb division) (map snd (division_map league))
                = true).
    { apply existsb_exists. exists division.
      split; [exact Hin | apply String.eqb_refl]. }
    rewrite E. eexists. split; [reflexivity|]. split.
    + apply sort_by_perm.
    + apply sorted_Z_ascending.
  - intros Hout.
    destruct (existsb (String.eqb division) (map snd (division_map league)))
      eqn:E; [|reflexivity].
    apply existsb_exists in E. destruct E as [d [Hd Hdd]].
    apply String.eqb_eq in Hdd. subst d. contradiction.
Qed.

Lemma get_division_standings_sorted_witness :
  let division_name := fun t =>
    if team_id t <=? 2 then "East"%string else "West"%string in
  let standing := fun t => 5 - team_id t in
  let division_map := fun _ : League =>
    [(0, "East"%string); (1, "West"%string)] in
  let standings :=
    get_division_standings division_name standing division_map
                           finish_example in
  In "West"%string (map snd (division_map finish_example)) /\
  ~ In "North"%string (map snd (division_map finish_example)) /\
  (exists tms,
     dict_get String.eqb standings "West"%string = Ok tms /\
     Permutation tms
       (filter (fun team => String.eqb (division_name team) "West"%string)
               (teams finish_example)) /\
     StronglySorted (fun a b => standing a <= standing b) tms) /\
  dict_get String.eqb standings "North"%string = Raise KeyError.
Proof.
  intros division_name standing division_map standings.
  assert (Hin : In "West"%string (map snd (division_map finish_example)))
    by (simpl; auto).
  assert (Hout : ~ In "North"%string (map snd (division_map finish_example))).
  { simpl. intros [H|[H|[]]]; discriminate. }
  split; [exact Hin|]. split; [exact Hout|].
  split.
  - exact (proj1 (get_division_standings_sorted division_name standing
                    division_map finish_example "West") Hin).
  - exact (proj2 (get_division_standings_sorted division_name standing
                    division_map finish_example "North") Hout).
Defined.

(** X19: [get_lineup] returns the lineup of the side the team plays on
    in the first box score it plays in - the home side when it is on
    both - and [None] when it plays in none of the box scores. *)
Theorem get_lineup_game (league_box_scores : League -> Z -> list BoxScore)
    (league : League) (team : Team) (week : Z)
    (box_scores : option (list BoxScore)) :
  let games := resolve_box_scores league_box_scores league week box_scores in
  ((forall b, In b games -> sits_out team b) ->
   get_lineup league_box_scores league team week box_scores = None) /\
  (forall before b after,
      games = before ++ b :: after ->
      (forall b', In b' before -> sits_out team b') ->
      (is_team team (home_team b) = true ->
       get_lineup league_box_scores league team week box_scores
       = Some (home_lineup b)) /\
      (is_team team (home_team b) = false ->
       is_team team (away_team b) = true ->
       get_lineup league_box_scores league team week box_scores
       = Some (away_lineup b))).
Proof.
  cbv zeta. unfold get_lineup.
  fold (resolve_box_scores league_box_scores league week box_scores).
  generalize (resolve_box_scores league_box_scores league week box_scores)
    as games.
  intros games. split.
  - induction games as [|g games IH]; intros Hout; [reflexivity|]. simpl.
    destruct (Hout g (or_introl eq_refl)) as [-> ->].
    apply IH. intros b Hb. apply Hout. simpl. auto.
  - intros before b after -> Hbefore.
    induction before as [|g before IH]; simpl.
    + split.
      * intros ->. reflexivity.
      * intros -> ->. reflexivity.
    + destruct (Hbefore g (or_introl eq_refl)) as [-> ->].
      apply IH. intros b' Hb'. apply Hbefore. simpl. auto.
Qed.

Lemma get_lineup_game_witness :
  let fetch := fun (_ : League) (_ : Z) => week_games in
  let team3 := mkTeam 3 [90%Q] [] in
  resolve_box_scores fetch finish_example 1 None
  = [nth 0 week_games (mkBoxScore None [] None [])]
    ++ nth 1 week_games (mkBoxScore None [] None []) :: [] /\
  (forall b', In b' [nth 0 week_games (mkBoxScore None [] None [])] ->
              sits_out team3 b') /\
  is_team team3 (home_team (nth 1 week_games (mkBoxScore None [] None [])))
  = false /\
  is_team team3 (away_team (nth 1 week_games (mkBoxScore None [] None [])))
  = true /\
  get_lineup fetch finish_example team3 1 None = Some stray_lineup /\
  (forall b, In b (@nil BoxScore) -> sits_out team3 b) /\
  get_lineup fetch finish_example team3 1 (Some []) = None.
Proof.
  intros fetch team3.
  assert (Hbefore : forall b',
            In b' [nth 0 week_games (mkBoxScore None [] None [])] ->
            sits_out team3 b').
  { intros b' [<-|[]]. split; reflexivity. }
  assert (Hnone : forall b, In b (@nil BoxScore) -> sits_out team3 b)
    by (intros b []).
  split; [reflexivity|]. split; [exact Hbefore|].
  split; [reflexivity|]. split; [reflexivity|].
  split.
  - exact (proj2 (proj2 (get_lineup_game fetch finish_example team3 1 None)
                    [nth 0 week_games (mkBoxScore None [] None [])]
                    (nth 1 week_games (mkBoxScore None [] None []))
                    [] eq_refl Hbefore) eq_refl eq_refl).
  - split; [exact Hnone|].
    exact (proj1 (get_lineup_game fetch finish_example team3 1 (Some []))
             Hnone).
Defined.

Lemma insert_by_map {A B : Type} (f : A -> B) (before : B -> B -> bool)
    (x : A) (l : list A) :
  insert_by before (f x) (map f l)
  = map f (insert_by (fun a b => before (f a) (f b)) x l).
Proof.
  induction l as [|y l IH]; simpl; [reflexivity|].
  destruct (before (f y) (f x)); simpl; [now rewrite IH | reflexivity].
Qed.

(** Sorting decorated elements is decorating the sorted elements. *)
Lemma sort_by_map {A B : Type} (f : A -> B) (before : B -> B -> bool)
    (l : list A) :
  sort_by before (map f l)
  = map f (sort_by (fun a b => before (f a) (f b)) l).
Proof.
  induction l as [|x l IH]; simpl; [reflexivity|].
  now rewrite IH, insert_by_map.
Qed.

Lemma combine_map_self {A B : Type} (k : A -> B) (l : list A) :
  combine (map k l) l = map (fun t => (k t, t)) l.
Proof. induction l as [|x l IH]; simpl; [reflexivity | now rewrite IH]. Qed.

(** X20: when [func] gives a number for the lineup of every team,
    [sort_lineups_by_func] returns the teams of the league, each once,
    in ascending order of that number; teams with equal numbers keep
    the order they have in the league. *)
Theorem sort_lineups_by_func_sorted
    (league_box_scores : League -> Z -> list BoxScore)
    (league : League) (week : Z)
    (func : League -> option (list Player) -> result Q)
    (box_scores : option (list BoxScore)) (key : Team -> Q) :
  let games := resolve_box_scores league_box_scores league week box_scores in
  (forall t, In t (teams league) ->
             func league
                  (get_lineup league_box_scores league t week (Some games))
             = Ok (key t)) ->
  exists sorted_teams,
    sort_lineups_by_func league_box_scores league week func box_scores
    = Ok sorted_teams /\
    Permutation sorted_teams (teams league) /\
    StronglySorted (fun a b => (key a <= key b)%Q) sorted_teams /\
    forall v, filter (fun t => Qeq_bool (key t) v) sorted_teams
              = filter (fun t => Qeq_bool (key t) v) (teams league).
Proof.
  cbv zeta. intros Hkey.
  exists (sorted Qltb key false (teams league)).
  split; [|split; [|split]].
  - unfold sort_lineups_by_func.
    fold (resolve_box_scores league_box_scores league week box_scores).
    rewrite (mapM_ok _ key) by exact Hkey. cbn [bind].
    rewrite combine_map_self. unfold sorted.
    rewrite (sort_by_map (fun t => (key t, t))).
    now rewrite map_map, map_id.
  - apply sorted_Q_perm.
  - apply (sorted_Q_sorted key false).
  - intros v. apply sorted_Q_stable.
Qed.

Lemma sort_lineups_by_func_sorted_witness :
  let fetch := fun (_ : League) (_ : Z) => week_games in
  let func := fun (lg : League) (lineup : option (list Player)) =>
    match lineup with
    | Some l => Ok (sum_bench_points lg l)
    | None => Raise ValueError
    end in
  let key := fun t =>
    match find_lineup t week_games with
    | Some l => sum_bench_points finish_example l
    | None => 0%Q
    end in
  (forall t, In t (teams finish_example) ->
             func finish_example
                  (get_lineup fetch finish_example t 1
                     (Some (resolve_box_scores fetch finish_example 1 None)))
             = Ok (key t)) /\
  exists sorted_teams,
    sort_lineups_by_func fetch finish_example 1 func None = Ok sorted_teams /\
    Permutation sorted_teams (teams finish_example) /\
    StronglySorted (fun a b => (key a <= key b)%Q) sorted_teams /\
    forall v, filter (fun t => Qeq_bool (key t) v) sorted_teams
              = filter (fun t => Qeq_bool (key t) v) (teams finish_example).
Proof.
  intros fetch func key.
  assert (Hkey : forall t, In t (teams finish_example) ->
            func finish_example
                 (get_lineup fetch finish_example t 1
                    (Some (resolve_box_scores fetch finish_example 1 None)))
            = Ok (key t)).
  { intros t Ht. simpl in Ht.
    destruct Ht as [<-|[<-|[<-|[<-|[]]]]]; reflexivity. }
  split; [exact Hkey|].
  exact (sort_lineups_by_func_sorted fetch finish_example 1 func None key
           Hkey).
Defined.
